(** * Product Hunt lead scraper: a shallow embedding of its decision logic

    The development follows the JavaScript sources [scraper.js],
    [contactExtractor.js] and [websiteContactExtractor.js].  Pure helpers are
    Rocq functions on [string]; browser-driven code is written in a small
    state-and-exception monad over an explicit browser state, with the
    contents of the visited pages supplied as data. *)

From Stdlib Require Import String Ascii List Bool Arith ZArith QArith Qround Lia Lqa.
From Stdlib Require Import Permutation.
Import ListNotations.

Set Implicit Arguments.

Close Scope Q_scope.

(* ================================================================== *)
(** * Part I: definitions                                              *)
(* ================================================================== *)

(** ** JavaScript string primitives used by the scraper

    Strings are sequences of 8-bit characters; [toLowerCase] and [trim] act
    on the ASCII range. *)

Module Js.

Local Open Scope string_scope.

(** [!!s] for a string: the empty string is the only falsy one. *)
Definition truthy (s : string) : bool :=
  match s with
  | EmptyString => false
  | String _ _ => true
  end.

(** [a || b] on strings. *)
Definition or_else (a b : string) : string :=
  if truthy a then a else b.

(** [s.startsWith(p)]. *)
Fixpoint startsWith (s p : string) {struct p} : bool :=
  match p with
  | EmptyString => true
  | String c p' =>
      match s with
      | EmptyString => false
      | String d s' => Ascii.eqb c d && startsWith s' p'
      end
  end.

(** [s.includes(sub)]. *)
Fixpoint includes (s sub : string) : bool :=
  startsWith s sub ||
  match s with
  | EmptyString => false
  | String _ s' => includes s' sub
  end.

(** Occurrence of one character. *)
Fixpoint has_char (c : ascii) (s : string) : bool :=
  match s with
  | EmptyString => false
  | String d s' => Ascii.eqb d c || has_char c s'
  end.

(** [s.split(sep)] for a one-character separator: never the empty array. *)
Fixpoint split (sep : ascii) (s : string) : list string :=
  match s with
  | EmptyString => [EmptyString]
  | String c s' =>
      if Ascii.eqb c sep then EmptyString :: split sep s'
      else match split sep s' with
           | [] => [String c EmptyString]
           | h :: t => String c h :: t
           end
  end.

(** [arr[0]] and [arr[arr.length - 1]] on arrays of strings; an index out of
    range gives [undefined], which every caller only tests for truthiness,
    so it is represented by the empty string. *)
Definition first (parts : list string) : string := hd EmptyString parts.

Definition at_last (parts : list string) : string :=
  nth (List.length parts - 1) parts EmptyString.

(** [s.endsWith(c)] for a one-character argument. *)
Fixpoint endsWithChar (s : string) (c : ascii) : bool :=
  match s with
  | EmptyString => false
  | String d EmptyString => Ascii.eqb d c
  | String _ s' => endsWithChar s' c
  end.

(** [s.slice(0, -1)]. *)
Fixpoint dropLast (s : string) : string :=
  match s with
  | EmptyString => EmptyString
  | String _ EmptyString => EmptyString
  | String c s' => String c (dropLast s')
  end.

Definition lowerChar (c : ascii) : ascii :=
  let n := nat_of_ascii c in
  if ((65 <=? n) && (n <=? 90))%nat then ascii_of_nat (n + 32) else c.

(** [s.toLowerCase()]. *)
Fixpoint toLowerCase (s : string) : string :=
  match s with
  | EmptyString => EmptyString
  | String c s' => String (lowerChar c) (toLowerCase s')
  end.

Definition isSpace (c : ascii) : bool :=
  let n := nat_of_ascii c in
  ((n =? 32) || ((9 <=? n) && (n <=? 13)))%nat.

Fixpoint trimStart (s : string) : string :=
  match s with
  | EmptyString => EmptyString
  | String c s' => if isSpace c then trimStart s' else s
  end.

Fixpoint trimEnd (s : string) : string :=
  match s with
  | EmptyString => EmptyString
  | String c s' =>
      match trimEnd s' with
      | EmptyString => if isSpace c then EmptyString else String c EmptyString
      | t => String c t
      end
  end.

(** [s.trim()]. *)
Definition trim (s : string) : string := trimEnd (trimStart s).

(** [s.substring(n)] for [n <= s.length]. *)
Fixpoint dropChars (n : nat) (s : string) : string :=
  match n, s with
  | O, _ => s
  | S n', String _ s' => dropChars n' s'
  | S _, EmptyString => EmptyString
  end.

(** [(s.match(/lit/g) || []).length] for a literal pattern [lit]: matches are
    found left to right and do not overlap.  The fuel is the length of what
    remains to be scanned. *)
Fixpoint countMatchesFrom (fuel : nat) (s lit : string) : nat :=
  match fuel with
  | O => 0
  | S fuel' =>
      match s with
      | EmptyString => 0
      | String _ s' =>
          if startsWith s lit
          then S (countMatchesFrom fuel' (dropChars (String.length lit - 1) s') lit)
          else countMatchesFrom fuel' s' lit
      end
  end.

Definition countMatches (s lit : string) : nat :=
  countMatchesFrom (String.length s) s lit.

End Js.

(** ** Handle extraction ([contactExtractor.js], [websiteContactExtractor.js]) *)

Module Handles.

Import Js.
Local Open Scope string_scope.

(** The common prefix of both extractors:
    [url.split('?')[0].split('#')[0]], then one trailing slash removed. *)
Definition stripQueryFragment (url : string) : string :=
  first (split "#" (first (split "?" url))).

Definition stripTrailingSlash (url : string) : string :=
  if endsWithChar url "/" then dropLast url else url.

(** [extractTwitterHandle(url)] of the profile extractor. *)
Definition extractTwitterHandle (url : string) : string :=
  if negb (truthy url) then ""
  else
    let url := stripQueryFragment url in
    let url := stripTrailingSlash url in
    let parts := split "/" url in
    let handle := at_last parts in
    if truthy handle
       && negb (String.eqb handle "twitter.com")
       && negb (String.eqb handle "x.com")
       && negb (includes handle ".")
    then handle
    else "".

(** [extractSocialHandle(url, domains)] of the website extractor. *)
Definition extractSocialHandle (url : string) (domains : list string) : string :=
  if negb (truthy url) then ""
  else
    let containsDomain := existsb (fun domain => includes url domain) domains in
    if negb containsDomain then url
    else
      let url := stripQueryFragment url in
      let url := stripTrailingSlash url in
      let parts := split "/" url in
      let handle := at_last parts in
      if truthy handle
         && negb (includes handle ".")
         && negb (existsb (fun domain => String.eqb handle domain) domains)
      then handle
      else url.

(** The two domains every call site passes. *)
Definition twitterDomains : list string := ["twitter.com"; "x.com"].

End Handles.

(** ** Website-mode contact bundle and its merge ([websiteContactExtractor.js]) *)

Module WebsiteContact.

Import Js.
Local Open Scope string_scope.

Record ContactInfo : Type := mkContactInfo {
  email : string;
  twitter : string;
  linkedin : string;
  website : string
}.

Definition emptyContactInfo : ContactInfo := mkContactInfo "" "" "" "".

(** [a || b || c || ''], which JavaScript groups to the left. *)
Definition firstNonEmpty (a b c : string) : string :=
  or_else (or_else (or_else a b) c) "".

(** The object literal [mergedContactInfo]: contact page, then the pass made
    after scrolling, then the initial pass. *)
Definition mergeContactInfo
    (contactPageInfo footerContactInfo initialContactInfo : ContactInfo) : ContactInfo :=
  {| email := firstNonEmpty (email contactPageInfo) (email footerContactInfo)
                            (email initialContactInfo);
     twitter := firstNonEmpty (twitter contactPageInfo) (twitter footerContactInfo)
                              (twitter initialContactInfo);
     linkedin := firstNonEmpty (linkedin contactPageInfo) (linkedin footerContactInfo)
                               (linkedin initialContactInfo);
     website := firstNonEmpty (website contactPageInfo) (website footerContactInfo)
                              (website initialContactInfo) |}.

(** The filter applied to the e-mail matches of the page source. *)
Definition plausibleSourceEmail (e : string) : bool :=
  negb (includes e "example.com")
  && negb (includes e "yourdomain.com")
  && negb (includes e "domain.com")
  && (String.length e <? 100)%nat.

(** The step after the merge: only when the merged e-mail is empty, the first
    plausible match of the e-mail pattern in the page source is taken.
    [emailMatches] is what [pageSource.match(...)] returned: [None] for
    [null]. *)
Definition pageSourceFallback
    (merged : ContactInfo) (emailMatches : option (list string)) : ContactInfo :=
  if negb (truthy (email merged)) then
    match emailMatches with
    | Some matches =>
        match map trim (filter plausibleSourceEmail matches) with
        | e :: _ => {| email := e; twitter := twitter merged;
                       linkedin := linkedin merged; website := website merged |}
        | [] => merged
        end
    | None => merged
    end
  else merged.

(** What [extractWebsiteContactInfo] returns once its three passes are done. *)
Definition finishWebsiteContactInfo
    (contactPageInfo initialContactInfo footerContactInfo : ContactInfo)
    (emailMatches : option (list string)) : ContactInfo :=
  pageSourceFallback
    (mergeContactInfo contactPageInfo footerContactInfo initialContactInfo)
    emailMatches.

End WebsiteContact.

(** ** Adaptive rate limiter ([scraper.js], [adaptiveDelay])

    Times are integer milliseconds as [Date.now()] gives them; delays are
    exact rationals, and [Math.random()] is an argument in [[0, 1)]. *)

Module RateLimiter.

Local Open Scope Z_scope.

Record RequestStats : Type := mkRequestStats {
  lastRequestTime : Z;
  consecutiveRequests : Z;
  totalRequests : Z;
  failedRequests : Z
}.

(** The delay computed by one call, and the counters after its first part.
    [random2] is drawn only on the fast branch. *)
Definition computeDelay (delayBetweenRequests : Q) (now : Z) (random1 random2 : Q)
    (requestStats : RequestStats) : Q * RequestStats :=
  let timeSinceLastRequest := now - lastRequestTime requestStats in
  let delayTime :=
    if 5 <? consecutiveRequests requestStats
    then (delayBetweenRequests
          * (1 + inject_Z (consecutiveRequests requestStats - 5) * (2 # 10)))%Q
    else delayBetweenRequests in
  let delayTime := (delayTime + random1 * 1000)%Q in
  let '(delayTime, consecutive) :=
    if timeSinceLastRequest <? 1000
    then ((delayTime + (1000 + random2 * 2000))%Q, consecutiveRequests requestStats + 1)
    else (delayTime, Z.max 0 (consecutiveRequests requestStats - 1)) in
  let delayTime :=
    if 0 <? failedRequests requestStats
    then (delayTime + inject_Z (failedRequests requestStats) * 1000)%Q
    else delayTime in
  (delayTime,
   {| lastRequestTime := lastRequestTime requestStats;
      consecutiveRequests := consecutive;
      totalRequests := totalRequests requestStats;
      failedRequests := failedRequests requestStats |}).

(** The whole of [adaptiveDelay]: the delay slept and the statistics after
    it; [nowAfter] is the clock once the sleep is over. *)
Definition adaptiveDelay (delayBetweenRequests : Q) (now : Z) (random1 random2 : Q)
    (nowAfter : Z) (requestStats : RequestStats) : Q * RequestStats :=
  let '(delayTime, stats) :=
    computeDelay delayBetweenRequests now random1 random2 requestStats in
  (delayTime,
   {| lastRequestTime := nowAfter;
      consecutiveRequests := consecutiveRequests stats;
      totalRequests := totalRequests stats + 1;
      failedRequests := failedRequests stats |}).

Definition unitInterval (r : Q) : Prop := (0 <= r /\ r < 1)%Q.

End RateLimiter.

(** ** Listing page scroll loop ([scraper.js], [getProductsFromLeaderboard]) *)

Module Scroll.

Local Open Scope Z_scope.

Definition maxScrolls : nat := 50.

Record ScrollState : Type := mkScrollState {
  lastHeight : Z;
  scrollCount : nat
}.

(** The [while (scrollCount < maxScrolls)] loop.  [heightAfter n] is the page
    height read after the scroll issued when [scrollCount] was [n].  [None]
    means the fuel ran out before the loop ended. *)
Fixpoint scrollLoop (fuel : nat) (heightAfter : nat -> Z) (st : ScrollState)
  : option ScrollState :=
  if (scrollCount st <? maxScrolls)%nat then
    match fuel with
    | O => None
    | S fuel' =>
        let newHeight := heightAfter (scrollCount st) in
        let count := S (scrollCount st) in
        if (newHeight =? lastHeight st) && (3 <=? count)%nat
        then Some {| lastHeight := lastHeight st; scrollCount := count |}
        else scrollLoop fuel' heightAfter {| lastHeight := newHeight; scrollCount := count |}
    end
  else Some st.

(** The loop as the function enters it: [lastHeight] is the height read
    before the first scroll, [scrollCount] is 0. *)
Definition scrollToLoadAll (fuel : nat) (initialHeight : Z) (heightAfter : nat -> Z)
  : option ScrollState :=
  scrollLoop fuel heightAfter {| lastHeight := initialHeight; scrollCount := 0 |}.

(** The height the loop compares with at iteration [n] (counting from 0). *)
Definition heightBefore (initialHeight : Z) (heightAfter : nat -> Z) (n : nat) : Z :=
  match n with
  | O => initialHeight
  | S m => heightAfter m
  end.

End Scroll.

(** ** Array primitives: [slice(0, end)] and the stable [sort] *)

Module JsArray.

Local Open Scope Z_scope.

(** [arr.slice(0, end)]: a negative [end] counts from the end of the array,
    an [end] past the length is the length. *)
Definition slice0 {A : Type} (end_ : Z) (l : list A) : list A :=
  let len := Z.of_nat (List.length l) in
  let k := if end_ <? 0 then Z.max (len + end_) 0 else Z.min end_ len in
  firstn (Z.to_nat k) l.

(** [Array.prototype.sort] with a comparator: the sort is stable (ECMAScript
    2019), here by insertion; an element moves past another only when the
    comparator is strictly positive. *)
Fixpoint insertBy {A : Type} (compare : A -> A -> Z) (x : A) (l : list A) : list A :=
  match l with
  | [] => [x]
  | y :: t => if 0 <? compare x y then y :: insertBy compare x t else x :: y :: t
  end.

Fixpoint sortBy {A : Type} (compare : A -> A -> Z) (l : list A) : list A :=
  match l with
  | [] => []
  | x :: t => insertBy compare x (sortBy compare t)
  end.

(** [Subseq s l]: [s] is [l] with some elements left out, the order kept. *)
Inductive Subseq {A : Type} : list A -> list A -> Prop :=
  | Subseq_nil : Subseq [] []
  | Subseq_skip (x : A) (s l : list A) : Subseq s l -> Subseq s (x :: l)
  | Subseq_keep (x : A) (s l : list A) : Subseq s l -> Subseq (x :: s) (x :: l).

End JsArray.

(** ** Maker discovery ([scraper.js], [getProductDetails], second half) *)

Module Makers.

Import Js JsArray.
Local Open Scope string_scope.

(** One anchor matched by [a[href^="/@"]], in document order: its [href]
    attribute, its text, and whether its parent holds a [span] or [div]
    containing "Maker". *)
Record MakerLink : Type := mkMakerLink {
  linkHref : option string;
  linkText : string;
  badgeNearby : bool
}.

(** The maker object; the three contact fields are not set ([undefined],
    here the empty string) until the profile has been read. *)
Record Maker : Type := mkMaker {
  url : string;
  name : string;
  isMaker : bool;
  email : string;
  xId : string;
  linkedinUrl : string
}.

Definition newMaker (fullMakerUrl makerName : string) (confirmed : bool) : Maker :=
  mkMaker fullMakerUrl makerName confirmed "" "" "".

Definition seen (processedMakerUrls : list string) (u : string) : bool :=
  existsb (String.eqb u) processedMakerUrls.

(** The body of [makerLinks.each]: [processedMakerUrls] is the set of URLs
    met so far, [makers] the array being filled. *)
Fixpoint collectMakers (maxMakersPerProduct : Z) (links : list MakerLink)
    (processedMakerUrls : list string) (makers : list Maker) : list Maker :=
  match links with
  | [] => makers
  | element :: rest =>
      match linkHref element with
      | Some makerUrl =>
          if truthy makerUrl && startsWith makerUrl "/@" then
            let fullMakerUrl := "https://www.producthunt.com" ++ makerUrl in
            if seen processedMakerUrls fullMakerUrl
            then collectMakers maxMakersPerProduct rest processedMakerUrls makers
            else
              let processed := fullMakerUrl :: processedMakerUrls in
              let confirmed := badgeNearby element in
              let makerName := trim (linkText element) in
              if confirmed || (Z.of_nat (List.length makers) <? maxMakersPerProduct)%Z
              then collectMakers maxMakersPerProduct rest processed
                     (makers ++ [newMaker fullMakerUrl makerName confirmed])
              else collectMakers maxMakersPerProduct rest processed makers
          else collectMakers maxMakersPerProduct rest processedMakerUrls makers
      | None => collectMakers maxMakersPerProduct rest processedMakerUrls makers
      end
  end.

(** The comparator passed to [makers.sort]. *)
Definition byConfirmation (a b : Maker) : Z :=
  if isMaker a && negb (isMaker b) then (-1)%Z
  else if negb (isMaker a) && isMaker b then 1%Z
  else 0%Z.

Definition unconfirmed (m : Maker) : bool := negb (isMaker m).

(** The profile URLs the anchors name, in page order. *)
Definition pageUrls (links : list MakerLink) : list string :=
  flat_map (fun l => match linkHref l with
                     | Some h => ["https://www.producthunt.com" ++ h]
                     | None => []
                     end) links.

(** Confirmed makers come first: once an unconfirmed maker is met, no
    confirmed one follows. *)
Fixpoint confirmedFirst (makers : list Maker) : bool :=
  match makers with
  | [] => true
  | m :: rest =>
      if isMaker m then confirmedFirst rest
      else forallb (fun m' => negb (isMaker m')) rest
  end.

(** What identifies a maker on the page, whatever its contact fields. *)
Definition identity (m : Maker) : string * string * bool := (url m, name m, isMaker m).

(** [makersToProcess]: collected, sorted, cut to the cap. *)
Definition makersToProcess (maxMakersPerProduct : Z) (links : list MakerLink) : list Maker :=
  slice0 maxMakersPerProduct
    (sortBy byConfirmation (collectMakers maxMakersPerProduct links [] [])).

End Makers.

(** ** The browser session as explicit state

    A browser call either returns or throws; the session records which pages
    are open and every call made.  The faults of the model are those of
    [browser.newPage()] and [page.goto()]: the [n]-th page request and the
    [n]-th navigation of a session fail as the environment decides; the other
    page calls ([evaluate], [content], [close], the setters) return. *)

Module Session.

Local Open Scope string_scope.

(** Scripts run in the page by [page.evaluate], and queries made on the HTML
    snapshot, by the place of the call in the source. *)
Inductive Script : Type :=
  | VisitButtonScan
  | GetItButtonScan
  | ExternalLinkScan
  | TextPatternScan
  | BebopCheck
  | PageEmailScan
  | ScrollHeight
  | PostLinkScan
  | ProfileEmailScan
  | WebsiteChecks.

Inductive Selector : Type :=
  | RedirectAnchors
  | MakerAnchors
  | ProductAnchors
  | SocialAnchors.

Inductive Event : Type :=
  | EvNewPage (page : nat)
  | EvNewPageFailed
  | EvGoto (page : nat) (target : string)
  | EvEvaluate (page : nat) (script : Script)
  | EvSelect (selector : Selector)
  | EvClose (page : nat).

Record Browser : Type := mkBrowser {
  openPages : list nat;
  pagesRequested : nat;
  navigations : nat;
  events : list Event
}.

Inductive Outcome (A : Type) : Type :=
  | Returned (value : A)
  | Thrown (message : string).

Arguments Returned {A} value.
Arguments Thrown {A} message.

Definition Act (A : Type) : Type := Browser -> Outcome A * Browser.

Definition ret {A : Type} (a : A) : Act A := fun b => (Returned a, b).

Definition throw {A : Type} (message : string) : Act A := fun b => (Thrown message, b).

Definition bind {A B : Type} (m : Act A) (k : A -> Act B) : Act B :=
  fun b =>
    match m b with
    | (Returned a, b') => k a b'
    | (Thrown e, b') => (Thrown e, b')
    end.

(** [try { body } catch (error) { handler }]. *)
Definition tryCatch {A : Type} (body : Act A) (handler : string -> Act A) : Act A :=
  fun b =>
    match body b with
    | (Returned a, b') => (Returned a, b')
    | (Thrown e, b') => handler e b'
    end.

(** [try { body } finally { cleanup }]: the cleanup runs on both exits, and
    an exception of its own replaces the outcome. *)
Definition tryFinally {A : Type} (body : Act A) (cleanup : Act unit) : Act A :=
  fun b =>
    match body b with
    | (outcome, b') =>
        match cleanup b' with
        | (Returned _, b'') => (outcome, b'')
        | (Thrown e, b'') => (Thrown e, b'')
        end
    end.

Definition logEvent (e : Event) : Act unit :=
  fun b => (Returned tt,
            {| openPages := openPages b;
               pagesRequested := pagesRequested b;
               navigations := navigations b;
               events := events b ++ [e] |}).

(** The environment's faults. *)
Record Faults : Type := mkFaults {
  newPageFails : nat -> bool;
  gotoFails : nat -> bool
}.

(** [browser.newPage()]: the page gets the request's number as its id. *)
Definition newPage (f : Faults) : Act nat :=
  fun b =>
    let id := pagesRequested b in
    if newPageFails f id then
      (Thrown "Protocol error: target closed",
       {| openPages := openPages b;
          pagesRequested := S id;
          navigations := navigations b;
          events := events b ++ [EvNewPageFailed] |})
    else
      (Returned id,
       {| openPages := id :: openPages b;
          pagesRequested := S id;
          navigations := navigations b;
          events := events b ++ [EvNewPage id] |}).

(** [page.goto(url, ...)]. *)
Definition goto (f : Faults) (page : nat) (target : string) : Act unit :=
  fun b =>
    let n := navigations b in
    let b' := {| openPages := openPages b;
                 pagesRequested := pagesRequested b;
                 navigations := S n;
                 events := events b ++ [EvGoto page target] |} in
    if gotoFails f n then (Thrown "Navigation timeout exceeded", b')
    else (Returned tt, b').

(** [page.close()]. *)
Definition closePage (page : nat) : Act unit :=
  fun b =>
    (Returned tt,
     {| openPages := filter (fun p => negb (Nat.eqb p page)) (openPages b);
        pagesRequested := pagesRequested b;
        navigations := navigations b;
        events := events b ++ [EvClose page] |}).

(** [page.evaluate(script)], with what the script computes on the page. *)
Definition evaluate {A : Type} (page : nat) (script : Script) (result : A) : Act A :=
  fun b =>
    match logEvent (EvEvaluate page script) b with
    | (_, b') => (Returned result, b')
    end.

(** A query on the cheerio snapshot. *)
Definition select {A : Type} (selector : Selector) (result : A) : Act A :=
  fun b =>
    match logEvent (EvSelect selector) b with
    | (_, b') => (Returned result, b')
    end.

Definition initialBrowser : Browser := mkBrowser [] 0 0 [].

(** The session with further calls recorded and nothing else changed. *)
Definition addEvents (b : Browser) (trace : list Event) : Browser :=
  {| openPages := openPages b;
     pagesRequested := pagesRequested b;
     navigations := navigations b;
     events := events b ++ trace |}.

(** Page ids are request numbers, so every open page is older than the next
    request. *)
Definition wellFormed (b : Browser) : Prop :=
  Forall (fun p => p < pagesRequested b) (openPages b).

(** [pagesKept b b']: the session [b'] has the open pages of [b], no more and
    no fewer. *)
Definition pagesKept (b b' : Browser) : Prop :=
  wellFormed b' /\ openPages b' = openPages b /\ pagesRequested b <= pagesRequested b'.

(** [pagesAdded extra b b']: the session [b'] has the open pages of [b] and,
    besides, the pages [extra]. *)
Definition pagesAdded (extra : list nat) (b b' : Browser) : Prop :=
  wellFormed b' /\ openPages b' = (extra ++ openPages b)%list
  /\ pagesRequested b <= pagesRequested b'.

Definition leaked (leaks : bool) (page : nat) : list nat :=
  if leaks then [page] else [].

(** An operation is scoped when, on every exit, it has closed the pages it
    opened and touched no other. *)
Definition Scoped {A : Type} (act : Act A) : Prop :=
  forall b, wellFormed b -> pagesKept b (snd (act b)).

End Session.

Declare Scope act_scope.
Delimit Scope act_scope with act.
Notation "x <- m ;; k" := (Session.bind m (fun x => k))
  (at level 61, m at next level, right associativity) : act_scope.
Notation "m ;; k" := (Session.bind m (fun _ => k))
  (at level 61, right associativity) : act_scope.

(** ** The rendered product page and the six website strategies

    A page is the data the strategies read: its [a] and [button] elements in
    document order, its visible text, and the results of the two regular
    expression scans of that text, which are taken as given. *)

Module ProductPage.

Import Js JsArray.
Local Open Scope string_scope.

Inductive Tag : Type := Anchor | Button.

(** [href] is the element's resolved [href] property (empty when it has
    none, as for a button); [hrefAttr] is the attribute as written;
    [rectTop] is [getBoundingClientRect().top]. *)
Record Element : Type := mkElement {
  tag : Tag;
  textContent : string;
  href : string;
  hrefAttr : option string;
  rectTop : Z
}.

Record Page : Type := mkPage {
  elements : list Element;
  innerText : string;
  (** first capture of the first of the ten text patterns that matches
      [innerText], with ["https://"] put in front when it lacks ["http"];
      empty when none matches *)
  textPatternUrl : string;
  (** [innerText.match(emailRegex) || []] *)
  pageEmails : list string
}.

Definition isAnchor (e : Element) : bool :=
  match tag e with Anchor => true | Button => false end.

Definition attrStartsWith (e : Element) (p : string) : bool :=
  match hrefAttr e with
  | Some h => startsWith h p
  | None => false
  end.

Definition attrIncludes (e : Element) (p : string) : bool :=
  match hrefAttr e with
  | Some h => includes h p
  | None => false
  end.

(** [arr.length > 0 ? arr[0].href : ''] *)
Definition firstHref (l : list Element) : string :=
  match l with
  | e :: _ => href e
  | [] => ""
  end.

(** *** Strategy 1: an explicit "visit" call to action *)

Definition isVisitButton (el : Element) : bool :=
  let text := trim (toLowerCase (textContent el)) in
  (String.eqb text "visit"
   || String.eqb text "visit website"
   || String.eqb text "website"
   || includes text "visit site"
   || includes text "view site"
   || includes text "open site"
   || includes text "go to site")
  && truthy (href el)
  && startsWith (href el) "http"
  && negb (includes (href el) "producthunt.com/r/")
  && negb (includes (href el) "lu.ma/producthunt").

Definition visitButtonScan (p : Page) : string :=
  firstHref (filter isVisitButton (elements p)).

(** *** Strategy 2: the redirect link, read on the HTML snapshot *)

Definition redirectPrefix : string := "https://www.producthunt.com/r/".

Definition redirectAnchors (p : Page) : list string :=
  flat_map (fun e =>
              match hrefAttr e with
              | Some h => if isAnchor e && startsWith h redirectPrefix then [h] else []
              | None => []
              end)
           (elements p).

(** The test made on the URL the redirect ended at. *)
Definition acceptRedirectTarget (finalUrl : string) : string :=
  if negb (includes finalUrl "producthunt.com") && negb (includes finalUrl "lu.ma/producthunt")
  then finalUrl
  else "".

(** *** Strategy 3: a "get it" call to action *)

Definition isGetItButton (el : Element) : bool :=
  let text := trim (toLowerCase (textContent el)) in
  (String.eqb text "get it"
   || String.eqb text "get"
   || String.eqb text "try"
   || String.eqb text "try it"
   || String.eqb text "try it free"
   || String.eqb text "try for free"
   || String.eqb text "download"
   || String.eqb text "download now"
   || String.eqb text "install"
   || String.eqb text "install now"
   || String.eqb text "sign up"
   || String.eqb text "signup"
   || String.eqb text "join"
   || String.eqb text "join now"
   || String.eqb text "launch"
   || String.eqb text "launch app"
   || includes text "download"
   || includes text "try it"
   || includes text "get it"
   || includes text "sign up"
   || includes text "install")
  && truthy (href el)
  && startsWith (href el) "http"
  && negb (includes (href el) "producthunt.com")
  && negb (includes (href el) "lu.ma/producthunt").

Definition getItButtonScan (p : Page) : string :=
  firstHref (filter isGetItButton (elements p)).

(** *** Strategy 4: the shortest external link *)

Definition excludedLinkParts : list string :=
  [ "producthunt.com"; "lu.ma/producthunt"; "twitter.com"; "x.com"; "linkedin.com";
    "facebook.com"; "instagram.com"; "youtube.com/channel/"; "youtube.com/user/";
    "github.com/"; "medium.com/"; "discord.gg/"; "t.me/" ].

Definition isExternalLink (a : Element) : bool :=
  isAnchor a
  && attrStartsWith a "http"
  && negb (existsb (fun part => includes (toLowerCase (href a)) part) excludedLinkParts).

Definition byHrefLength (a b : Element) : Z :=
  (Z.of_nat (String.length (href a)) - Z.of_nat (String.length (href b)))%Z.

Definition externalLinkScan (p : Page) : string :=
  firstHref (sortBy byHrefLength (filter isExternalLink (elements p))).

(** *** Strategy 5: a URL named in the text, and the check on [bebop.ai] *)

Definition denylistedDomain : string := "bebop.ai".

Definition onDenylistedDomain (websiteUrl : string) : bool :=
  includes (toLowerCase websiteUrl) denylistedDomain.

(** [bebopCount]: the matches of [/bebop\.ai/g] in the lower-cased text. *)
Definition bebopCount (p : Page) : nat :=
  countMatches (toLowerCase (innerText p)) denylistedDomain.

(** [a[href*="bebop.ai"]] with [rect.top < 300]. *)
Definition headerBebopLinks (p : Page) : list Element :=
  filter (fun link => (rectTop link <? 300)%Z)
         (filter (fun e => isAnchor e && attrIncludes e denylistedDomain) (elements p)).

Definition isBebopRealWebsite (p : Page) : bool :=
  if (bebopCount p <? 3)%nat then false
  else
    let headerBebopLink :=
      existsb (fun link => (rectTop link <? 300)%Z)
              (filter (fun e => isAnchor e && attrIncludes e denylistedDomain) (elements p)) in
    headerBebopLink || (5 <? bebopCount p)%nat.

(** The value of [websiteUrl] when the fifth block is left. *)
Definition textPatternResult (p : Page) : string :=
  let websiteUrl := textPatternUrl p in
  if truthy websiteUrl then
    if onDenylistedDomain websiteUrl then
      if negb (isBebopRealWebsite p) then "" else websiteUrl
    else websiteUrl
  else websiteUrl.

(** *** Strategy 6: the domain of an e-mail address on the page *)

Definition isEmailChar (c : ascii) : bool :=
  let n := nat_of_ascii c in
  (((48 <=? n) && (n <=? 57)) || ((65 <=? n) && (n <=? 90)) || ((97 <=? n) && (n <=? 122))
   || (n =? 46) || (n =? 95) || (n =? 45))%nat.

Fixpoint takeEmailChars (s : string) : string :=
  match s with
  | EmptyString => EmptyString
  | String c s' => if isEmailChar c then String c (takeEmailChars s') else EmptyString
  end.

(** A run of e-mail characters matches [[...]+\.[...]+] when it has a dot
    that is neither its first nor its last character; the greedy match is
    then the whole run. *)
Definition dottedRun (run : string) : bool :=
  match run with
  | EmptyString => false
  | String _ rest => has_char "." (dropLast rest)
  end.

(** [email.match(/@([a-zA-Z0-9._-]+\.[a-zA-Z0-9._-]+)/i)], first capture. *)
Fixpoint emailDomain (email : string) : option string :=
  match email with
  | EmptyString => None
  | String c rest =>
      if Ascii.eqb c "@" && dottedRun (takeEmailChars rest)
      then Some (takeEmailChars rest)
      else emailDomain rest
  end.

Definition freeMailParts : list string :=
  [ "gmail.com"; "yahoo.com"; "hotmail.com"; "outlook.com"; "icloud.com"; "aol.com";
    "protonmail.com"; "mail.com" ].

Definition keepDomain (domain : option string) : list string :=
  match domain with
  | Some d =>
      if truthy d && negb (existsb (fun part => includes d part) freeMailParts)
      then [d] else []
  | None => []
  end.

Definition emailDomainResult (emails : list string) : string :=
  match flat_map (fun e => keepDomain (emailDomain e)) emails with
  | d :: _ => "https://" ++ d
  | [] => ""
  end.

End ProductPage.

(** ** Profile-mode contact extraction ([contactExtractor.js]) *)

Module Profile.

Import Js Handles Session.
Local Open Scope string_scope.
Local Open Scope act_scope.

Record ProfileContact : Type := mkProfileContact {
  email : string;
  xId : string;
  linkedinUrl : string
}.

Definition noProfileContact : ProfileContact := mkProfileContact "" "" "".

(** A maker profile: the [href] attributes of the anchors the social-link
    selector matches, the e-mail the text scan of the snapshot ends with, and
    the e-mail the in-page scan ends with (each empty when none is found). *)
Record ProfilePage : Type := mkProfilePage {
  socialHrefs : list (option string);
  textEmail : string;
  scriptEmail : string
}.

(** The body of [socialLinks.each]. *)
Definition scanSocialLink (acc : ProfileContact) (hrefAttr : option string) : ProfileContact :=
  match hrefAttr with
  | None => acc
  | Some href =>
      if negb (truthy href) then acc
      else
        let xId' :=
          if (includes href "twitter.com" || includes href "x.com") && negb (truthy (xId acc))
          then extractTwitterHandle href else xId acc in
        let linkedinUrl' :=
          if includes href "linkedin.com" && negb (truthy (linkedinUrl acc))
          then href else linkedinUrl acc in
        let email' :=
          if startsWith href "mailto:" && negb (truthy (email acc))
          then first (split "?" (trim (dropChars 7 href))) else email acc in
        mkProfileContact email' xId' linkedinUrl'
  end.

Definition withEmail (c : ProfileContact) (e : string) : ProfileContact :=
  mkProfileContact e (xId c) (linkedinUrl c).

(** [extractContactInfo(browser, makerUrl)]. *)
Definition extractContactInfo (f : Faults) (profile : string -> ProfilePage)
    (makerUrl : string) : Act ProfileContact :=
  page <- newPage f ;;
  tryFinally
    (tryCatch
       (goto f page makerUrl ;;
        let pp := profile makerUrl in
        socialLinks <- select SocialAnchors (socialHrefs pp) ;;
        let c := fold_left scanSocialLink socialLinks noProfileContact in
        let c := if negb (truthy (email c)) then withEmail c (textEmail pp) else c in
        if negb (truthy (email c)) then
          jsEmail <- evaluate page ProfileEmailScan (scriptEmail pp) ;;
          ret (if truthy jsEmail then withEmail c jsEmail else c)
        else ret c)
       (fun _ => ret noProfileContact))
    (closePage page).

End Profile.

(** ** Website-mode contact extraction as a browser operation *)

Module Website.

Import Js WebsiteContact Session.
Local Open Scope string_scope.
Local Open Scope act_scope.

(** What one visit of a website finds: the contact-page link of the landing
    page, the bundle [extractContactInfoFromPage] returns on the contact
    page, on the landing page as loaded and after scrolling, and the matches
    of the e-mail pattern in the page source. *)
Record Visit : Type := mkVisit {
  contactPageUrl : string;
  contactPass : ContactInfo;
  initialPass : ContactInfo;
  footerPass : ContactInfo;
  sourceEmailMatches : option (list string)
}.

(** The navigation loop: [attemptsLeft] is [maxRetries - retryCount]. *)
Fixpoint navigateWithRetries (f : Faults) (attemptsLeft : nat) (page : nat)
    (websiteUrl : string) : Act unit :=
  match attemptsLeft with
  | O => ret tt
  | S n =>
      tryCatch (goto f page websiteUrl)
               (fun error =>
                  match n with
                  | O => throw error
                  | S _ => navigateWithRetries f n page websiteUrl
                  end)
  end.

(** The visit of the contact page: a failure to reach it leaves the empty
    bundle, a failure to come back keeps what was extracted. *)
Definition visitContactPage (f : Faults) (page : nat) (websiteUrl : string) (v : Visit)
  : Act ContactInfo :=
  if truthy (contactPageUrl v) then
    tryCatch
      (goto f page (contactPageUrl v) ;;
       tryCatch (goto f page websiteUrl ;; ret (contactPass v))
                (fun _ => ret (contactPass v)))
      (fun _ => ret emptyContactInfo)
  else ret emptyContactInfo.

(** [extractWebsiteContactInfo(browser, websiteUrl)]; the visit is the one
    of the page opened for it. *)
Definition extractWebsiteContactInfo (f : Faults) (validUrl : string -> bool)
    (visit : nat -> Visit) (websiteUrl : string) : Act ContactInfo :=
  if negb (truthy websiteUrl) || negb (validUrl websiteUrl) then ret emptyContactInfo
  else
    page <- newPage f ;;
    tryFinally
      (tryCatch
         (navigateWithRetries f 3 page websiteUrl ;;
          evaluate page WebsiteChecks tt ;;
          let v := visit page in
          contactPageInfo <- visitContactPage f page websiteUrl v ;;
          ret (finishWebsiteContactInfo contactPageInfo (initialPass v) (footerPass v)
                 (sourceEmailMatches v)))
         (fun _ => ret emptyContactInfo))
      (closePage page).

Definition allEmpty (c : ContactInfo) : bool :=
  negb (truthy (WebsiteContact.email c)) && negb (truthy (twitter c))
  && negb (truthy (linkedin c)) && negb (truthy (website c)).

(** The retry loop of [getProductDetails] around the call above:
    [attemptsLeft] is [maxRetries + 1 - retryCount]. *)
Fixpoint contactInfoWithRetries (f : Faults) (validUrl : string -> bool)
    (visit : nat -> Visit) (websiteUrl : string) (attemptsLeft : nat) : Act ContactInfo :=
  match attemptsLeft with
  | O => ret emptyContactInfo
  | S n =>
      attempt <- tryCatch
                   (info <- extractWebsiteContactInfo f validUrl visit websiteUrl ;;
                    ret (Some info))
                   (fun _ => ret None) ;;
      match attempt with
      | Some info =>
          if allEmpty info && (0 <? n)%nat
          then contactInfoWithRetries f validUrl visit websiteUrl n
          else ret info
      | None =>
          match n with
          | O => ret emptyContactInfo
          | S _ => contactInfoWithRetries f validUrl visit websiteUrl n
          end
      end
  end.

End Website.

(** ** Detail resolution ([scraper.js], [getProductDetails]) *)

Module Resolver.

Import Js JsArray Session ProductPage.
Local Open Scope string_scope.
Local Open Scope act_scope.

(** Everything the scraper reads from outside. *)
Record World : Type := mkWorld {
  faults : Faults;
  (** [response.url()] of a navigation to the given URL *)
  finalUrl : string -> string;
  productPage : string -> Page;
  makerAnchors : string -> list Makers.MakerLink;
  profile : string -> Profile.ProfilePage;
  validUrl : string -> bool;
  websiteVisit : nat -> Website.Visit
}.

(** *** The website cascade (the six "approaches") *)

(** Second approach.  The body of its [try] throws only before
    [websiteUrl] is assigned, so the handler leaves it empty; the redirect
    page is closed in the body, not in a [finally]. *)
Definition followRedirectLink (w : World) (p : Page) : Act string :=
  redirectLinks <- select RedirectAnchors (redirectAnchors p) ;;
  match redirectLinks with
  | [] => ret ""
  | redirectUrl :: _ =>
      tryCatch
        (redirectPage <- newPage (faults w) ;;
         goto (faults w) redirectPage redirectUrl ;;
         let websiteUrl := acceptRedirectTarget (finalUrl w redirectUrl) in
         closePage redirectPage ;;
         ret websiteUrl)
        (fun _ => ret "")
  end.

(** Fifth approach. *)
Definition textPatternStrategy (page : nat) (p : Page) : Act string :=
  websiteUrl <- evaluate page TextPatternScan (textPatternUrl p) ;;
  if truthy websiteUrl then
    if onDenylistedDomain websiteUrl then
      real <- evaluate page BebopCheck (isBebopRealWebsite p) ;;
      if negb real then ret "" else ret websiteUrl
    else ret websiteUrl
  else ret websiteUrl.

(** Sixth approach. *)
Definition emailDomainStrategy (page : nat) (p : Page) : Act string :=
  emails <- evaluate page PageEmailScan (pageEmails p) ;;
  ret (emailDomainResult emails).

(** [if (!websiteUrl) { ... }] *)
Definition unlessFound (websiteUrl : string) (next : Act string) : Act string :=
  if negb (truthy websiteUrl) then next else ret websiteUrl.

(** Lines 456 to 723 of [scraper.js]: the value of [websiteUrl] after the
    six approaches. *)
Definition discoverWebsite (w : World) (page : nat) (p : Page) : Act string :=
  websiteUrl <- evaluate page VisitButtonScan (visitButtonScan p) ;;
  websiteUrl <- unlessFound websiteUrl (followRedirectLink w p) ;;
  websiteUrl <- unlessFound websiteUrl (evaluate page GetItButtonScan (getItButtonScan p)) ;;
  websiteUrl <- unlessFound websiteUrl (evaluate page ExternalLinkScan (externalLinkScan p)) ;;
  websiteUrl <- unlessFound websiteUrl (textPatternStrategy page p) ;;
  websiteUrl <- unlessFound websiteUrl (emailDomainStrategy page p) ;;
  ret websiteUrl.

(** *** The cascade as a specification: first success wins

    The six results, the first non-empty one, and the number of strategies
    tried until it is met; [redirectResult] reads the outcome of the second
    approach off the environment's faults. *)

Definition redirectResult (w : World) (p : Page) (requested navigated : nat) : string :=
  match redirectAnchors p with
  | [] => ""
  | redirectUrl :: _ =>
      if newPageFails (faults w) requested then ""
      else if gotoFails (faults w) navigated then ""
      else acceptRedirectTarget (finalUrl w redirectUrl)
  end.

(** The second approach leaves its page open when the page is obtained and
    the navigation then throws. *)
Definition redirectLeaks (w : World) (p : Page) (requested navigated : nat) : bool :=
  match redirectAnchors p with
  | [] => false
  | _ :: _ => negb (newPageFails (faults w) requested) && gotoFails (faults w) navigated
  end.

Definition strategyResults (w : World) (p : Page) (b : Browser) : list string :=
  [ visitButtonScan p;
    redirectResult w p (pagesRequested b) (navigations b);
    getItButtonScan p;
    externalLinkScan p;
    textPatternResult p;
    emailDomainResult (pageEmails p) ].

Fixpoint firstSuccess (results : list string) : string :=
  match results with
  | [] => ""
  | r :: rest => if truthy r then r else firstSuccess rest
  end.

(** How many strategies run: up to and including the first success. *)
Fixpoint stopIndex (results : list string) : nat :=
  match results with
  | [] => 0
  | r :: rest => if truthy r then 1 else S (stopIndex rest)
  end.

(** The call that opens each strategy, and the strategies a trace shows. *)
Definition strategyOf (e : Event) : option nat :=
  match e with
  | EvEvaluate _ VisitButtonScan => Some 1
  | EvSelect RedirectAnchors => Some 2
  | EvEvaluate _ GetItButtonScan => Some 3
  | EvEvaluate _ ExternalLinkScan => Some 4
  | EvEvaluate _ TextPatternScan => Some 5
  | EvEvaluate _ PageEmailScan => Some 6
  | _ => None
  end.

Definition strategiesInvoked (trace : list Event) : list nat :=
  flat_map (fun e => match strategyOf e with Some k => [k] | None => [] end) trace.

(** [getProductDetails] meets the leak when its own page opens and loads. *)
Definition detailsLeak (w : World) (productUrl : string) (b : Browser) : bool :=
  negb (newPageFails (faults w) (pagesRequested b))
  && negb (gotoFails (faults w) (navigations b))
  && negb (truthy (visitButtonScan (productPage w productUrl)))
  && redirectLeaks w (productPage w productUrl)
       (S (pagesRequested b)) (S (navigations b)).

(** *** Makers *)

Definition withContact (maker : Makers.Maker) (c : Profile.ProfileContact) : Makers.Maker :=
  Makers.mkMaker (Makers.url maker) (Makers.name maker) (Makers.isMaker maker)
    (or_else (Profile.email c) "") (or_else (Profile.xId c) "")
    (or_else (Profile.linkedinUrl c) "").

Definition contacted (mc : Makers.Maker * Profile.ProfileContact) : Makers.Maker :=
  withContact (fst mc) (snd mc).

(** The loop over [makersToProcess]: a maker whose profile extraction throws
    is skipped. *)
Fixpoint processMakers (w : World) (todo : list Makers.Maker) (done : list Makers.Maker)
  : Act (list Makers.Maker) :=
  match todo with
  | [] => ret done
  | maker :: rest =>
      attempt <- tryCatch
                   (c <- Profile.extractContactInfo (faults w) (profile w) (Makers.url maker) ;;
                    ret (Some c))
                   (fun _ => ret None) ;;
      match attempt with
      | Some c => processMakers w rest (done ++ [withContact maker c])
      | None => processMakers w rest done
      end
  end.

Record ProductDetails : Type := mkProductDetails {
  productWebsite : string;
  makers : list Makers.Maker;
  websiteContactInfo : WebsiteContact.ContactInfo
}.

Definition noDetails : ProductDetails :=
  mkProductDetails "" [] WebsiteContact.emptyContactInfo.

(** [getProductDetails(browser, productUrl, config)]. *)
Definition getProductDetails (w : World) (productUrl : string) (maxMakersPerProduct : Z)
  : Act ProductDetails :=
  page <- newPage (faults w) ;;
  tryFinally
    (tryCatch
       (goto (faults w) page productUrl ;;
        let p := productPage w productUrl in
        websiteUrl <- discoverWebsite w page p ;;
        contactInfo <-
          (if truthy websiteUrl then
             tryCatch
               (Website.contactInfoWithRetries (faults w) (validUrl w) (websiteVisit w)
                  websiteUrl 3)
               (fun _ => ret WebsiteContact.emptyContactInfo)
           else ret WebsiteContact.emptyContactInfo) ;;
        makerLinks <- select MakerAnchors (makerAnchors w productUrl) ;;
        found <-
          (if (0 <? List.length makerLinks)%nat
           then processMakers w (Makers.makersToProcess maxMakersPerProduct makerLinks) []
           else ret []) ;;
        ret (mkProductDetails websiteUrl found contactInfo))
       (fun _ => ret noDetails))
    (closePage page).

End Resolver.

(** ** Listing discovery ([scraper.js], [getProductsFromLeaderboard]) *)

Module Listing.

Import Js JsArray Session.
Local Open Scope string_scope.
Local Open Scope act_scope.

Record Product : Type := mkProduct {
  name : string;
  url : string
}.

(** An anchor of the listing snapshot: its [href] attribute, its text, and
    the text of the first heading-like descendant when there is one. *)
Record ListingAnchor : Type := mkListingAnchor {
  anchorHref : option string;
  anchorText : string;
  nameElement : option string
}.

(** A link the in-page scan looks at: the text of the heading found in or
    next to it, its own text, and its resolved [href]. *)
Record PostLink : Type := mkPostLink {
  heading : option string;
  postText : string;
  postHref : string
}.

Record ListingPage : Type := mkListingPage {
  anchors : list ListingAnchor;
  postLinks : list PostLink;
  initialHeight : Z;
  heightAfter : nat -> Z
}.

Definition origin : string := "https://www.producthunt.com".

Definition named (p : Product) : Prop := name p <> "" /\ url p <> "".

Definition hasUrl (u : string) (products : list Product) : bool :=
  existsb (fun p => String.eqb (url p) u) products.

(** The body of [productElements.each], on the anchors matched by
    [a[href^="/products/"]]. *)
Fixpoint collectProducts (els : list ListingAnchor) (products : list Product) : list Product :=
  match els with
  | [] => products
  | element :: rest =>
      match anchorHref element with
      | Some productUrl =>
          if startsWith productUrl "/products/" then
            let text := trim (anchorText element) in
            let productName :=
              if negb (truthy text) then
                match nameElement element with
                | Some t => trim t
                | None => text
                end
              else text in
            if truthy productUrl && truthy productName
               && negb (hasUrl (origin ++ productUrl) products)
            then collectProducts rest (products ++ [mkProduct productName (origin ++ productUrl)])
            else collectProducts rest products
          else collectProducts rest products
      | None => collectProducts rest products
      end
  end.

(** The two loops that fill [uniqueProducts]; [marker] is ["/products/"] in
    the first and ["/posts/"] in the second. *)
Fixpoint addUnique (marker : string) (candidates : list Product)
    (seenUrls : list string) (uniqueProducts : list Product)
  : list string * list Product :=
  match candidates with
  | [] => (seenUrls, uniqueProducts)
  | product :: rest =>
      if includes (url product) marker && negb (existsb (String.eqb (url product)) seenUrls)
      then addUnique marker rest (url product :: seenUrls) (uniqueProducts ++ [product])
      else addUnique marker rest seenUrls uniqueProducts
  end.

(** The in-page scan of the second pass, with its [filter]. *)
Definition scanPostLinks (links : list PostLink) : list Product :=
  filter (fun p => truthy (name p) && truthy (url p))
         (map (fun link =>
                 mkProduct (match heading link with
                            | Some h => trim h
                            | None => trim (postText link)
                            end)
                           (postHref link))
              links).

Definition extractProducts (lp : ListingPage) : list Product :=
  let products := collectProducts (anchors lp) [] in
  let '(seenUrls, uniqueProducts) := addUnique "/products/" products [] [] in
  if (List.length uniqueProducts <? 20)%nat
  then snd (addUnique "/posts/" (scanPostLinks (postLinks lp)) seenUrls uniqueProducts)
  else uniqueProducts.

(** [getProductsFromLeaderboard(browser, config)]: the scroll loop is the
    one of [Scroll], its page reads folded into one step; an error is
    thrown again after the page is closed. *)
Definition getProductsFromLeaderboard (f : Faults) (listing : string -> ListingPage)
    (targetUrl : string) : Act (list Product) :=
  page <- newPage f ;;
  tryFinally
    (tryCatch
       (goto f page targetUrl ;;
        let lp := listing targetUrl in
        _ <- evaluate page ScrollHeight
               (Scroll.scrollToLoadAll Scroll.maxScrolls (initialHeight lp) (heightAfter lp)) ;;
        _ <- select ProductAnchors tt ;;
        let products := collectProducts (anchors lp) [] in
        let '(seenUrls, uniqueProducts) := addUnique "/products/" products [] [] in
        if (List.length uniqueProducts <? 20)%nat then
          productLinks <- evaluate page PostLinkScan (scanPostLinks (postLinks lp)) ;;
          ret (snd (addUnique "/posts/" productLinks seenUrls uniqueProducts))
        else ret uniqueProducts)
       (fun error => throw error))
    (closePage page).

End Listing.

(** ** The run ([scraper.js], [scrapeProductHunt]) *)

Module Run.

Import Js JsArray Session.
Local Open Scope string_scope.
Local Open Scope act_scope.

Record OutputRecord : Type := mkOutputRecord {
  productName : string;
  productUrl : string;
  productWebsite : string;
  makerName : string;
  makerUrl : string;
  email : string;
  xId : string;
  linkedinUrl : string;
  websiteEmail : string;
  websiteTwitter : string;
  websiteLinkedin : string;
  websiteContactPage : string;
  extractedDate : string
}.

Record Config : Type := mkConfig {
  maxProducts : Z;
  delayBetweenRequests : Q;
  targetUrl : string;
  maxMakersPerProduct : Z
}.

(** The clock and the random draws of the [i]-th call of [adaptiveDelay]. *)
Record Timing : Type := mkTiming {
  clockBefore : nat -> Z;
  clockAfter : nat -> Z;
  random1 : nat -> Q;
  random2 : nat -> Q
}.

Definition makerRecord (product : Listing.Product) (details : Resolver.ProductDetails)
    (date : string) (maker : Makers.Maker) : OutputRecord :=
  let info := Resolver.websiteContactInfo details in
  {| productName := Listing.name product;
     productUrl := Listing.url product;
     productWebsite := or_else (Resolver.productWebsite details) "";
     makerName := or_else (Makers.name maker) "";
     makerUrl := or_else (Makers.url maker) "";
     email := or_else (Makers.email maker) "";
     xId := or_else (Makers.xId maker) "";
     linkedinUrl := or_else (Makers.linkedinUrl maker) "";
     websiteEmail := or_else (WebsiteContact.email info) "";
     websiteTwitter := or_else (WebsiteContact.twitter info) "";
     websiteLinkedin := or_else (WebsiteContact.linkedin info) "";
     websiteContactPage := or_else (WebsiteContact.website info) "";
     extractedDate := date |}.

Definition placeholderRecord (product : Listing.Product) (details : Resolver.ProductDetails)
    (date : string) : OutputRecord :=
  let info := Resolver.websiteContactInfo details in
  {| productName := Listing.name product;
     productUrl := Listing.url product;
     productWebsite := or_else (Resolver.productWebsite details) "";
     makerName := ""; makerUrl := ""; email := ""; xId := ""; linkedinUrl := "";
     websiteEmail := or_else (WebsiteContact.email info) "";
     websiteTwitter := or_else (WebsiteContact.twitter info) "";
     websiteLinkedin := or_else (WebsiteContact.linkedin info) "";
     websiteContactPage := or_else (WebsiteContact.website info) "";
     extractedDate := date |}.

Definition errorRecord (product : Listing.Product) (date : string) : OutputRecord :=
  {| productName := Listing.name product;
     productUrl := Listing.url product;
     productWebsite := "";
     makerName := ""; makerUrl := ""; email := ""; xId := ""; linkedinUrl := "";
     websiteEmail := ""; websiteTwitter := ""; websiteLinkedin := "";
     websiteContactPage := "";
     extractedDate := date |}.

(** The records pushed in the [try] block once the details are there. *)
Definition recordsOfDetails (cfg : Config) (product : Listing.Product)
    (details : Resolver.ProductDetails) (date : string) : list OutputRecord :=
  let limitedMakers := slice0 (maxMakersPerProduct cfg) (Resolver.makers details) in
  if (0 <? List.length limitedMakers)%nat
  then map (makerRecord product details date) limitedMakers
  else [placeholderRecord product details date].

(** One turn of the loop over [productsToProcess], without the delay: the
    records it pushes and whether it counted a failed request. *)
Definition processProduct (w : Resolver.World) (cfg : Config) (date : string)
    (product : Listing.Product) : Act (list OutputRecord * bool) :=
  tryCatch
    (details <- Resolver.getProductDetails w (Listing.url product) (maxMakersPerProduct cfg) ;;
     ret (recordsOfDetails cfg product details date, false))
    (fun _ => ret ([errorRecord product date], true)).

Definition countFailure (failed : bool) (stats : RateLimiter.RequestStats)
  : RateLimiter.RequestStats :=
  if failed then
    RateLimiter.mkRequestStats (RateLimiter.lastRequestTime stats)
      (RateLimiter.consecutiveRequests stats) (RateLimiter.totalRequests stats)
      (RateLimiter.failedRequests stats + 1)
  else stats.

(** The records one turn pushes when it starts in session [b]. *)
Definition recordsAt (w : Resolver.World) (cfg : Config) (date : string)
    (product : Listing.Product) (b : Browser) : list OutputRecord :=
  match fst (processProduct w cfg date product b) with
  | Returned (records, _) => records
  | Thrown _ => []
  end.

(** A record carries a product when it has its name and URL. *)
Definition carries (product : Listing.Product) (r : OutputRecord) : Prop :=
  productName r = Listing.name product /\ productUrl r = Listing.url product.

Definition noMakerFields (r : OutputRecord) : Prop :=
  makerName r = "" /\ makerUrl r = "" /\ email r = "" /\ xId r = "" /\ linkedinUrl r = "".

(** The loop: [i] is the index of the product at the head of [products]. *)
Fixpoint processProducts (w : Resolver.World) (t : Timing) (cfg : Config) (date : string)
    (products : list Listing.Product) (i : nat)
    (stats : RateLimiter.RequestStats) (allProductData : list OutputRecord)
  : Act (RateLimiter.RequestStats * list OutputRecord) :=
  match products with
  | [] => ret (stats, allProductData)
  | product :: rest =>
      step <- processProduct w cfg date product ;;
      let stats := countFailure (snd step) stats in
      let stats :=
        match rest with
        | [] => stats
        | _ :: _ =>
            snd (RateLimiter.adaptiveDelay (delayBetweenRequests cfg) (clockBefore t i)
                   (random1 t i) (random2 t i) (clockAfter t i) stats)
        end in
      processProducts w t cfg date rest (S i) stats (allProductData ++ fst step)
  end.

(** [scrapeProductHunt]: the records written to the CSV file, [None] when
    the function returns early because the listing is empty. *)
Definition scrapeProductHunt (w : Resolver.World) (listing : string -> Listing.ListingPage)
    (t : Timing) (cfg : Config) (date : string) (startTime : Z)
  : Act (option (list OutputRecord)) :=
  tryCatch
    (products <- Listing.getProductsFromLeaderboard (Resolver.faults w) listing (targetUrl cfg) ;;
     if (List.length products =? 0)%nat then ret None
     else
       let productsToProcess := slice0 (maxProducts cfg) products in
       done <- processProducts w t cfg date productsToProcess 0
                 (RateLimiter.mkRequestStats startTime 0 0 0) [] ;;
       ret (Some (snd done)))
    (fun error => throw error).

End Run.

(** ** Regular expressions of the e-mail scans, and the cleanup of a match
    ([contactExtractor.js], lines 938 to 1018)

    Each pattern is written out as the search it stands for: the leftmost
    position where it matches, alternatives tried in their order. *)

Module EmailText.

Import Js ProductPage.
Local Open Scope string_scope.

(** [\w]: letters, digits and the underscore. *)
Definition isWordChar (c : ascii) : bool :=
  let n := nat_of_ascii c in
  (((48 <=? n) && (n <=? 57)) || ((65 <=? n) && (n <=? 90)) || ((97 <=? n) && (n <=? 122))
   || (n =? 95))%nat.

Definition wordAt (i : nat) (s : string) : bool :=
  match String.get i s with
  | Some c => isWordChar c
  | None => false
  end.

(** [\b] between the characters [n - 1] and [n] of [s]. *)
Definition wordBoundaryAt (n : nat) (s : string) : bool :=
  xorb (match n with O => false | S m => wordAt m s end) (wordAt n s).

(** [s] starts with [alt], letter case ignored (flag [i]). *)
Fixpoint startsWithCI (s alt : string) {struct alt} : bool :=
  match alt with
  | EmptyString => true
  | String a alt' =>
      match s with
      | EmptyString => false
      | String c s' => Ascii.eqb (lowerChar c) (lowerChar a) && startsWithCI s' alt'
      end
  end.

(** [s.substring(0, n)] for [0 <= n]. *)
Fixpoint takeChars (n : nat) (s : string) : string :=
  match n, s with
  | O, _ => EmptyString
  | S n', String c s' => String c (takeChars n' s')
  | S _, EmptyString => EmptyString
  end.

(** [s.substring(0, end)]: a negative [end] is 0. *)
Definition substring0 (end_ : Z) (s : string) : string :=
  takeChars (Z.to_nat end_) s.

(** [s.indexOf(sub)]: the first position where [sub] starts, [-1] if none. *)
Fixpoint indexOf (s sub : string) : Z :=
  if startsWith s sub then 0%Z
  else match s with
       | EmptyString => (-1)%Z
       | String _ s' =>
           let i := indexOf s' sub in
           if (i <? 0)%Z then (-1)%Z else (i + 1)%Z
       end.

(** The alternatives of [domainEndingRegex] in the text scan, in the order
    and with the repetitions of the source. *)
Definition domainEndings : list string :=
  [
    "com"; "org"; "net"; "io"; "ai"; "co"; "dev"; "app"; "software"; "edu"; "gov";
    "biz"; "info"; "me"; "tv"; "xyz"; "uk"; "us"; "ca"; "au"; "de"; "fr"; "jp"; "ru";
    "br"; "in"; "cn"; "nl"; "se"; "no"; "fi"; "dk"; "pl"; "ch"; "at"; "be"; "es"; "pt";
    "gr"; "cz"; "hu"; "ro"; "sk"; "bg"; "hr"; "rs"; "si"; "lt"; "lv"; "ee"; "ua"; "by";
    "kz"; "tr"; "il"; "sa"; "ae"; "za"; "ng"; "ke"; "eg"; "ma"; "dz"; "tn"; "gh"; "ci";
    "cm"; "sn"; "mg"; "mu"; "re"; "yt"; "nc"; "pf"; "tf"; "wf"; "mq"; "gp"; "gf"; "pm";
    "bl"; "mf"; "ws"; "as"; "gu"; "mp"; "pr"; "vi"; "um"; "fm"; "pw"; "mh"; "vu"; "sb";
    "fj"; "to"; "ck"; "nu"; "tk"; "ki"; "nr"; "tv"; "cx"; "cc"; "nf"; "hm"; "aq"; "bv";
    "gs"; "sj"; "tc"; "vg"; "ms"; "ky"; "ai"; "dm"; "lc"; "vc"; "gd"; "bb"; "ag"; "bs";
    "jm"; "ht"; "do"; "pr"; "tt"; "kn"; "gl"; "fo"; "ax"; "je"; "gg"; "im"; "sh"; "io";
    "ac"; "sc"; "mv"; "lk"; "bt"; "np"; "bd"; "pk"; "lk"; "mm"; "th"; "la"; "kh"; "vn";
    "my"; "sg"; "bn"; "id"; "tl"; "ph"; "tw"; "hk"; "mo"; "kr"; "jp"; "cn"; "mn"; "kp";
    "kz"; "uz"; "tm"; "tj"; "kg"; "af"; "pk"; "in"; "np"; "bt"; "bd"; "lk"; "mv"; "ph";
    "id"; "sg"; "my"; "bn"; "tl"; "kh"; "la"; "mm"; "th"; "vn"; "cn"; "hk"; "mo"; "tw";
    "jp"; "kr"; "kp"; "mn"; "au"; "nz"; "fj"; "vu"; "to"; "ws"; "ck"; "nu"; "pf"; "nc";
    "sb"; "nr"; "ki"; "tv"; "fm"; "mh"; "pw"; "pg"; "tk"; "cx"; "cc"; "nf"; "hm"; "aq";
    "bv"; "gs"; "sj"; "tc"; "vg"; "ms"; "ky"; "ai"; "dm"; "lc"; "vc"; "gd"; "bb"; "ag";
    "bs"; "jm"; "ht"; "do"; "pr"; "tt"; "kn"; "gl"; "fo"; "ax"; "je"; "gg"; "im"; "sh";
    "io"; "ac"; "sc"; "mv"; "lk"; "bt"; "np"; "bd"; "pk"; "lk"; "mm"; "th"; "la"; "kh";
    "vn"; "my"; "sg"; "bn"; "id"; "tl"; "ph"; "tw"; "hk"; "mo"; "kr"; "jp"; "cn"; "mn";
    "kp"; "kz"; "uz"; "tm"; "tj"; "kg"; "af"; "pk"; "in"; "np"; "bt"; "bd"; "lk"; "mv";
    "ph"; "id"; "sg"; "my"; "bn"; "tl"; "kh"; "la"; "mm"; "th"; "vn"; "cn"; "hk"; "mo";
    "tw"; "jp"; "kr"; "kp"; "mn"; "au"; "nz"; "fj"; "vu"; "to"; "ws"; "ck"; "nu"; "pf";
    "nc"; "sb"; "nr"; "ki"; "tv"; "fm"; "mh"; "pw"; "pg"; "tk"; "cx"; "cc"; "nf"; "hm";
    "aq"; "bv"; "gs"; "sj"; "tc"; "vg"; "ms"; "ky"; "ai"; "dm"; "lc"; "vc"; "gd"; "bb";
    "ag"; "bs"; "jm"; "ht"; "do"; "pr"; "tt"; "kn"; "gl"; "fo"; "ax"; "je"; "gg"; "im";
    "sh"; "io"; "ac"; "sc"
  ].

(** The alternatives of the short patterns. *)
Definition commonEndings : list string :=
  [ "com"; "org"; "net"; "io"; "ai"; "co"; "dev"; "app"; "software" ].

(** The alternatives are non-empty words in lower-case letters. *)
Definition isLowerLetter (c : ascii) : bool :=
  let n := nat_of_ascii c in ((97 <=? n) && (n <=? 122))%nat.

Definition lowercaseWord (alt : string) : bool :=
  truthy alt && forallb isLowerLetter (list_ascii_of_string alt).

(** [(alt1|alt2|...)\b] at the head of [s]: the text matched by the first
    alternative that matches there and ends at a word boundary. *)
Fixpoint endingAt (alts : list string) (s : string) : option string :=
  match alts with
  | [] => None
  | alt :: rest =>
      if startsWithCI s alt && wordBoundaryAt (String.length alt) s
      then Some (takeChars (String.length alt) s)
      else endingAt rest s
  end.

(** [raw.match(/\.(alt1|...)\b/i)]: the text of the leftmost match, dot
    included. *)
Fixpoint domainEndingMatch (alts : list string) (raw : string) : option string :=
  match raw with
  | EmptyString => None
  | String c rest =>
      if Ascii.eqb c "." then
        match endingAt alts rest with
        | Some w => Some (String "." w)
        | None => domainEndingMatch alts rest
        end
      else domainEndingMatch alts rest
  end.

(** [(alt1|...)([^a-zA-Z0-9._-])] at the head of [s]: the second capture. *)
Fixpoint endingThenOther (alts : list string) (s : string) : option ascii :=
  match alts with
  | [] => None
  | alt :: rest =>
      match (if startsWithCI s alt then String.get (String.length alt) s else None) with
      | Some c => if negb (isEmailChar c) then Some c else endingThenOther rest s
      | None => endingThenOther rest s
      end
  end.

(** [raw.match(nonEmailCharRegex)]: the second capture of the leftmost
    match. *)
Fixpoint nonEmailCharMatch (raw : string) : option ascii :=
  match raw with
  | EmptyString => None
  | String c rest =>
      if Ascii.eqb c "." then
        match endingThenOther commonEndings rest with
        | Some other => Some other
        | None => nonEmailCharMatch rest
        end
      else nonEmailCharMatch rest
  end.

(** The cleanup of a raw match: cut after the first domain ending, else
    before the first character that cannot be part of an address, else
    nothing.  [alts] is [domainEndings] in the text scan and
    [commonEndings] in the in-page scan. *)
Definition cleanEmail (alts : list string) (rawEmail : string) : string :=
  match domainEndingMatch alts rawEmail with
  | Some ending =>
      let endIndex := (indexOf rawEmail ending + Z.of_nat (String.length ending))%Z in
      substring0 endIndex rawEmail
  | None =>
      match nonEmailCharMatch rawEmail with
      | Some other =>
          let endIndex := indexOf rawEmail (String other EmptyString) in
          substring0 endIndex rawEmail
      | None => rawEmail
      end
  end.

(** [emailRegex] at the head of [s]: a run of address characters, ["@"],
    and a run of address characters with a dot inside. *)
Definition emailAt (s : string) : option string :=
  let local := takeEmailChars s in
  if truthy local then
    match dropChars (String.length local) s with
    | String c rest =>
        if Ascii.eqb c "@" && dottedRun (takeEmailChars rest)
        then Some (local ++ String "@" (takeEmailChars rest))
        else None
    | EmptyString => None
    end
  else None.

(** [text.match(emailRegex)[0]]: the leftmost match. *)
Fixpoint firstEmailMatch (text : string) : option string :=
  match emailAt text with
  | Some m => Some m
  | None =>
      match text with
      | EmptyString => None
      | String _ rest => firstEmailMatch rest
      end
  end.

(** The text scan of the profile extractor, lines 938 to 978: the first
    match, matched once more by the same pattern, then cleaned; empty when
    the text holds no match. *)
Definition emailFromText (pageText : string) : string :=
  match firstEmailMatch pageText with
  | Some rawEmail =>
      let rawEmail :=
        match firstEmailMatch rawEmail with
        | Some basic => basic
        | None => rawEmail
        end in
      cleanEmail domainEndings rawEmail
  | None => ""
  end.

(** The in-page scan, lines 984 to 1018. *)
Definition emailFromScript (pageText : string) : string :=
  match firstEmailMatch pageText with
  | Some rawEmail => cleanEmail commonEndings rawEmail
  | None => ""
  end.

End EmailText.

(** ** The link scan, the choice of an e-mail and the guard on the website
    URL of [extractContactInfoFromPage] ([websiteContactExtractor.js]) *)

Module PageScan.

Import Js Handles WebsiteContact.
Local Open Scope string_scope.

(** A link of the snapshot: [link.attr('href')], [link.text()] and
    [link.html()] ([None] for [null]). *)
Record Link : Type := mkLink {
  linkHref : option string;
  linkText : string;
  linkHtml : option string
}.

Definition looksLikeTwitter (href text html : string) : bool :=
  includes href "twitter.com" || includes href "x.com"
  || includes text "twitter" || includes text "x.com"
  || includes html "twitter" || includes html "x-twitter"
  || includes html "fa-twitter" || includes html "icon-twitter"
  || includes html "twitter-icon" || includes html "twitter-logo"
  || includes html "twitter.svg" || includes html "x.svg"
  || includes html "x-logo" || includes html "x-icon".

Definition looksLikeLinkedin (href text html : string) : bool :=
  includes href "linkedin.com" || includes text "linkedin"
  || includes html "linkedin" || includes html "fa-linkedin"
  || includes html "icon-linkedin" || includes html "linkedin-icon"
  || includes html "linkedin-logo" || includes html "linkedin.svg".

Definition looksLikeContactPage (href text : string) : bool :=
  includes href "/contact" || includes href "/about" || includes href "/support"
  || includes href "/help"
  || includes text "contact" || includes text "get in touch"
  || includes text "reach out" || includes text "support".

(** The value the contact-page branch assigns, if any: an absolute URL as it
    is, a path on the page's origin ([None] when [new URL(page.url())]
    throws, and then the path itself), nothing otherwise. *)
Definition contactPageTarget (origin : option string) (href : string) : string :=
  if startsWith href "http" then href
  else if startsWith href "/" then
    match origin with
    | Some o => o ++ href
    | None => href
    end
  else "".

(** The body of [for (const link of socialLinks)], lines 426 to 484. *)
Definition scanLink (origin : option string) (acc : ContactInfo) (link : Link) : ContactInfo :=
  match linkHref link with
  | None => acc
  | Some href =>
      if negb (truthy href) then acc
      else
        let text := toLowerCase (linkText link) in
        let html := match linkHtml link with Some h => or_else h "" | None => "" end in
        let email' :=
          if startsWith href "mailto:" && negb (truthy (email acc))
          then first (split "?" (trim (dropChars 7 href))) else email acc in
        let twitter' :=
          if looksLikeTwitter href text html && negb (truthy (twitter acc))
          then extractSocialHandle href twitterDomains else twitter acc in
        let linkedin' :=
          if looksLikeLinkedin href text html && negb (truthy (linkedin acc))
          then href else linkedin acc in
        let website' :=
          if looksLikeContactPage href text && negb (truthy (website acc))
          then (if startsWith href "http" || startsWith href "/"
                then contactPageTarget origin href else website acc)
          else website acc in
        mkContactInfo email' twitter' linkedin' website'
  end.

Definition scanLinks (origin : option string) (links : list Link) : ContactInfo :=
  fold_left (scanLink origin) links emptyContactInfo.

(** The links that pass [if (!href) continue], each with its [href], its
    lower-cased text and its markup. *)
Definition usableLinks (links : list Link) : list (string * string * string) :=
  flat_map (fun link =>
              match linkHref link with
              | Some href =>
                  if truthy href
                  then [(href, toLowerCase (linkText link),
                         match linkHtml link with Some h => or_else h "" | None => "" end)]
                  else []
              | None => []
              end) links.

Definition hrefOf (t : string * string * string) : string := fst (fst t).
Definition textOf (t : string * string * string) : string := snd (fst t).
Definition htmlOf (t : string * string * string) : string := snd t.

(** The first non-empty string of a list, empty if there is none. *)
Fixpoint firstTruthy (candidates : list string) : string :=
  match candidates with
  | [] => ""
  | c :: rest => if truthy c then c else firstTruthy rest
  end.

(** *** The choice among the e-mails collected in the page, lines 583 to 626 *)

Definition placeholderParts : list string :=
  [ "example.com"; "yourdomain.com"; "domain.com"; "test@"; "user@"; "email@" ].

(** The filter at the end of the in-page collection. *)
Definition keepCandidate (e : string) : bool :=
  negb (existsb (fun part => includes e part) placeholderParts)
  && (String.length e <? 100)%nat.

Definition freeMailParts : list string :=
  [ "gmail.com"; "yahoo.com"; "hotmail.com"; "outlook.com"; "icloud.com"; "aol.com";
    "protonmail.com"; "mail.com" ].

Definition isBusinessEmail (e : string) : bool :=
  negb (existsb (fun part => includes e part) freeMailParts).

Definition priorityPrefixes : list string :=
  [ "contact@"; "info@"; "hello@"; "support@"; "help@"; "sales@"; "business@"; "team@" ].

Definition hasPriorityPrefix (e : string) : bool :=
  existsb (fun prefix => startsWith e prefix) priorityPrefixes.

(** The e-mail chosen from [jsEmails]; [current] is kept when the list is
    empty. *)
Definition chooseEmail (current : string) (jsEmails : list string) : string :=
  match jsEmails with
  | [] => current
  | generic :: _ =>
      match filter isBusinessEmail jsEmails with
      | [] => generic
      | business :: _ =>
          match filter hasPriorityPrefix (filter isBusinessEmail jsEmails) with
          | [] => business
          | priority :: _ => priority
          end
      end
  end.

(** *** The guard on the website URL, lines 916 to 961 *)

Definition falsePositives : list string :=
  [ "bebop.ai"; "lu.ma"; "twitter.com"; "x.com"; "linkedin.com"; "facebook.com" ].

(** What the in-page count finds for a suspect domain: the header and
    navigation elements whose markup names it, and the links to it in the
    top 500 pixels. *)
Record Evidence : Type := mkEvidence {
  prominentMentions : nat;
  prominentLinks : nat
}.

Definition isActualWebsite (e : Evidence) : bool :=
  (2 <=? prominentMentions e)%nat || (2 <=? prominentLinks e)%nat.

(** [evidence] is asked for the first entry of the list the URL contains;
    [find] gives [undefined] when there is none, here the empty string. *)
Definition guardWebsite (evidence : string -> Evidence) (website : string) : string :=
  if truthy website then
    let lowercaseWebsite := toLowerCase website in
    if existsb (fun fp => includes lowercaseWebsite fp) falsePositives then
      let suspectDomain :=
        match find (fun fp => includes lowercaseWebsite fp) falsePositives with
        | Some fp => fp
        | None => ""
        end in
      if negb (isActualWebsite (evidence suspectDomain)) then "" else website
    else website
  else website.

End PageScan.

(** ** Utilities ([utils.js]) *)

Module Utils.

Import Js EmailText.
Local Open Scope string_scope.

(** [randomDelay(min, max)]: [random] is the draw of [Math.random()]. *)
Definition randomDelay2 (min max : Z) (random : Q) : Z :=
  (Qfloor (random * inject_Z (max - min + 1)) + min)%Z.

(** [randomDelay(base)]: between 80% and 120% of the base. *)
Definition randomDelay (baseDelay : Q) (random : Q) : Z :=
  randomDelay2 (Qfloor (baseDelay * (8 # 10))) (Qfloor (baseDelay * (12 # 10))) random.

Definition isDigit (c : ascii) : bool :=
  let n := nat_of_ascii c in ((48 <=? n) && (n <=? 57))%nat.

(** [[0-9]{1,2}] followed by ["/"] at the head of [s]: the digits and what
    follows the slash. *)
Definition digitsThenSlash (s : string) : option (string * string) :=
  match s with
  | String a (String b (String c rest)) =>
      if isDigit a && isDigit b && Ascii.eqb c "/"
      then Some (String a (String b EmptyString), rest)
      else if isDigit a && Ascii.eqb b "/"
           then Some (String a EmptyString, String c rest)
           else None
  | String a (String b rest) =>
      if isDigit a && Ascii.eqb b "/" then Some (String a EmptyString, rest) else None
  | _ => None
  end.

(** [datePattern] at the head of [s]: the three captures. *)
Definition dateAt (s : string) : option (string * string * string) :=
  if startsWith s "/leaderboard/daily/" then
    let s := dropChars 19 s in
    let year := takeChars 4 s in
    if (String.length year =? 4)%nat && forallb isDigit (list_ascii_of_string year) then
      match dropChars 4 s with
      | String c s =>
          if Ascii.eqb c "/" then
            match digitsThenSlash s with
            | Some (month, s) =>
                match digitsThenSlash s with
                | Some (day, s) =>
                    if startsWith s "all" then Some (year, month, day) else None
                | None => None
                end
            | None => None
            end
          else None
      | EmptyString => None
      end
    else None
  else None.

(** [url.match(datePattern)]: the leftmost match. *)
Fixpoint dateMatch (url : string) : option (string * string * string) :=
  match dateAt url with
  | Some m => Some m
  | None =>
      match url with
      | EmptyString => None
      | String _ rest => dateMatch rest
      end
  end.

(** [s.padStart(2, '0')]. *)
Definition padStart2 (s : string) : string :=
  match String.length s with
  | 0 => "00"
  | 1 => "0" ++ s
  | _ => s
  end.

(** [extractDateFromUrl(url)]; [validUrl] says whether [new URL(url)]
    succeeds. *)
Definition extractDateFromUrl (validUrl : string -> bool) (url : string) : string :=
  if negb (truthy url) || negb (validUrl url) then ""
  else
    match dateMatch url with
    | Some (year, month, day) => year ++ "-" ++ padStart2 month ++ "-" ++ padStart2 day
    | None => ""
    end.

(** The shape [dddd-dd-dd]. *)
Definition isIsoDate (s : string) : bool :=
  match list_ascii_of_string s with
  | [y1; y2; y3; y4; dash1; m1; m2; dash2; d1; d2] =>
      isDigit y1 && isDigit y2 && isDigit y3 && isDigit y4 && Ascii.eqb dash1 "-"
      && isDigit m1 && isDigit m2 && Ascii.eqb dash2 "-" && isDigit d1 && isDigit d2
  | _ => false
  end.

(** One or two digits. *)
Definition shortNumber (s : string) : bool :=
  match list_ascii_of_string s with
  | [a] => isDigit a
  | [a; b] => isDigit a && isDigit b
  | _ => false
  end.

End Utils.

(** ** The delay after a response ([scraper.js], [calculateAdaptiveDelay]) *)

Module ResponseDelay.

Import Utils.

(** [calculateAdaptiveDelay(baseDelay, responseTime)]; [random] is the draw
    of the one call of [randomDelay] made. *)
Definition calculateAdaptiveDelay (baseDelay responseTime random : Q) : Q :=
  if negb (Qle_bool responseTime 5000)
  then (baseDelay * (15 # 10) + inject_Z (randomDelay 1000 random))%Q
  else if negb (Qle_bool responseTime 2000)
       then (baseDelay * (12 # 10) + inject_Z (randomDelay 500 random))%Q
       else (baseDelay + inject_Z (randomDelay 300 random))%Q.

End ResponseDelay.

(** ** What an operation costs and whether it can fail *)

Module Effort.

Import Session.

(** [within p n act]: whatever the session, a run of [act] asks the browser
    for at most [p] pages and starts at most [n] navigations. *)
Definition within {A : Type} (p n : nat) (act : Act A) : Prop :=
  forall b,
    pagesRequested b <= pagesRequested (snd (act b)) <= pagesRequested b + p /\
    navigations b <= navigations (snd (act b)) <= navigations b + n.

Definition neverThrows {A : Type} (act : Act A) : Prop :=
  forall b, exists a, fst (act b) = Returned a.

End Effort.

(** ** Example pages and environments *)

(** A page whose text names [bebop.ai] twice and has no link to it. *)
Module TwoMentions.

Import ProductPage.
Local Open Scope string_scope.

Definition page : Page :=
  mkPage [mkElement Anchor "Home" "https://www.producthunt.com/" (Some "/") 12%Z]
         "Built by the team behind Bebop.ai. Like bebop.ai, it is fast."
         "https://Bebop.ai"
         [].

End TwoMentions.

(** A product page that offers both a "visit" button and a redirect link. *)
Module VisitAndRedirect.

Import ProductPage.
Local Open Scope string_scope.

Definition page : Page :=
  mkPage
    [ mkElement Anchor "Acme" "https://www.producthunt.com/r/ABC123"
        (Some "https://www.producthunt.com/r/ABC123") 180%Z;
      mkElement Anchor " Visit website " "https://acme.example.org/"
        (Some "https://acme.example.org/") 220%Z ]
    "Acme, the launch of the day" "" [].

End VisitAndRedirect.

(** An environment without faults and with nothing on any page. *)
Module Quiet.

Import Session.
Local Open Scope string_scope.

Definition faults : Faults := mkFaults (fun _ => false) (fun _ => false).

Definition page : ProductPage.Page := ProductPage.mkPage [] "" "" [].

Definition profilePage : Profile.ProfilePage := Profile.mkProfilePage [] "" "".

Definition visit : Website.Visit :=
  Website.mkVisit "" WebsiteContact.emptyContactInfo WebsiteContact.emptyContactInfo
    WebsiteContact.emptyContactInfo None.

Definition world : Resolver.World :=
  Resolver.mkWorld faults (fun u => u) (fun _ => page) (fun _ => [])
    (fun _ => profilePage) (fun _ => true) (fun _ => visit).

End Quiet.

(** A product page whose only link is a redirect link, in a session whose
    second navigation (the one that follows the redirect) times out. *)
Module RedirectTimeout.

Import Session.
Local Open Scope string_scope.

Definition productUrl : string := "https://www.producthunt.com/products/acme".

Definition redirectUrl : string := "https://www.producthunt.com/r/ABC123".

Definition page : ProductPage.Page :=
  ProductPage.mkPage
    [ProductPage.mkElement ProductPage.Anchor "Acme" redirectUrl (Some redirectUrl) 200%Z]
    "Acme, the launch of the day" "" [].

Definition faults : Faults := mkFaults (fun _ => false) (fun n => Nat.eqb n 1).

Definition world : Resolver.World :=
  Resolver.mkWorld faults (fun u => u) (fun _ => page) (fun _ => [])
    (fun _ => Quiet.profilePage) (fun _ => true) (fun _ => Quiet.visit).

End RedirectTimeout.

(** A product with two makers, the unconfirmed one first on the page. *)
Module TwoMakers.

Import Session.
Local Open Scope string_scope.

Definition product : Listing.Product :=
  Listing.mkProduct "Acme" "https://www.producthunt.com/products/acme".

Definition links : list Makers.MakerLink :=
  [ Makers.mkMakerLink (Some "/@hunter") "Hunter" false;
    Makers.mkMakerLink (Some "/@founder") "Founder" true ].

Definition world : Resolver.World :=
  Resolver.mkWorld Quiet.faults (fun u => u) (fun _ => Quiet.page) (fun _ => links)
    (fun _ => Quiet.profilePage) (fun _ => true) (fun _ => Quiet.visit).

Definition config : Run.Config :=
  Run.mkConfig 30 2000 "https://www.producthunt.com/leaderboard/daily/2025/3/17/all" 3.

End TwoMakers.

(* ================================================================== *)
(** * Part II: theorems                                                *)
(* ================================================================== *)

(** ** Facts about the string primitives *)

Module JsFacts.

Import Js.
Local Open Scope string_scope.

Lemma truthy_true_iff (s : string) : truthy s = true <-> s <> "".
Proof. destruct s; simpl; split; intro H; congruence. Qed.

Lemma truthy_false_iff (s : string) : truthy s = false <-> s = "".
Proof. destruct s; simpl; split; intro H; congruence. Qed.

Lemma or_else_spec (a b : string) :
  (a <> "" /\ or_else a b = a) \/ (a = "" /\ or_else a b = b).
Proof.
  unfold or_else. destruct a; simpl.
  - right; split; reflexivity.
  - left; split; [discriminate | reflexivity].
Qed.

Lemma includes_char (c : ascii) (s : string) :
  includes s (String c "") = has_char c s.
Proof.
  induction s as [|d s IH]; simpl.
  - reflexivity.
  - rewrite IH, andb_true_r, Ascii.eqb_sym. reflexivity.
Qed.

Lemma split_not_nil (c : ascii) (s : string) : split c s <> [].
Proof.
  destruct s as [|a s]; simpl; [discriminate|].
  destruct (Ascii.eqb a c); [discriminate|].
  destruct (split c s); discriminate.
Qed.

Lemma split_no_sep (c : ascii) (s : string) :
  has_char c s = false -> split c s = [s].
Proof.
  induction s as [|a s IH]; simpl; intro H; [reflexivity|].
  apply orb_false_elim in H as [Ha Hs].
  rewrite Ha, (IH Hs). reflexivity.
Qed.

Lemma split_singleton (c : ascii) (s h : string) :
  split c s = [h] -> h = s /\ has_char c s = false.
Proof.
  revert h; induction s as [|a s IH]; simpl; intros h H.
  - injection H as <-. split; reflexivity.
  - destruct (Ascii.eqb a c) eqn:E.
    + injection H as _ H. exfalso. exact (split_not_nil _ _ H).
    + destruct (split c s) as [|h' t] eqn:Es.
      * exfalso. exact (split_not_nil _ _ Es).
      * injection H as <- ->.
        destruct (IH h' eq_refl) as [-> Hs]. rewrite Hs. split; reflexivity.
Qed.

Lemma at_last_cons (x : string) (l : list string) :
  l <> [] -> at_last (x :: l) = at_last l.
Proof.
  destruct l as [|y l]; [congruence|]. intros _.
  unfold at_last. simpl. rewrite Nat.sub_0_r. reflexivity.
Qed.

Lemma endsWithChar_cons (a c : ascii) (s : string) :
  s <> "" -> endsWithChar (String a s) c = endsWithChar s c.
Proof. destruct s; [congruence | reflexivity]. Qed.

(** [split(c)[0]] is the part of [s] before the first [c]. *)
Lemma split_first (c : ascii) (s : string) :
  exists rest,
    s = first (split c s) ++ rest /\
    has_char c (first (split c s)) = false /\
    (rest = "" \/ exists r, rest = String c r).
Proof.
  induction s as [|a s (rest & Hs & Hno & Hrest)]; simpl.
  - exists "". repeat split; auto.
  - destruct (Ascii.eqb a c) eqn:E.
    + apply Ascii.eqb_eq in E as ->. exists (String c s). simpl.
      repeat split; eauto.
    + destruct (split c s) as [|h t] eqn:Es.
      * exfalso. exact (split_not_nil _ _ Es).
      * simpl in *. exists rest. rewrite E, Hno. repeat split; auto.
        f_equal. exact Hs.
Qed.

(** [split(c)] read at its last index is the part of [s] after the last [c]. *)
Lemma split_last (c : ascii) (s : string) :
  exists pre,
    s = pre ++ at_last (split c s) /\
    has_char c (at_last (split c s)) = false /\
    (pre = "" \/ endsWithChar pre c = true).
Proof.
  induction s as [|a s (pre & Hs & Hno & Hpre)]; simpl.
  - exists "". repeat split; auto.
  - destruct (Ascii.eqb a c) eqn:E.
    + apply Ascii.eqb_eq in E as ->.
      rewrite (at_last_cons _ (split_not_nil c s)).
      exists (String c pre). simpl. repeat split; [f_equal; exact Hs | exact Hno |].
      right. destruct Hpre as [-> | Hpre]; simpl.
      * apply Ascii.eqb_refl.
      * destruct pre; [discriminate | exact Hpre].
    + destruct (split c s) as [|h t] eqn:Es.
      * exfalso. exact (split_not_nil _ _ Es).
      * destruct t as [|h2 t].
        -- destruct (split_singleton _ _ Es) as [-> Hc].
           exists "". unfold at_last; simpl. rewrite E, Hc. repeat split; auto.
        -- rewrite at_last_cons by discriminate.
           rewrite at_last_cons in Hs, Hno by discriminate.
           exists (String a pre). simpl. repeat split; [f_equal; exact Hs | exact Hno |].
           right. destruct Hpre as [-> | Hpre].
           ++ simpl in Hs. subst s. rewrite (split_no_sep _ _ Hno) in Es. discriminate.
           ++ destruct pre; [discriminate | exact Hpre].
Qed.

Lemma dropLast_endsWith (s : string) (c : ascii) :
  endsWithChar s c = true -> s = dropLast s ++ String c "".
Proof.
  induction s as [|a s IH]; simpl; [discriminate|].
  destruct s as [|b s].
  - intro H. apply Ascii.eqb_eq in H as ->. reflexivity.
  - intro H. simpl. f_equal. exact (IH H).
Qed.

Lemma has_char_app (c : ascii) (s t : string) :
  has_char c (s ++ t) = has_char c s || has_char c t.
Proof.
  induction s as [|a s IH]; simpl; [reflexivity|].
  rewrite IH, orb_assoc. reflexivity.
Qed.

Lemma dropChars_length (n : nat) (s : string) :
  String.length (dropChars n s) <= String.length s.
Proof.
  revert s; induction n as [|n IH]; intros [|c s]; simpl; try lia.
  specialize (IH s). lia.
Qed.

(** The scan for matches ends within its fuel: more fuel changes nothing. *)
Lemma countMatchesFrom_enough (lit : string) (fuel1 : nat) :
  forall (fuel2 : nat) (s : string),
    String.length s <= fuel1 -> String.length s <= fuel2 ->
    countMatchesFrom fuel1 s lit = countMatchesFrom fuel2 s lit.
Proof.
  induction fuel1 as [|fuel1 IH]; intros fuel2 s H1 H2.
  - destruct s; [|simpl in H1; lia]. destruct fuel2; reflexivity.
  - destruct fuel2 as [|fuel2]; [destruct s; [reflexivity | simpl in H2; lia]|].
    destruct s as [|c s]; [reflexivity|].
    cbn [countMatchesFrom]. simpl in H1, H2.
    destruct (startsWith (String c s) lit).
    + f_equal. pose proof (dropChars_length (String.length lit - 1) s).
      apply IH; lia.
    + apply IH; lia.
Qed.

End JsFacts.

(** ** Handle extraction *)

Module HandlesFacts.

Import Js JsFacts Handles.
Local Open Scope string_scope.

(** What [url.split('?')[0].split('#')[0]] keeps: the longest prefix of the
    URL free of ['?'] and ['#']. *)
Lemma stripQueryFragment_shape (url : string) :
  exists rest,
    url = stripQueryFragment url ++ rest /\
    has_char "?" (stripQueryFragment url) = false /\
    has_char "#" (stripQueryFragment url) = false /\
    (rest = "" \/ exists r, rest = String "?" r \/ rest = String "#" r).
Proof.
  unfold stripQueryFragment.
  destruct (split_first "?" url) as (r1 & H1 & Hq & Hr1).
  destruct (split_first "#" (first (split "?" url))) as (r2 & H2 & Hh & Hr2).
  set (b := first (split "#" (first (split "?" url)))) in *.
  exists (r2 ++ r1).
  assert (Hq2 : has_char "?" b = false).
  { rewrite H2, has_char_app in Hq. apply orb_false_elim in Hq. tauto. }
  repeat split; auto.
  - rewrite H1 at 1. rewrite H2 at 1.
    clear. induction b; simpl; [reflexivity | f_equal; assumption].
  - destruct Hr2 as [-> | (r & ->)]; simpl.
    + destruct Hr1 as [-> | (r & ->)]; eauto.
    + right. eauto.
Qed.

Lemma stripTrailingSlash_shape (url : string) :
  url = stripTrailingSlash url ++ "/" \/
  (endsWithChar url "/" = false /\ stripTrailingSlash url = url).
Proof.
  unfold stripTrailingSlash. destruct (endsWithChar url "/") eqn:E.
  - left. apply dropLast_endsWith. exact E.
  - right. split; reflexivity.
Qed.

Lemma stripQueryFragment_empty : stripQueryFragment "" = "".
Proof. reflexivity. Qed.

Lemma eqb_dotted_false (seg dom : string) :
  has_char "." seg = false -> has_char "." dom = true -> String.eqb seg dom = false.
Proof.
  intros Hs Hd. destruct (String.eqb seg dom) eqn:E; [|reflexivity].
  apply String.eqb_eq in E. subst. congruence.
Qed.

(** C9.  Profile-mode Twitter handle extraction: the URL is cut before its
    first ['?'] or ['#'], one trailing slash is removed, and the result is
    the segment after the last ['/'] of what remains, or the empty string
    when that segment contains a dot (which covers the bare domains
    [twitter.com] and [x.com]); on the two documented inputs it returns
    ["acme_io"] and the empty string. *)
Theorem extractTwitterHandle_trailing_segment :
  (forall url : string,
      exists rest pre seg : string,
        url = stripQueryFragment url ++ rest /\
        has_char "?" (stripQueryFragment url) = false /\
        has_char "#" (stripQueryFragment url) = false /\
        (rest = "" \/ exists r, rest = String "?" r \/ rest = String "#" r) /\
        (stripQueryFragment url = stripTrailingSlash (stripQueryFragment url) ++ "/" \/
         (endsWithChar (stripQueryFragment url) "/" = false /\
          stripTrailingSlash (stripQueryFragment url) = stripQueryFragment url)) /\
        stripTrailingSlash (stripQueryFragment url) = pre ++ seg /\
        has_char "/" seg = false /\
        (pre = "" \/ endsWithChar pre "/" = true) /\
        extractTwitterHandle url = (if has_char "." seg then "" else seg) /\
        (seg = "twitter.com" \/ seg = "x.com" -> extractTwitterHandle url = ""))
  /\ extractTwitterHandle "https://x.com/acme_io?ref=ph" = "acme_io"
  /\ extractTwitterHandle "https://x.com/" = "".
Proof.
  split; [|split; reflexivity].
  intro url.
  destruct (stripQueryFragment_shape url) as (rest & Hu & Hq & Hh & Hrest).
  destruct (split_last "/" (stripTrailingSlash (stripQueryFragment url)))
    as (pre & Hp & Hno & Hpre).
  set (seg := at_last (split "/" (stripTrailingSlash (stripQueryFragment url)))) in *.
  assert (Hres : extractTwitterHandle url = (if has_char "." seg then "" else seg)).
  { unfold extractTwitterHandle. destruct url as [|a url].
    - simpl. reflexivity.
    - cbn [truthy negb]. fold seg. rewrite includes_char.
      destruct (has_char "." seg) eqn:Ed.
      + rewrite !andb_false_r. reflexivity.
      + rewrite (eqb_dotted_false seg "twitter.com" Ed eq_refl).
        rewrite (eqb_dotted_false seg "x.com" Ed eq_refl).
        destruct seg; reflexivity. }
  exists rest, pre, seg.
  repeat split; auto using stripTrailingSlash_shape.
  intros [E | E]; rewrite Hres, E; reflexivity.
Qed.




End HandlesFacts.

(** ** Merge precedence of the website extractor *)

Module WebsiteContactFacts.

Import Js JsFacts WebsiteContact.
Local Open Scope string_scope.

Lemma firstNonEmpty_spec (a b c : string) :
  firstNonEmpty a b c = if truthy a then a else if truthy b then b else c.
Proof.
  unfold firstNonEmpty, or_else.
  destruct a, b, c; reflexivity.
Qed.

Lemma pageSourceFallback_keeps_nonempty (m : ContactInfo) (ms : option (list string)) :
  truthy (email m) = true -> pageSourceFallback m ms = m.
Proof. unfold pageSourceFallback. intros ->. reflexivity. Qed.

Lemma pageSourceFallback_other_fields (m : ContactInfo) (ms : option (list string)) :
  twitter (pageSourceFallback m ms) = twitter m /\
  linkedin (pageSourceFallback m ms) = linkedin m /\
  website (pageSourceFallback m ms) = website m.
Proof.
  unfold pageSourceFallback.
  destruct (negb (truthy (email m))); [|auto].
  destruct ms as [ms|]; [|auto].
  destruct (map trim (filter plausibleSourceEmail ms)); auto.
Qed.


End WebsiteContactFacts.

(** ** The rate limiter *)

Module RateLimiterFacts.

Import RateLimiter.
Local Open Scope Z_scope.

(** The delay of a call made less than one second after the previous request
    is the delay of a call made later, with the same first jitter, plus the
    penalty [1000 + random2 * 2000]. *)
Lemma fast_gap_penalty (base : Q) (st : RequestStats) (nowFast nowSlow : Z)
    (r1 r2 r2' : Q) (after after' : Z) :
  nowFast - lastRequestTime st < 1000 ->
  1000 <= nowSlow - lastRequestTime st ->
  (fst (adaptiveDelay base nowFast r1 r2 after st)
   == fst (adaptiveDelay base nowSlow r1 r2' after' st) + (1000 + r2 * 2000))%Q.
Proof.
  intros Hf Hs. unfold adaptiveDelay, computeDelay.
  apply Z.ltb_lt in Hf. apply Z.ltb_ge in Hs. rewrite Hf, Hs.
  destruct (5 <? consecutiveRequests st); destruct (0 <? failedRequests st);
    cbn [fst]; ring.
Qed.

Lemma slow_gap_jitter (base : Q) (st : RequestStats) (now : Z)
    (r1 r1' r2 r2' : Q) (after after' : Z) :
  1000 <= now - lastRequestTime st ->
  (fst (adaptiveDelay base now r1 r2 after st)
   == fst (adaptiveDelay base now r1' r2' after' st) + (r1 - r1') * 1000)%Q.
Proof.
  intros Hs. unfold adaptiveDelay, computeDelay.
  apply Z.ltb_ge in Hs. rewrite Hs.
  destruct (5 <? consecutiveRequests st); destruct (0 <? failedRequests st);
    cbn [fst]; ring.
Qed.



End RateLimiterFacts.

(** ** The scroll loop *)

Module ScrollFacts.

Import Scroll.
Local Open Scope nat_scope.

Lemma scrollLoop_unfold (fuel : nat) (heightAfter : nat -> Z) (st : ScrollState) :
  scrollLoop fuel heightAfter st =
  if scrollCount st <? maxScrolls then
    match fuel with
    | O => None
    | S fuel' =>
        if (heightAfter (scrollCount st) =? lastHeight st)%Z && (3 <=? S (scrollCount st))
        then Some {| lastHeight := lastHeight st; scrollCount := S (scrollCount st) |}
        else scrollLoop fuel' heightAfter
               {| lastHeight := heightAfter (scrollCount st);
                  scrollCount := S (scrollCount st) |}
    end
  else Some st.
Proof. destruct fuel; reflexivity. Qed.

Section Observed.

Variable initialHeight : Z.
Variable heightAfter : nat -> Z.

(** The loop keeps [lastHeight] equal to the height read one iteration
    earlier; from any such state and with fuel for the iterations that
    remain it ends, at the ceiling or at an unchanged height. *)
Lemma scrollLoop_ends (fuel : nat) :
  forall st : ScrollState,
    lastHeight st = heightBefore initialHeight heightAfter (scrollCount st) ->
    maxScrolls <= scrollCount st + fuel ->
    scrollCount st <= maxScrolls ->
    exists st',
      scrollLoop fuel heightAfter st = Some st' /\
      scrollCount st <= scrollCount st' <= maxScrolls /\
      (scrollCount st' < maxScrolls ->
       3 <= scrollCount st' /\
       heightAfter (scrollCount st' - 1)
       = heightBefore initialHeight heightAfter (scrollCount st' - 1)).
Proof.
  induction fuel as [|fuel IH]; intros st Hinv Hfuel Hle; rewrite scrollLoop_unfold.
  - destruct (Nat.ltb_spec (scrollCount st) maxScrolls) as [Hlt|Hge]; [lia|].
    exists st. repeat split; lia.
  - destruct (Nat.ltb_spec (scrollCount st) maxScrolls) as [Hlt|Hge].
    + destruct ((heightAfter (scrollCount st) =? lastHeight st)%Z
                && (3 <=? S (scrollCount st))) eqn:Ebreak.
      * apply andb_prop in Ebreak as [Eh Ec].
        apply Z.eqb_eq in Eh. apply Nat.leb_le in Ec.
        eexists. split; [reflexivity|]. cbn [scrollCount].
        repeat split; try lia.
        replace (S (scrollCount st) - 1) with (scrollCount st) by lia.
        rewrite Eh. exact Hinv.
      * destruct (IH {| lastHeight := heightAfter (scrollCount st);
                        scrollCount := S (scrollCount st) |})
          as (st' & Hrun & Hcount & Hstop); cbn [scrollCount lastHeight] in *;
          try reflexivity; try lia.
        exists st'. split; [exact Hrun|]. split; [lia | exact Hstop].
    + exists st. repeat split; lia.
Qed.

End Observed.

(** C7.  Whatever heights the page reports, the scroll loop ends after at
    most 50 iterations, and when it ends before the 50th the last height
    read equals the height read one iteration earlier (and at least three
    scrolls were made). *)
Theorem scroll_loop_within_ceiling (initialHeight : Z) (heightAfter : nat -> Z) :
  exists st : ScrollState,
    scrollToLoadAll maxScrolls initialHeight heightAfter = Some st /\
    scrollCount st <= 50 /\
    (scrollCount st < 50 ->
     3 <= scrollCount st /\
     heightAfter (scrollCount st - 1)
     = heightBefore initialHeight heightAfter (scrollCount st - 1)).
Proof.
  destruct (scrollLoop_ends initialHeight heightAfter maxScrolls
              {| lastHeight := initialHeight; scrollCount := 0 |})
    as (st & Hrun & Hcount & Hstop); cbn [scrollCount lastHeight];
    try reflexivity; try lia.
  exists st. unfold maxScrolls in *. cbn [scrollCount] in *.
  split; [exact Hrun|]. split; [lia | exact Hstop].
Qed.

(** A page whose height changes at every read is scrolled exactly 50 times. *)
Lemma scroll_loop_never_stable (initialHeight : Z) (heightAfter : nat -> Z) :
  (forall n, heightAfter n <> heightBefore initialHeight heightAfter n) ->
  exists st : ScrollState,
    scrollToLoadAll maxScrolls initialHeight heightAfter = Some st /\
    scrollCount st = maxScrolls.
Proof.
  intro Hchg.
  destruct (scrollLoop_ends initialHeight heightAfter maxScrolls
              {| lastHeight := initialHeight; scrollCount := 0 |})
    as (st & Hrun & Hcount & Hstop); cbn [scrollCount lastHeight];
    try reflexivity; try lia.
  exists st. split; [exact Hrun|].
  destruct (Nat.lt_ge_cases (scrollCount st) maxScrolls) as [Hlt|Hge]; [|lia].
  destruct (Hstop Hlt) as [_ Heq]. exfalso. exact (Hchg _ Heq).
Qed.

End ScrollFacts.

(** ** Reasoning about browser operations *)

Module SessionFacts.

Import Session.
Local Open Scope act_scope.

Lemma bind_run {A B : Type} (m : Act A) (k : A -> Act B) (b : Browser) :
  bind m k b =
  match m b with
  | (Returned a, b') => k a b'
  | (Thrown e, b') => (Thrown e, b')
  end.
Proof. reflexivity. Qed.

Lemma bind_returned {A B : Type} (m : Act A) (k : A -> Act B) (b b' : Browser) (v : B) :
  bind m k b = (Returned v, b') ->
  exists a b1, m b = (Returned a, b1) /\ k a b1 = (Returned v, b').
Proof.
  unfold bind. destruct (m b) as [[a|e] b1]; intro H; [eauto | discriminate].
Qed.

(** [try { x = await m; ... } catch { ... }] used as an attempt never throws. *)
Lemma attempt_run {A : Type} (m : Act A) (b : Browser) :
  tryCatch (x <- m ;; ret (Some x)) (fun _ => ret None) b =
  match m b with
  | (Returned a, b') => (Returned (Some a), b')
  | (Thrown _, b') => (Returned None, b')
  end.
Proof. unfold tryCatch, bind, ret. destruct (m b) as [[a|e] b']; reflexivity. Qed.

Lemma pagesKept_refl (b : Browser) : wellFormed b -> pagesKept b b.
Proof. intro H. repeat split; auto. Qed.

Lemma pagesKept_trans (b1 b2 b3 : Browser) :
  pagesKept b1 b2 -> pagesKept b2 b3 -> pagesKept b1 b3.
Proof.
  intros (W2 & O2 & R2) (W3 & O3 & R3). repeat split; [exact W3 | congruence | lia].
Qed.

Lemma pagesKept_wf (b b' : Browser) : pagesKept b b' -> wellFormed b'.
Proof. intros (W & _). exact W. Qed.

Lemma scoped_ret {A : Type} (a : A) : Scoped (ret a).
Proof. intros b W. apply pagesKept_refl. exact W. Qed.

Lemma scoped_throw {A : Type} (e : string) : Scoped (@throw A e).
Proof. intros b W. apply pagesKept_refl. exact W. Qed.

Lemma scoped_evaluate {A : Type} (page : nat) (script : Script) (r : A) :
  Scoped (evaluate page script r).
Proof. intros b W. repeat split; auto. Qed.

Lemma scoped_select {A : Type} (selector : Selector) (r : A) : Scoped (select selector r).
Proof. intros b W. repeat split; auto. Qed.

Lemma scoped_goto (f : Faults) (page : nat) (target : string) : Scoped (goto f page target).
Proof.
  intros b W. unfold goto. destruct (gotoFails f (navigations b)); repeat split; auto.
Qed.

Lemma scoped_bind {A B : Type} (m : Act A) (k : A -> Act B) :
  Scoped m -> (forall a, Scoped (k a)) -> Scoped (bind m k).
Proof.
  intros Hm Hk b W. specialize (Hm b W). rewrite bind_run.
  destruct (m b) as [[a|e] b1]; cbn [snd] in *.
  - eapply pagesKept_trans; [exact Hm|]. apply Hk. exact (pagesKept_wf Hm).
  - exact Hm.
Qed.

Lemma scoped_tryCatch {A : Type} (body : Act A) (handler : string -> Act A) :
  Scoped body -> (forall e, Scoped (handler e)) -> Scoped (tryCatch body handler).
Proof.
  intros Hb Hh b W. specialize (Hb b W). unfold tryCatch.
  destruct (body b) as [[a|e] b1]; cbn [snd] in *.
  - exact Hb.
  - eapply pagesKept_trans; [exact Hb|]. apply Hh. exact (pagesKept_wf Hb).
Qed.

Lemma scoped_if {A : Type} (c : bool) (x y : Act A) :
  Scoped x -> Scoped y -> Scoped (if c then x else y).
Proof. destruct c; auto. Qed.

Lemma filter_fresh (id : nat) (l : list nat) :
  Forall (fun p => p < id) l -> filter (fun p => negb (Nat.eqb p id)) l = l.
Proof.
  induction 1 as [|p l Hp Hl IH]; simpl; [reflexivity|].
  destruct (Nat.eqb_spec p id) as [->|_]; [lia|]. simpl. rewrite IH. reflexivity.
Qed.

Lemma wellFormed_weaken (l : list nat) (n m : nat) :
  n <= m -> Forall (fun p => p < n) l -> Forall (fun p => p < m) l.
Proof.
  intros Hle H. eapply Forall_impl; [|exact H]. simpl. intros; lia.
Qed.

(** The pattern [const page = await browser.newPage(); try { ... } finally
    { await page.close() }]: scoped whenever the body is. *)
Lemma scoped_with_page {A : Type} (f : Faults) (body : nat -> Act A) :
  (forall page, Scoped (body page)) ->
  Scoped (page <- newPage f ;; tryFinally (body page) (closePage page)).
Proof.
  intros Hbody b W. rewrite bind_run. unfold newPage.
  destruct (newPageFails f (pagesRequested b)); cbn [snd].
  - repeat split; cbn; auto. unfold wellFormed in *. cbn.
    eapply wellFormed_weaken; [|exact W]. lia.
  - set (b1 := {| openPages := pagesRequested b :: openPages b;
                  pagesRequested := S (pagesRequested b);
                  navigations := navigations b;
                  events := events b ++ [EvNewPage (pagesRequested b)] |}).
    assert (W1 : wellFormed b1).
    { unfold wellFormed, b1. cbn. constructor; [lia|].
      eapply wellFormed_weaken; [|exact W]. lia. }
    destruct (Hbody (pagesRequested b) b1 W1) as (W2 & O2 & R2).
    unfold tryFinally, closePage.
    destruct (body (pagesRequested b) b1) as [out b2]. cbn [snd] in *.
    unfold b1 in O2, R2. cbn in O2, R2.
    repeat split; cbn.
    + unfold wellFormed in *. cbn. rewrite O2. cbn. rewrite Nat.eqb_refl. cbn.
      rewrite (filter_fresh W). eapply wellFormed_weaken; [|exact W]. lia.
    + rewrite O2. cbn. rewrite Nat.eqb_refl. cbn. apply filter_fresh. exact W.
    + lia.
Qed.

End SessionFacts.

(** ** Maker discovery *)

Module MakersFacts.

Import Js JsArray Makers.
Local Open Scope string_scope.
Local Open Scope list_scope.

Lemma Subseq_refl {A : Type} (l : list A) : Subseq l l.
Proof. induction l; [apply Subseq_nil | apply Subseq_keep; assumption]. Qed.

Lemma Subseq_nil_l {A : Type} (l : list A) : Subseq [] l.
Proof. induction l; constructor; assumption. Qed.

Lemma Subseq_trans {A : Type} (l1 l2 l3 : list A) :
  Subseq l1 l2 -> Subseq l2 l3 -> Subseq l1 l3.
Proof.
  intros H12 H23. revert l1 H12.
  induction H23 as [|x s l H IH|x s l H IH]; intros l1 H12.
  - exact H12.
  - constructor. apply IH. exact H12.
  - inversion H12; subst.
    + constructor. apply IH. assumption.
    + apply Subseq_keep. apply IH. assumption.
Qed.

Lemma Subseq_length {A : Type} (s l : list A) :
  Subseq s l -> (List.length s <= List.length l)%nat.
Proof. induction 1; simpl; lia. Qed.

Lemma Subseq_firstn {A : Type} (n : nat) (l : list A) : Subseq (firstn n l) l.
Proof.
  revert n; induction l as [|x l IH]; intros [|n]; simpl.
  - constructor.
  - constructor.
  - apply Subseq_nil_l.
  - apply Subseq_keep. apply IH.
Qed.

Lemma Subseq_filter {A : Type} (f : A -> bool) (l : list A) : Subseq (filter f l) l.
Proof.
  induction l as [|x l IH]; simpl; [constructor|].
  destruct (f x); constructor; assumption.
Qed.

Lemma Subseq_app_snoc {A : Type} (s l : list A) (x : A) :
  Subseq s l -> Subseq (s ++ [x]) (l ++ [x]).
Proof.
  induction 1; simpl.
  - apply Subseq_keep, Subseq_nil.
  - apply Subseq_skip. assumption.
  - apply Subseq_keep. assumption.
Qed.

Lemma Subseq_snoc_skip {A : Type} (s l : list A) (x : A) :
  Subseq s l -> Subseq s (l ++ [x]).
Proof.
  induction 1; simpl.
  - apply Subseq_skip, Subseq_nil.
  - apply Subseq_skip. assumption.
  - apply Subseq_keep. assumption.
Qed.

Lemma Subseq_forallb {A : Type} (f : A -> bool) (s l : list A) :
  Subseq s l -> forallb f l = true -> forallb f s = true.
Proof.
  induction 1 as [|x s l Hs IH|x s l Hs IH]; simpl; intro Hl; auto.
  - apply andb_prop in Hl as [_ Hl]. auto.
  - apply andb_prop in Hl as [Hx Hl]. rewrite Hx. auto.
Qed.

(** *** [slice(0, cap)] for a cap that is a count *)

Lemma slice0_nonneg {A : Type} (cap : Z) (l : list A) :
  (0 <= cap)%Z -> slice0 cap l = firstn (Z.to_nat cap) l.
Proof.
  intro H. unfold slice0.
  destruct (Z.ltb_spec cap 0) as [Hneg|_]; [lia|].
  destruct (Z.le_ge_cases cap (Z.of_nat (List.length l))) as [Hle|Hge].
  - rewrite Z.min_l by exact Hle. reflexivity.
  - rewrite Z.min_r by exact Hge. rewrite Nat2Z.id.
    rewrite !firstn_all2; [reflexivity | lia | lia].
Qed.

Lemma slice0_Subseq {A : Type} (cap : Z) (l : list A) : Subseq (slice0 cap l) l.
Proof. unfold slice0. apply Subseq_firstn. Qed.

Lemma slice0_length {A : Type} (cap : Z) (l : list A) :
  (0 <= cap)%Z -> (Z.of_nat (List.length (slice0 cap l)) <= cap)%Z.
Proof.
  intro H. rewrite slice0_nonneg by exact H.
  pose proof (firstn_le_length (Z.to_nat cap) l). lia.
Qed.

(** *** The sort by confirmation is the stable partition *)

Lemma insertBy_confirmed (m : Maker) (l : list Maker) :
  isMaker m = true -> insertBy byConfirmation m l = m :: l.
Proof.
  intro Hm. destruct l as [|y t]; simpl; [reflexivity|].
  unfold byConfirmation. rewrite Hm. destruct (isMaker y); reflexivity.
Qed.

Lemma insertBy_unconfirmed (m : Maker) (conf rest : list Maker) :
  isMaker m = false ->
  forallb isMaker conf = true ->
  forallb unconfirmed rest = true ->
  insertBy byConfirmation m (conf ++ rest) = conf ++ m :: rest.
Proof.
  intros Hm Hconf Hrest.
  induction conf as [|y conf IH]; simpl in *.
  - destruct rest as [|z rest]; simpl; [reflexivity|].
    simpl in Hrest. apply andb_prop in Hrest as [Hz _].
    unfold unconfirmed in Hz. apply negb_true_iff in Hz.
    unfold byConfirmation. rewrite Hm, Hz. reflexivity.
  - apply andb_prop in Hconf as [Hy Hconf].
    unfold byConfirmation at 1. rewrite Hm, Hy. simpl.
    rewrite (IH Hconf). reflexivity.
Qed.

Lemma forallb_filter_self {A : Type} (f : A -> bool) (l : list A) :
  forallb f (filter f l) = true.
Proof.
  induction l as [|x l IH]; simpl; [reflexivity|].
  destruct (f x) eqn:E; simpl; [rewrite E|]; exact IH.
Qed.

Theorem sortBy_byConfirmation (l : list Maker) :
  sortBy byConfirmation l = filter isMaker l ++ filter unconfirmed l.
Proof.
  induction l as [|m l IH]; simpl; [reflexivity|].
  rewrite IH. unfold unconfirmed at 2. destruct (isMaker m) eqn:Hm; simpl.
  - apply insertBy_confirmed. exact Hm.
  - apply insertBy_unconfirmed; auto using forallb_filter_self.
Qed.

(** *** Confirmed makers first *)

Lemma confirmedFirst_partition (conf rest : list Maker) :
  forallb isMaker conf = true ->
  forallb unconfirmed rest = true ->
  confirmedFirst (conf ++ rest) = true.
Proof.
  intros Hconf Hrest. induction conf as [|y conf IH]; simpl in *.
  - destruct rest as [|z rest]; simpl in *; [reflexivity|].
    apply andb_prop in Hrest as [Hz Hrest].
    unfold unconfirmed in Hz. apply negb_true_iff in Hz. rewrite Hz. exact Hrest.
  - apply andb_prop in Hconf as [Hy Hconf]. rewrite Hy. auto.
Qed.

Lemma confirmedFirst_all_unconfirmed (l : list Maker) :
  forallb unconfirmed l = true -> confirmedFirst l = true.
Proof.
  destruct l as [|m l]; simpl; intro H; [reflexivity|].
  apply andb_prop in H as [Hm H].
  unfold unconfirmed in Hm. apply negb_true_iff in Hm. rewrite Hm. exact H.
Qed.

Lemma confirmedFirst_Subseq (s l : list Maker) :
  Subseq s l -> confirmedFirst l = true -> confirmedFirst s = true.
Proof.
  induction 1 as [|x s l Hs IH|x s l Hs IH]; simpl; intro Hl.
  - reflexivity.
  - destruct (isMaker x).
    + exact (IH Hl).
    + apply confirmedFirst_all_unconfirmed. exact (Subseq_forallb _ Hs Hl).
  - destruct (isMaker x).
    + exact (IH Hl).
    + exact (Subseq_forallb _ Hs Hl).
Qed.

(** The reading of [confirmedFirst] by positions. *)
Lemma confirmedFirst_positions (l : list Maker) :
  confirmedFirst l = true ->
  forall pre a mid b post,
    l = pre ++ a :: mid ++ b :: post -> isMaker b = true -> isMaker a = true.
Proof.
  induction l as [|m l IH]; intros Hcf pre a mid b post E Hb.
  - destruct pre; discriminate.
  - simpl in Hcf. destruct pre as [|p pre]; simpl in E; injection E as -> E.
    + destruct (isMaker a) eqn:Ha; [reflexivity|].
      rewrite forallb_forall in Hcf.
      assert (Hin : In b l) by (rewrite E; apply in_or_app; right; left; reflexivity).
      apply Hcf in Hin. rewrite Hb in Hin. discriminate.
    + destruct (isMaker p) eqn:Hp.
      * exact (IH Hcf pre a mid b post E Hb).
      * rewrite forallb_forall in Hcf.
        assert (Hin : In b l).
        { rewrite E. apply in_or_app; right; right. apply in_or_app; right; left; reflexivity. }
        apply Hcf in Hin. rewrite Hb in Hin. discriminate.
Qed.

End MakersFacts.

(** ** The website cascade *)

Module CascadeFacts.

Import Js JsFacts Session SessionFacts ProductPage Resolver.
Local Open Scope string_scope.
Local Open Scope list_scope.
Local Open Scope act_scope.

Lemma evaluate_run {A : Type} (page : nat) (script : Script) (r : A) (b : Browser) :
  evaluate page script r b = (Returned r, addEvents b [EvEvaluate page script]).
Proof. reflexivity. Qed.

Lemma select_run {A : Type} (selector : Selector) (r : A) (b : Browser) :
  select selector r b = (Returned r, addEvents b [EvSelect selector]).
Proof. reflexivity. Qed.

Lemma addEvents_addEvents (b : Browser) (d1 d2 : list Event) :
  addEvents (addEvents b d1) d2 = addEvents b (d1 ++ d2).
Proof. unfold addEvents. cbn. rewrite app_assoc. reflexivity. Qed.

Lemma unlessFound_found (u : string) (next : Act string) (b : Browser) :
  truthy u = true -> unlessFound u next b = (Returned u, b).
Proof. unfold unlessFound. intros ->. reflexivity. Qed.

Lemma unlessFound_empty (u : string) (next : Act string) (b : Browser) :
  truthy u = false -> unlessFound u next b = next b.
Proof. unfold unlessFound. intros ->. reflexivity. Qed.

(** The second approach always leaves a value, the one [redirectResult]
    names, and of the strategy openers its trace holds its own only. *)
Lemma followRedirectLink_run (w : World) (p : Page) (b : Browser) :
  exists b' trace,
    followRedirectLink w p b
    = (Returned (redirectResult w p (pagesRequested b) (navigations b)), b') /\
    events b' = events b ++ trace /\
    strategiesInvoked trace = [2].
Proof.
  unfold followRedirectLink, redirectResult, bind, select, logEvent, tryCatch,
    newPage, goto, closePage, ret.
  destruct (redirectAnchors p) as [|redirectUrl rest]; cbn beta iota zeta delta [events].
  - eexists; eexists. split; [reflexivity|]. split; reflexivity.
  - cbn beta iota zeta delta [pagesRequested navigations].
    destruct (newPageFails (faults w) (pagesRequested b)).
    + eexists; eexists. split; [reflexivity|].
      cbn [events]. rewrite <- app_assoc. split; reflexivity.
    + cbn beta iota zeta delta [pagesRequested navigations].
      destruct (gotoFails (faults w) (navigations b)).
      * eexists; eexists. split; [reflexivity|].
        cbn [events]. rewrite <- !app_assoc. split; reflexivity.
      * eexists; eexists. split; [reflexivity|].
        cbn [events]. rewrite <- !app_assoc. split; reflexivity.
Qed.

Lemma textPatternStrategy_run (page : nat) (p : Page) (b : Browser) :
  exists trace,
    textPatternStrategy page p b = (Returned (textPatternResult p), addEvents b trace) /\
    strategiesInvoked trace = [5].
Proof.
  unfold textPatternStrategy, textPatternResult. rewrite bind_run, evaluate_run.
  destruct (truthy (textPatternUrl p)).
  - destruct (onDenylistedDomain (textPatternUrl p)).
    + rewrite bind_run, evaluate_run, addEvents_addEvents.
      destruct (isBebopRealWebsite p); cbn [negb]; eexists; split; reflexivity.
    + eexists; split; reflexivity.
  - eexists; split; reflexivity.
Qed.

Lemma emailDomainStrategy_run (page : nat) (p : Page) (b : Browser) :
  emailDomainStrategy page p b
  = (Returned (emailDomainResult (pageEmails p)), addEvents b [EvEvaluate page PageEmailScan]).
Proof. reflexivity. Qed.

Lemma strategiesInvoked_app (d1 d2 : list Event) :
  strategiesInvoked (d1 ++ d2) = strategiesInvoked d1 ++ strategiesInvoked d2.
Proof. unfold strategiesInvoked. apply flat_map_app. Qed.

(** Once a strategy has succeeded, the remaining [if (!websiteUrl)] blocks
    are passed over. *)
Ltac skip_found E :=
  repeat (rewrite ?bind_run; rewrite unlessFound_found by exact E; cbv beta iota);
  unfold ret.

(** The end of each case of the cascade: the run, the trace, the strategies
    it shows. *)
Ltac close_case Hev Hinv Hinv' :=
  split; [reflexivity|];
  split; [cbn [addEvents events]; rewrite ?Hev, <- ?app_assoc; reflexivity|];
  rewrite ?strategiesInvoked_app, ?Hinv, ?Hinv';
  split; [reflexivity | cbn; auto].

(** A strategy among the first [stopIndex] ones follows failures only. *)
Lemma stopIndex_failures (results : list string) :
  forall i, S i < stopIndex results -> nth i results "" = "".
Proof.
  induction results as [|r rest IH]; simpl; intros i Hi; [lia|].
  destruct (truthy r) eqn:E; [lia|].
  destruct i as [|i].
  - apply truthy_false_iff. exact E.
  - apply IH. lia.
Qed.

Lemma invoked_after_failures (results : list string) (k j : nat) :
  In k (seq 1 (stopIndex results)) -> 1 <= j < k -> nth (j - 1) results "" = "".
Proof.
  intros Hin Hj. apply in_seq in Hin. apply stopIndex_failures. lia.
Qed.


(** C1.  The six website strategies run in their order and stop at the first
    success: the function returns the first non-empty of the six results,
    the strategies its trace shows are exactly 1 to the rank of that result
    (all six when every result is empty), so each strategy that runs follows
    empty results only; when the "visit" scan yields a URL, that URL is
    returned and the only call made is that scan: no redirect link is
    looked up, no page opened, no navigation made. *)
Theorem website_cascade_priority_order (w : World) (page : nat) (p : Page) (b : Browser) :
  exists (b' : Browser) (trace : list Event),
    discoverWebsite w page p b = (Returned (firstSuccess (strategyResults w p b)), b') /\
    events b' = events b ++ trace /\
    strategiesInvoked trace = seq 1 (stopIndex (strategyResults w p b)) /\
    (forall k j, In k (strategiesInvoked trace) -> 1 <= j < k ->
                 nth (j - 1) (strategyResults w p b) "" = "") /\
    (if truthy (visitButtonScan p)
     then firstSuccess (strategyResults w p b) = visitButtonScan p /\
          b' = addEvents b [EvEvaluate page VisitButtonScan]
     else In 2 (strategiesInvoked trace)).
Proof.
  assert (Hmain : exists b' trace,
    discoverWebsite w page p b = (Returned (firstSuccess (strategyResults w p b)), b') /\
    events b' = events b ++ trace /\
    strategiesInvoked trace = seq 1 (stopIndex (strategyResults w p b)) /\
    (if truthy (visitButtonScan p)
     then firstSuccess (strategyResults w p b) = visitButtonScan p /\
          b' = addEvents b [EvEvaluate page VisitButtonScan]
     else In 2 (strategiesInvoked trace))).
  { unfold discoverWebsite, strategyResults. cbn [firstSuccess stopIndex].
    rewrite bind_run, evaluate_run.
    destruct (truthy (visitButtonScan p)) eqn:E1.
    { skip_found E1.
      eexists; eexists. split; [reflexivity|]. repeat split; reflexivity. }
    cbv beta iota. rewrite bind_run. rewrite unlessFound_empty by exact E1.
    destruct (followRedirectLink_run w p (addEvents b [EvEvaluate page VisitButtonScan]))
      as (b2 & d2 & Hrun2 & Hev2 & Hinv2).
    cbn [addEvents pagesRequested navigations events] in Hrun2, Hev2.
    rewrite Hrun2. clear Hrun2. cbv beta iota.
    set (r2 := redirectResult w p (pagesRequested b) (navigations b)) in *.
    destruct (truthy r2) eqn:E2.
    { skip_found E2.
      exists b2, ([EvEvaluate page VisitButtonScan] ++ d2).
      close_case Hev2 Hinv2 Hinv2. }
    cbv beta iota. rewrite bind_run. rewrite unlessFound_empty by exact E2. rewrite evaluate_run. cbv beta iota.
    destruct (truthy (getItButtonScan p)) eqn:E3.
    { skip_found E3.
      eexists; exists (([EvEvaluate page VisitButtonScan] ++ d2)
                         ++ [EvEvaluate page GetItButtonScan]).
      close_case Hev2 Hinv2 Hinv2. }
    cbv beta iota. rewrite bind_run. rewrite unlessFound_empty by exact E3.
    rewrite evaluate_run. cbv beta iota. rewrite ?addEvents_addEvents.
    destruct (truthy (externalLinkScan p)) eqn:E4.
    { skip_found E4.
      eexists; exists (([EvEvaluate page VisitButtonScan] ++ d2)
                         ++ [EvEvaluate page GetItButtonScan; EvEvaluate page ExternalLinkScan]).
      close_case Hev2 Hinv2 Hinv2. }
    cbv beta iota. rewrite bind_run. rewrite unlessFound_empty by exact E4.
    match goal with
    | |- context [textPatternStrategy page p ?st] =>
        destruct (textPatternStrategy_run page p st) as (d5 & Hrun5 & Hinv5)
    end.
    rewrite Hrun5. clear Hrun5. cbv beta iota. rewrite ?addEvents_addEvents.
    destruct (truthy (textPatternResult p)) eqn:E5.
    { skip_found E5.
      eexists; exists (([EvEvaluate page VisitButtonScan] ++ d2)
                         ++ ([EvEvaluate page GetItButtonScan; EvEvaluate page ExternalLinkScan]
                               ++ d5)).
      close_case Hev2 Hinv2 Hinv5. }
    cbv beta iota. rewrite bind_run. rewrite unlessFound_empty by exact E5.
    rewrite emailDomainStrategy_run. cbv beta iota. rewrite ?addEvents_addEvents. unfold ret.
    assert (E6 : (if truthy (emailDomainResult (pageEmails p))
                  then emailDomainResult (pageEmails p) else "")
                 = emailDomainResult (pageEmails p)).
    { destruct (emailDomainResult (pageEmails p)); reflexivity. }
    rewrite E6.
    assert (E7 : (if truthy (emailDomainResult (pageEmails p)) then 1 else 1) = 1).
    { destruct (truthy (emailDomainResult (pageEmails p))); reflexivity. }
    rewrite E7.
    eexists; exists (([EvEvaluate page VisitButtonScan] ++ d2)
                       ++ (([EvEvaluate page GetItButtonScan; EvEvaluate page ExternalLinkScan]
                              ++ d5)
                             ++ [EvEvaluate page PageEmailScan])).
    close_case Hev2 Hinv2 Hinv5. }
  destruct Hmain as (b' & trace & Hrun & Hev & Hinv & Hfirst).
  exists b', trace. repeat split; auto.
  intros k j Hk Hj. rewrite Hinv in Hk. exact (invoked_after_failures _ Hk Hj).
Qed.

(** *** The check on the denylisted domain *)

Lemma existsb_filter_nil {A : Type} (f : A -> bool) (l : list A) :
  existsb f l = false <-> filter f l = [].
Proof.
  induction l as [|x l IH]; simpl; [tauto|].
  destruct (f x); simpl; [split; discriminate | exact IH].
Qed.

(** The check accepts the domain exactly when the text names it at least
    three times and, besides, a link to it sits in the header area or the
    text names it more than five times. *)
Lemma isBebopRealWebsite_exact (p : Page) :
  isBebopRealWebsite p = true <->
  3 <= bebopCount p /\ (headerBebopLinks p <> [] \/ 5 < bebopCount p).
Proof.
  unfold isBebopRealWebsite, headerBebopLinks.
  destruct (Nat.ltb_spec (bebopCount p) 3) as [Hlt|Hge].
  - split; [discriminate | lia].
  - rewrite orb_true_iff, Nat.ltb_lt. split.
    + intros [H|H]; split; auto. left. intro E.
      apply existsb_filter_nil in E. congruence.
    + intros [_ [H|H]]; auto. left.
      destruct (existsb _ _) eqn:E; [reflexivity|].
      apply existsb_filter_nil in E. contradiction.
Qed.

(** C3.  A candidate of the text-pattern strategy that lies on [bebop.ai]
    is rejected unless it is corroborated: when the page text names the
    domain fewer than three times and fewer than two links to it sit in the
    header area, the strategy yields the empty string. *)
Theorem denylisted_domain_needs_corroboration (page : nat) (p : Page) (b : Browser) :
  onDenylistedDomain (textPatternUrl p) = true ->
  ~ (3 <= bebopCount p \/ 2 <= List.length (headerBebopLinks p)) ->
  textPatternResult p = "" /\
  fst (textPatternStrategy page p b) = Returned "".
Proof.
  intros Hdeny Hno.
  assert (Hres : textPatternResult p = "").
  { unfold textPatternResult. rewrite Hdeny.
    destruct (truthy (textPatternUrl p)) eqn:Et.
    - destruct (isBebopRealWebsite p) eqn:Er; [|reflexivity].
      apply isBebopRealWebsite_exact in Er. lia.
    - apply truthy_false_iff. exact Et. }
  split; [exact Hres|].
  destruct (textPatternStrategy_run page p b) as (d & Hrun & _).
  rewrite Hrun, Hres. reflexivity.
Qed.

End CascadeFacts.

Module CascadeExamples.

Import Session ProductPage Resolver CascadeFacts.
Local Open Scope string_scope.

(** The statement on the page of [TwoMentions]: two mentions, no link. *)
Lemma denylisted_domain_needs_corroboration_witness :
  bebopCount TwoMentions.page = 2 /\
  headerBebopLinks TwoMentions.page = [] /\
  textPatternResult TwoMentions.page = "" /\
  fst (textPatternStrategy 0 TwoMentions.page initialBrowser) = Returned "".
Proof.
  split; [reflexivity|]. split; [reflexivity|].
  apply (@denylisted_domain_needs_corroboration 0 TwoMentions.page initialBrowser).
  - reflexivity.
  - cbv. intros [H|H]; repeat (apply le_S_n in H); inversion H.
Defined.

(** On a page with a "visit" button and a redirect link the button's URL is
    returned after a single call, the scan for the button. *)
Lemma visit_button_wins_over_redirect_link :
  redirectAnchors VisitAndRedirect.page = ["https://www.producthunt.com/r/ABC123"] /\
  discoverWebsite Quiet.world 0 VisitAndRedirect.page initialBrowser
  = (Returned "https://acme.example.org/",
     addEvents initialBrowser [EvEvaluate 0 VisitButtonScan]).
Proof. split; reflexivity. Qed.

(** Three mentions without a header link are rejected as well, and so are
    two header links under fewer than three mentions: the check is stricter
    than either threshold alone. *)
Lemma three_mentions_no_header_link_rejected :
  let p := mkPage [] "bebop.ai, bebop.ai and bebop.ai" "https://bebop.ai" [] in
  bebopCount p = 3 /\ textPatternResult p = "".
Proof. split; reflexivity. Qed.

Lemma two_header_links_two_mentions_rejected :
  let link := mkElement Anchor "Bebop" "https://bebop.ai/" (Some "https://bebop.ai/") 40%Z in
  let p := mkPage [link; link] "bebop.ai, bebop.ai" "https://bebop.ai" [] in
  List.length (headerBebopLinks p) = 2 /\ textPatternResult p = "".
Proof. split; reflexivity. Qed.

Lemma three_mentions_header_link_accepted :
  let link := mkElement Anchor "Bebop" "https://bebop.ai/" (Some "https://bebop.ai/") 40%Z in
  let p := mkPage [link] "bebop.ai, bebop.ai and bebop.ai" "https://bebop.ai" [] in
  textPatternResult p = "https://bebop.ai".
Proof. reflexivity. Qed.

End CascadeExamples.


(** ** Pages opened and closed *)

Module PageFacts.

Import Js JsFacts Session SessionFacts ProductPage Resolver CascadeFacts.
Local Open Scope string_scope.
Local Open Scope list_scope.
Local Open Scope act_scope.

Create HintDb scoped.

(** The database holds the operations already known to be scoped; they are
    tried before an operation is taken apart. *)
Ltac scoped_step :=
  first [ assumption
        | solve [auto with scoped nocore]
        | apply scoped_with_page | apply scoped_tryCatch | apply scoped_bind
        | apply scoped_if | apply scoped_ret | apply scoped_throw
        | apply scoped_evaluate | apply scoped_select | apply scoped_goto ].

Ltac scoped := cbv zeta; repeat (intros; cbv zeta; scoped_step).

Lemma pagesAdded_kept (extra : list nat) (b1 b2 b3 : Browser) :
  pagesAdded extra b1 b2 -> pagesKept b2 b3 -> pagesAdded extra b1 b3.
Proof.
  intros (W2 & O2 & R2) (W3 & O3 & R3). repeat split; [exact W3 | congruence | lia].
Qed.

Lemma kept_pagesAdded (extra : list nat) (b1 b2 b3 : Browser) :
  pagesKept b1 b2 -> pagesAdded extra b2 b3 -> pagesAdded extra b1 b3.
Proof.
  intros (W2 & O2 & R2) (W3 & O3 & R3). repeat split; [exact W3 | congruence | lia].
Qed.

Lemma pagesAdded_nil (b b' : Browser) : pagesAdded [] b b' <-> pagesKept b b'.
Proof. unfold pagesAdded, pagesKept. simpl. tauto. Qed.

(** *** The scoped operations *)

Lemma extractContactInfo_scoped (f : Faults) (profile : string -> Profile.ProfilePage)
    (makerUrl : string) :
  Scoped (Profile.extractContactInfo f profile makerUrl).
Proof. unfold Profile.extractContactInfo. scoped. Qed.

Lemma navigateWithRetries_scoped (f : Faults) (n page : nat) (websiteUrl : string) :
  Scoped (Website.navigateWithRetries f n page websiteUrl).
Proof.
  induction n as [|n IH]; simpl; [scoped|].
  apply scoped_tryCatch; [scoped|]. intro e. destruct n; [scoped | exact IH].
Qed.

Lemma visitContactPage_scoped (f : Faults) (page : nat) (websiteUrl : string)
    (v : Website.Visit) :
  Scoped (Website.visitContactPage f page websiteUrl v).
Proof. unfold Website.visitContactPage. scoped. Qed.

#[local] Hint Resolve navigateWithRetries_scoped visitContactPage_scoped : scoped.

Lemma extractWebsiteContactInfo_scoped (f : Faults) (validUrl : string -> bool)
    (visit : nat -> Website.Visit) (websiteUrl : string) :
  Scoped (Website.extractWebsiteContactInfo f validUrl visit websiteUrl).
Proof. unfold Website.extractWebsiteContactInfo. scoped. Qed.

#[local] Hint Resolve extractContactInfo_scoped extractWebsiteContactInfo_scoped : scoped.

Lemma contactInfoWithRetries_scoped (f : Faults) (validUrl : string -> bool)
    (visit : nat -> Website.Visit) (websiteUrl : string) (n : nat) :
  Scoped (Website.contactInfoWithRetries f validUrl visit websiteUrl n).
Proof.
  induction n as [|n IH]; simpl; [scoped|].
  apply scoped_bind; [scoped|].
  intros [info|]; [apply scoped_if; [exact IH | scoped] | destruct n; [scoped | exact IH]].
Qed.

Lemma processMakers_scoped (w : World) (todo done : list Makers.Maker) :
  Scoped (processMakers w todo done).
Proof.
  revert done; induction todo as [|maker rest IH]; intro done; simpl; [scoped|].
  apply scoped_bind; [scoped|]. intros [c|]; apply IH.
Qed.

Lemma getProductsFromLeaderboard_scoped (f : Faults)
    (listing : string -> Listing.ListingPage) (targetUrl : string) :
  Scoped (Listing.getProductsFromLeaderboard f listing targetUrl).
Proof.
  unfold Listing.getProductsFromLeaderboard.
  apply scoped_with_page. intro page.
  apply scoped_tryCatch; [|scoped].
  apply scoped_bind; [scoped|]. intros _.
  apply scoped_bind; [scoped|]. intros _.
  apply scoped_bind; [scoped|]. intros _.
  destruct (Listing.addUnique _ _ _ _) as [seenUrls uniqueProducts].
  scoped.
Qed.

#[local] Hint Resolve contactInfoWithRetries_scoped processMakers_scoped : scoped.

(** *** The redirect page *)

Lemma followRedirectLink_pages (w : World) (p : Page) (b : Browser) :
  wellFormed b ->
  pagesAdded (leaked (redirectLeaks w p (pagesRequested b) (navigations b)) (pagesRequested b))
             b (snd (followRedirectLink w p b)).
Proof.
  intro W.
  unfold followRedirectLink, redirectLeaks, bind, select, logEvent, tryCatch,
    newPage, goto, closePage, ret, pagesAdded, wellFormed in *.
  destruct (redirectAnchors p) as [|redirectUrl rest];
    cbn beta iota zeta delta [events pagesRequested navigations openPages snd leaked].
  - repeat split; auto.
  - destruct (newPageFails (faults w) (pagesRequested b));
      cbn beta iota zeta delta [events pagesRequested navigations openPages snd leaked negb andb].
    + repeat split; cbn; auto. eapply wellFormed_weaken; [|exact W]. lia.
    + destruct (gotoFails (faults w) (navigations b));
        cbn beta iota zeta delta [events pagesRequested navigations openPages snd leaked app].
      * repeat split; cbn; auto.
        constructor; [lia|]. eapply wellFormed_weaken; [|exact W]. lia.
      * cbn [filter]. rewrite Nat.eqb_refl. cbn [negb]. rewrite (filter_fresh W).
        repeat split; cbn; auto. eapply wellFormed_weaken; [|exact W]. lia.
Qed.

Lemma unlessFound_scoped (u : string) (next : Act string) :
  Scoped next -> Scoped (unlessFound u next).
Proof. intro H. unfold unlessFound. scoped. Qed.

Lemma textPatternStrategy_scoped (page : nat) (p : Page) :
  Scoped (textPatternStrategy page p).
Proof. unfold textPatternStrategy. scoped. Qed.

Lemma emailDomainStrategy_scoped (page : nat) (p : Page) :
  Scoped (emailDomainStrategy page p).
Proof. unfold emailDomainStrategy. scoped. Qed.

#[local] Hint Resolve unlessFound_scoped textPatternStrategy_scoped
  emailDomainStrategy_scoped : scoped.

(** The cascade leaves a page open exactly when the "visit" scan finds
    nothing and the redirect navigation throws. *)
Lemma discoverWebsite_pages (w : World) (page : nat) (p : Page) (b : Browser) :
  wellFormed b ->
  pagesAdded (leaked (negb (truthy (visitButtonScan p))
                      && redirectLeaks w p (pagesRequested b) (navigations b))
                     (pagesRequested b))
             b (snd (discoverWebsite w page p b)).
Proof.
  intro W. unfold discoverWebsite. rewrite bind_run, evaluate_run. cbv beta iota.
  set (b1 := addEvents b [EvEvaluate page VisitButtonScan]).
  assert (W1 : wellFormed b1) by exact W.
  assert (K1 : pagesKept b b1) by (repeat split; auto).
  set (tail := fun websiteUrl : string =>
         websiteUrl <- unlessFound websiteUrl
                         (evaluate page GetItButtonScan (getItButtonScan p)) ;;
         websiteUrl <- unlessFound websiteUrl
                         (evaluate page ExternalLinkScan (externalLinkScan p)) ;;
         websiteUrl <- unlessFound websiteUrl (textPatternStrategy page p) ;;
         websiteUrl <- unlessFound websiteUrl (emailDomainStrategy page p) ;;
         ret websiteUrl).
  assert (Htail : forall u, Scoped (tail u)) by (intro u; unfold tail; scoped).
  change (pagesAdded
            (leaked (negb (truthy (visitButtonScan p))
                     && redirectLeaks w p (pagesRequested b) (navigations b))
                    (pagesRequested b))
            b (snd (bind (unlessFound (visitButtonScan p) (followRedirectLink w p)) tail b1))).
  rewrite bind_run.
  destruct (truthy (visitButtonScan p)) eqn:E1.
  - rewrite unlessFound_found by exact E1. cbn [negb andb leaked].
    apply pagesAdded_nil. eapply pagesKept_trans; [exact K1|]. apply Htail. exact W1.
  - rewrite unlessFound_empty by exact E1. cbn [negb andb].
    pose proof (followRedirectLink_pages w p W1) as H2.
    change (pagesRequested b1) with (pagesRequested b) in H2.
    change (navigations b1) with (navigations b) in H2.
    eapply kept_pagesAdded; [exact K1|].
    destruct (followRedirectLink w p b1) as [[u|e] b2]; cbn [snd] in *.
    + eapply pagesAdded_kept; [exact H2|]. apply Htail. destruct H2 as (W2 & _). exact W2.
    + exact H2.
Qed.

Lemma close_own_page (extra : list nat) (page : nat) (b b2 : Browser) :
  wellFormed b ->
  page = pagesRequested b ->
  Forall (fun q => page < q) extra ->
  wellFormed b2 ->
  openPages b2 = extra ++ page :: openPages b ->
  S page <= pagesRequested b2 ->
  pagesAdded extra b (snd (closePage page b2)).
Proof.
  intros W -> Hextra W2 O2 R2. unfold closePage, pagesAdded, wellFormed in *. cbn.
  assert (E : filter (fun p => negb (Nat.eqb p (pagesRequested b))) (openPages b2)
              = extra ++ openPages b).
  { rewrite O2, filter_app. cbn [filter]. rewrite Nat.eqb_refl. cbn [negb].
    rewrite (filter_fresh W). f_equal.
    clear -Hextra. induction Hextra as [|q l Hq Hl IH]; simpl; [reflexivity|].
    destruct (Nat.eqb_spec q (pagesRequested b)) as [->|_]; [lia|]. simpl. rewrite IH.
    reflexivity. }
  rewrite E. repeat split; [|lia].
  rewrite <- E. clear E. revert W2. generalize (openPages b2).
  induction l as [|q l IH]; simpl; intro H; [constructor|].
  inversion H; subst. destruct (negb (Nat.eqb q (pagesRequested b))); auto.
Qed.

(** The pages [getProductDetails] leaves open: those open before, and the
    redirect page exactly in the case [detailsLeak] describes. *)
Theorem getProductDetails_pages (w : World) (productUrl : string) (cap : Z) (b : Browser) :
  wellFormed b ->
  pagesAdded (leaked (detailsLeak w productUrl b) (S (pagesRequested b)))
             b (snd (getProductDetails w productUrl cap b)).
Proof.
  intro W. unfold getProductDetails, detailsLeak. rewrite bind_run. unfold newPage at 1.
  destruct (newPageFails (faults w) (pagesRequested b)); cbn [negb andb leaked snd].
  { repeat split; cbn; auto. unfold wellFormed in *. cbn.
    eapply wellFormed_weaken; [|exact W]. lia. }
  set (page := pagesRequested b).
  set (b1 := {| openPages := page :: openPages b; pagesRequested := S page;
                navigations := navigations b;
                events := events b ++ [EvNewPage page] |}).
  assert (W1 : wellFormed b1).
  { unfold wellFormed, b1. cbn. constructor; [lia|].
    eapply wellFormed_weaken; [|exact W]. unfold page. lia. }
  cbv zeta. unfold tryFinally.
  match goal with
  | |- context [tryCatch ?body ?handler b1] =>
      assert (Hbody : pagesAdded
                (leaked (negb (gotoFails (faults w) (navigations b))
                         && negb (truthy (visitButtonScan (productPage w productUrl)))
                         && redirectLeaks w (productPage w productUrl) (S page)
                              (S (navigations b))) (S page))
                b1 (snd (tryCatch body handler b1)));
      [| destruct (tryCatch body handler b1) as [out b2] ]
  end.
  { unfold tryCatch. rewrite bind_run. unfold goto at 1. cbn [navigations b1].
    destruct (gotoFails (faults w) (navigations b)); cbn [negb andb leaked snd ret].
    { apply pagesAdded_nil. repeat split; auto. }
    set (b1' := {| openPages := openPages b1; pagesRequested := pagesRequested b1;
                   navigations := S (navigations b);
                   events := events b1 ++ [EvGoto page productUrl] |}).
    assert (W1' : wellFormed b1') by exact W1.
    assert (K1 : pagesKept b1 b1') by (repeat split; auto).
    rewrite bind_run.
    pose proof (discoverWebsite_pages w page (productPage w productUrl) W1') as Hd.
    change (pagesRequested b1') with (S page) in Hd.
    change (navigations b1') with (S (navigations b)) in Hd.
    eapply kept_pagesAdded; [exact K1|].
    destruct (discoverWebsite w page (productPage w productUrl) b1') as [[u|e] b2];
      cbn [snd] in Hd; [|exact Hd].
    match goal with
    | |- context [?rest b2] =>
        assert (Hrest : Scoped rest) by scoped;
        pose proof (Hrest b2 (proj1 Hd)) as K2;
        destruct (rest b2) as [[d|e] b3]; cbn [snd] in *;
        exact (pagesAdded_kept Hd K2)
    end. }
  cbn [snd] in Hbody. destruct Hbody as (W2 & O2 & R2).
  cbn [openPages pagesRequested b1] in O2, R2.
  assert (Hclose : pagesAdded
            (leaked (negb (gotoFails (faults w) (navigations b))
                     && negb (truthy (visitButtonScan (productPage w productUrl)))
                     && redirectLeaks w (productPage w productUrl) (S page)
                          (S (navigations b))) (S page))
            b (snd (closePage page b2))).
  { apply close_own_page; auto.
    destruct (_ && _); cbn [leaked]; repeat constructor. }
  destruct (closePage page b2) as [[[]|e] b3]; exact Hclose.
Qed.

End PageFacts.

Module PageExamples.

Import Session SessionFacts Resolver PageFacts.
Local Open Scope string_scope.
Local Open Scope list_scope.



End PageExamples.

(** ** The makers a resolution keeps *)

Module ResolverFacts.

Import Js JsFacts JsArray Session SessionFacts ProductPage Resolver MakersFacts CascadeFacts.
Local Open Scope string_scope.
Local Open Scope list_scope.
Local Open Scope act_scope.

Lemma identity_contacted (mc : Makers.Maker * Profile.ProfileContact) :
  Makers.identity (contacted mc) = Makers.identity (fst mc).
Proof. reflexivity. Qed.

(** The loop keeps the makers whose profile could be read, in their order. *)
Lemma processMakers_kept (w : World) (todo : list Makers.Maker) :
  forall (done : list Makers.Maker) (b : Browser),
  exists kept,
    fst (processMakers w todo done b) = Returned (done ++ map contacted kept) /\
    Subseq (map fst kept) todo.
Proof.
  induction todo as [|maker rest IH]; intros done b; simpl.
  - exists []. rewrite app_nil_r. split; [reflexivity | constructor].
  - rewrite bind_run, attempt_run.
    destruct (Profile.extractContactInfo (faults w) (profile w) (Makers.url maker) b)
      as [[c|e] b1].
    + destruct (IH (done ++ [withContact maker c]) b1) as (kept & Hrun & Hsub).
      exists ((maker, c) :: kept). rewrite Hrun, <- app_assoc.
      split; [reflexivity | apply Subseq_keep; exact Hsub].
    + destruct (IH done b1) as (kept & Hrun & Hsub).
      exists kept. split; [exact Hrun | apply Subseq_skip; exact Hsub].
Qed.

Lemma getProductDetails_makers (w : World) (productUrl : string) (cap : Z)
    (b b' : Browser) (d : ProductDetails) :
  getProductDetails w productUrl cap b = (Returned d, b') ->
  exists kept,
    makers d = map contacted kept /\
    Subseq (map fst kept) (Makers.makersToProcess cap (makerAnchors w productUrl)).
Proof.
  unfold getProductDetails. intro H.
  apply bind_returned in H as (page & b1 & _ & H).
  unfold tryFinally in H.
  match type of H with
  | context [tryCatch ?body ?handler b1] =>
      destruct (tryCatch body handler b1) as [out b2] eqn:Hbody
  end.
  cbn in H. injection H as -> _.
  unfold tryCatch in Hbody.
  match type of Hbody with
  | context [match ?body b1 with _ => _ end] => destruct (body b1) as [[d0|e] b3] eqn:Hrun
  end.
  - injection Hbody as -> _.
    apply bind_returned in Hrun as (? & b4 & _ & Hrun). cbv zeta in Hrun.
    apply bind_returned in Hrun as (websiteUrl & b5 & _ & Hrun).
    apply bind_returned in Hrun as (contactInfo & b6 & _ & Hrun).
    apply bind_returned in Hrun as (links & b7 & Hsel & Hrun).
    apply bind_returned in Hrun as (found & b8 & Hfound & Hrun).
    rewrite select_run in Hsel. injection Hsel as <- _.
    unfold ret in Hrun. injection Hrun as <- _. cbn [makers].
    destruct (0 <? List.length (makerAnchors w productUrl))%nat.
    + destruct (processMakers_kept w
                  (Makers.makersToProcess cap (makerAnchors w productUrl)) [] b7)
        as (kept & Hk & Hsub).
      rewrite Hfound in Hk. cbn in Hk. injection Hk as ->.
      exists kept. split; [reflexivity | exact Hsub].
    + unfold ret in Hfound. injection Hfound as <- _.
      exists []. split; [reflexivity | apply Subseq_nil_l].
  - unfold ret in Hbody. injection Hbody as <- _.
    exists []. split; [reflexivity | apply Subseq_nil_l].
Qed.

Lemma Subseq_map {A B : Type} (f : A -> B) (s l : list A) :
  Subseq s l -> Subseq (map f s) (map f l).
Proof.
  induction 1; simpl; [apply Subseq_nil | apply Subseq_skip | apply Subseq_keep]; assumption.
Qed.

Lemma forallb_unconfirmed_ext (l1 l2 : list Makers.Maker) :
  map Makers.isMaker l1 = map Makers.isMaker l2 ->
  forallb Makers.unconfirmed l1 = forallb Makers.unconfirmed l2.
Proof.
  revert l2; induction l1 as [|a l1 IH]; intros [|c l2] H; try discriminate; simpl.
  - reflexivity.
  - simpl in H. injection H as Ha Hl. unfold Makers.unconfirmed at 1 3.
    rewrite Ha, (IH l2 Hl). reflexivity.
Qed.

Lemma confirmedFirst_ext (l1 l2 : list Makers.Maker) :
  map Makers.isMaker l1 = map Makers.isMaker l2 ->
  Makers.confirmedFirst l1 = Makers.confirmedFirst l2.
Proof.
  revert l2; induction l1 as [|a l1 IH]; intros [|c l2] H; try discriminate; simpl.
  - reflexivity.
  - simpl in H. injection H as Ha Hl. rewrite Ha.
    destruct (Makers.isMaker c); [exact (IH l2 Hl)|].
    exact (forallb_unconfirmed_ext _ _ Hl).
Qed.

Lemma or_else_empty (a : string) : or_else a "" = a.
Proof. destruct a; reflexivity. Qed.

(** The makers are collected in page order. *)
Lemma collectMakers_page_order (cap : Z) (links : list Makers.MakerLink) :
  forall processed makers,
  exists extra,
    Makers.collectMakers cap links processed makers = makers ++ extra /\
    Subseq (map Makers.url extra) (Makers.pageUrls links).
Proof.
  induction links as [|l links IH]; intros processed makers.
  - exists []. cbn. rewrite app_nil_r. split; [reflexivity | constructor].
  - cbn [Makers.collectMakers]. unfold Makers.pageUrls. cbn [flat_map].
    fold (Makers.pageUrls links).
    destruct (Makers.linkHref l) as [h|]; cbn [app].
    + destruct (truthy h && startsWith h "/@").
      * destruct (Makers.seen processed ("https://www.producthunt.com" ++ h))%string.
        -- destruct (IH processed makers) as (extra & E & Hs).
           exists extra. split; [exact E | apply Subseq_skip; exact Hs].
        -- destruct (Makers.badgeNearby l || (Z.of_nat (List.length makers) <? cap)%Z).
           ++ destruct (IH (("https://www.producthunt.com" ++ h)%string :: processed)
                          (makers ++ [Makers.newMaker ("https://www.producthunt.com" ++ h)
                                        (trim (Makers.linkText l)) (Makers.badgeNearby l)]))
                as (extra & E & Hs).
              eexists (_ :: extra). rewrite E, <- app_assoc.
              split; [reflexivity | apply Subseq_keep; exact Hs].
           ++ destruct (IH (("https://www.producthunt.com" ++ h)%string :: processed) makers)
                as (extra & E & Hs).
              exists extra. split; [exact E | apply Subseq_skip; exact Hs].
      * destruct (IH processed makers) as (extra & E & Hs).
        exists extra. split; [exact E | apply Subseq_skip; exact Hs].
    + apply IH.
Qed.

(** C6.  For a cap that is a count, the makers kept after discovery are the
    collected makers, confirmed ones first and each group in page order,
    cut to the cap: every confirmed maker precedes every unconfirmed one and
    there are at most [maxMakersPerProduct] of them.  The makers of the
    details a resolution returns are some of these in the same order, and
    the records of the product follow that order; a product whose page
    shows an unconfirmed maker and then a confirmed one yields the records
    of the confirmed and then of the unconfirmed maker. *)
Theorem makers_confirmed_first_capped (cap : Z) (links : list Makers.MakerLink) :
  (0 <= cap)%Z ->
  let collected := Makers.collectMakers cap links [] [] in
  let retained := Makers.makersToProcess cap links in
  Subseq (map Makers.url collected) (Makers.pageUrls links) /\
  retained = firstn (Z.to_nat cap)
               (filter Makers.isMaker collected ++ filter Makers.unconfirmed collected) /\
  (Z.of_nat (List.length retained) <= cap)%Z /\
  Makers.confirmedFirst retained = true /\
  (forall pre a mid c post,
      retained = pre ++ a :: mid ++ c :: post ->
      Makers.isMaker c = true -> Makers.isMaker a = true) /\
  (forall (w : World) (productUrl : string) (b0 b1 : Browser) (d : ProductDetails),
      makerAnchors w productUrl = links ->
      getProductDetails w productUrl cap b0 = (Returned d, b1) ->
      Subseq (map Makers.identity (makers d)) (map Makers.identity retained) /\
      (Z.of_nat (List.length (makers d)) <= cap)%Z /\
      Makers.confirmedFirst (makers d) = true /\
      (forall cfg product date,
          Run.maxMakersPerProduct cfg = cap -> makers d <> [] ->
          map Run.makerUrl (Run.recordsOfDetails cfg product d date)
          = map Makers.url (makers d))) /\
  map (fun r => (Run.productName r, Run.productUrl r, Run.productWebsite r, Run.makerUrl r))
      (Run.recordsAt TwoMakers.world TwoMakers.config "2025-03-17" TwoMakers.product
         initialBrowser)
  = [ ("Acme", "https://www.producthunt.com/products/acme", "",
       "https://www.producthunt.com/@founder");
      ("Acme", "https://www.producthunt.com/products/acme", "",
       "https://www.producthunt.com/@hunter") ]%string.
Proof.
  intros Hcap collected retained.
  assert (Hret : retained = firstn (Z.to_nat cap)
            (filter Makers.isMaker collected ++ filter Makers.unconfirmed collected)).
  { unfold retained, Makers.makersToProcess. rewrite slice0_nonneg by exact Hcap.
    rewrite sortBy_byConfirmation. reflexivity. }
  assert (Hlen : (Z.of_nat (List.length retained) <= cap)%Z).
  { unfold retained, Makers.makersToProcess. apply slice0_length. exact Hcap. }
  assert (Hcf : Makers.confirmedFirst retained = true).
  { rewrite Hret. eapply confirmedFirst_Subseq; [apply Subseq_firstn|].
    apply confirmedFirst_partition; apply forallb_filter_self. }
  split.
  { destruct (collectMakers_page_order cap links [] []) as (extra & E & Hs).
    unfold collected. rewrite E. exact Hs. }
  split; [exact Hret|]. split; [exact Hlen|]. split; [exact Hcf|].
  split; [exact (confirmedFirst_positions Hcf)|].
  split; [|vm_compute; reflexivity].
  intros w productUrl b0 b1 d Hlinks Hrun.
  destruct (@getProductDetails_makers _ _ _ _ _ _ Hrun) as (kept & Hd & Hsub).
  rewrite Hlinks in Hsub. fold retained in Hsub.
  assert (Hid : map Makers.identity (makers d) = map Makers.identity (map fst kept)).
  { rewrite Hd, !map_map. apply map_ext. intro mc. reflexivity. }
  assert (Hdlen : (Z.of_nat (List.length (makers d)) <= cap)%Z).
  { pose proof (Subseq_length Hsub) as L. rewrite Hd. rewrite length_map in *. lia. }
  repeat split.
  - rewrite Hid. apply Subseq_map. exact Hsub.
  - exact Hdlen.
  - rewrite (@confirmedFirst_ext (makers d) (map fst kept)).
    + exact (confirmedFirst_Subseq Hsub Hcf).
    + rewrite Hd, !map_map. apply map_ext. intro mc. reflexivity.
  - intros cfg product date Hcfg Hne. unfold Run.recordsOfDetails. rewrite Hcfg.
    rewrite slice0_nonneg by exact Hcap.
    rewrite firstn_all2 by lia.
    destruct (makers d) as [|m ms] eqn:Em; [congruence|]. cbn [List.length Nat.ltb Nat.leb].
    rewrite map_map. apply map_ext. intro maker. cbn. apply or_else_empty.
Qed.

(** The statement for the two makers of [TwoMakers] under a cap of 3. *)
Lemma makers_confirmed_first_capped_witness :
  Makers.makersToProcess 3 TwoMakers.links
  = firstn 3 (filter Makers.isMaker (Makers.collectMakers 3 TwoMakers.links [] [])
              ++ filter Makers.unconfirmed (Makers.collectMakers 3 TwoMakers.links [] [])) /\
  (Z.of_nat (List.length (Makers.makersToProcess 3 TwoMakers.links)) <= 3)%Z /\
  Makers.confirmedFirst (Makers.makersToProcess 3 TwoMakers.links) = true.
Proof.
  destruct (@makers_confirmed_first_capped 3 TwoMakers.links) as (_ & H1 & H2 & H3 & _);
    [lia|].
  split; [exact H1|]. split; [exact H2 | exact H3].
Defined.

End ResolverFacts.

(** ** Listing discovery and the run *)

Module RunFacts.

Import Js JsFacts JsArray Session SessionFacts MakersFacts CascadeFacts ResolverFacts.
Import Listing Run.
Local Open Scope string_scope.
Local Open Scope list_scope.
Local Open Scope act_scope.

(** *** Every listed product has a name and a URL *)

Lemma append_not_empty_l (a b : string) : a <> "" -> (a ++ b)%string <> "".
Proof. destruct a; [congruence | discriminate]. Qed.

Lemma collectProducts_named (els : list ListingAnchor) :
  forall products, Forall named products -> Forall named (collectProducts els products).
Proof.
  induction els as [|element rest IH]; intros products Hp; cbn [collectProducts]; [exact Hp|].
  destruct (anchorHref element) as [productUrl|]; [|auto].
  destruct (startsWith productUrl "/products/"); [|auto].
  match goal with |- context [if ?c then _ else _] => destruct c eqn:E end; [|auto].
  apply IH. apply Forall_app. split; [exact Hp|]. constructor; [|constructor].
  apply andb_prop in E as [E _]. apply andb_prop in E as [_ En].
  split; cbn [name url].
  - apply truthy_true_iff. exact En.
  - apply append_not_empty_l. discriminate.
Qed.

Lemma addUnique_named (marker : string) (candidates : list Product) :
  forall seenUrls uniqueProducts,
    Forall named candidates -> Forall named uniqueProducts ->
    Forall named (snd (addUnique marker candidates seenUrls uniqueProducts)).
Proof.
  induction candidates as [|product rest IH]; intros seenUrls uniqueProducts Hc Hu;
    cbn [addUnique]; [exact Hu|].
  inversion Hc; subst.
  match goal with |- context [if ?c then _ else _] => destruct c end.
  - apply IH; [assumption|]. apply Forall_app. split; [exact Hu|]. constructor; auto.
  - apply IH; assumption.
Qed.

Lemma scanPostLinks_named (links : list PostLink) : Forall named (scanPostLinks links).
Proof.
  unfold scanPostLinks. apply Forall_forall. intros q Hq.
  apply filter_In in Hq as [_ Hq]. apply andb_prop in Hq as [Hn Hu].
  split; apply truthy_true_iff; assumption.
Qed.

Lemma extractProducts_named (lp : ListingPage) : Forall named (extractProducts lp).
Proof.
  unfold extractProducts.
  pose proof (@addUnique_named "/products/" (collectProducts (anchors lp) []) [] []
                (@collectProducts_named (anchors lp) [] (Forall_nil _)) (Forall_nil _)) as H1.
  destruct (addUnique "/products/" (collectProducts (anchors lp) []) [] [])
    as [seenUrls uniqueProducts]. cbn [snd] in H1.
  destruct (List.length uniqueProducts <? 20)%nat; [|exact H1].
  apply addUnique_named; [apply scanPostLinks_named | exact H1].
Qed.

Lemma getProductsFromLeaderboard_returns (f : Faults) (listing : string -> ListingPage)
    (targetUrl : string) (b b' : Browser) (products : list Product) :
  getProductsFromLeaderboard f listing targetUrl b = (Returned products, b') ->
  products = extractProducts (listing targetUrl).
Proof.
  unfold getProductsFromLeaderboard, extractProducts. intro H.
  apply bind_returned in H as (page & b1 & _ & H).
  unfold tryFinally in H.
  match type of H with
  | context [tryCatch ?body ?handler b1] =>
      destruct (tryCatch body handler b1) as [out b2] eqn:Hbody
  end.
  cbn in H. injection H as -> _.
  unfold tryCatch in Hbody.
  match type of Hbody with
  | context [match ?body b1 with _ => _ end] => destruct (body b1) as [[d0|e] b3] eqn:Hrun
  end; [|discriminate].
  injection Hbody as -> _.
  apply bind_returned in Hrun as (? & b4 & _ & Hrun). cbv zeta in Hrun.
  apply bind_returned in Hrun as (? & b5 & _ & Hrun).
  apply bind_returned in Hrun as (? & b6 & _ & Hrun).
  destruct (addUnique "/products/" (collectProducts (anchors (listing targetUrl)) []) [] [])
    as [seenUrls uniqueProducts].
  destruct (List.length uniqueProducts <? 20)%nat.
  - apply bind_returned in Hrun as (links & b7 & Hev & Hrun).
    rewrite evaluate_run in Hev. injection Hev as <- _.
    unfold ret in Hrun. injection Hrun as <- _. reflexivity.
  - unfold ret in Hrun. injection Hrun as <- _. reflexivity.
Qed.

(** *** One product *)

Lemma recordsOfDetails_carry (cfg : Config) (product : Product)
    (d : Resolver.ProductDetails) (date : string) :
  recordsOfDetails cfg product d date <> [] /\
  Forall (carries product) (recordsOfDetails cfg product d date) /\
  (slice0 (maxMakersPerProduct cfg) (Resolver.makers d) = [] ->
   recordsOfDetails cfg product d date = [placeholderRecord product d date]).
Proof.
  unfold recordsOfDetails.
  destruct (slice0 (maxMakersPerProduct cfg) (Resolver.makers d)) as [|m ms].
  - cbn. repeat split; [discriminate | repeat constructor].
  - cbn [List.length Nat.ltb Nat.leb map]. repeat split; try discriminate.
    constructor; [split; reflexivity|].
    apply Forall_forall. intros r Hr. apply in_map_iff in Hr as (m' & <- & _).
    split; reflexivity.
Qed.

Lemma processProduct_run (w : Resolver.World) (cfg : Config) (date : string)
    (product : Product) (b : Browser) :
  processProduct w cfg date product b =
  match Resolver.getProductDetails w (url product) (maxMakersPerProduct cfg) b with
  | (Returned d, b') => (Returned (recordsOfDetails cfg product d date, false), b')
  | (Thrown _, b') => (Returned ([errorRecord product date], true), b')
  end.
Proof.
  unfold processProduct, tryCatch. rewrite bind_run.
  destruct (Resolver.getProductDetails w (url product) (maxMakersPerProduct cfg) b)
    as [[d|e] b']; reflexivity.
Qed.

Lemma recordsAt_carry (w : Resolver.World) (cfg : Config) (date : string)
    (product : Product) (b : Browser) :
  recordsAt w cfg date product b <> [] /\
  Forall (carries product) (recordsAt w cfg date product b).
Proof.
  unfold recordsAt. rewrite processProduct_run.
  destruct (Resolver.getProductDetails w (url product) (maxMakersPerProduct cfg) b)
    as [[d|e] b']; cbn [fst].
  - destruct (recordsOfDetails_carry cfg product d date) as (H1 & H2 & _). auto.
  - split; [discriminate | repeat constructor].
Qed.

(** *** The loop *)

Lemma processProducts_groups (w : Resolver.World) (t : Timing) (cfg : Config)
    (date : string) (products : list Product) :
  forall (i : nat) (stats : RateLimiter.RequestStats) (acc : list OutputRecord)
         (b : Browser),
  exists stats' b' groups,
    processProducts w t cfg date products i stats acc b
    = (Returned (stats', acc ++ concat groups), b') /\
    Forall2 (fun product g => exists b0, g = recordsAt w cfg date product b0)
            products groups.
Proof.
  induction products as [|product rest IH]; intros i stats acc b; cbn [processProducts].
  - exists stats, b, []. cbn. rewrite app_nil_r. split; [reflexivity | constructor].
  - rewrite bind_run.
    assert (Hrec : recordsAt w cfg date product b
                   = fst (match fst (processProduct w cfg date product b) with
                          | Returned step => step
                          | Thrown _ => ([], false)
                          end)).
    { unfold recordsAt. destruct (fst (processProduct w cfg date product b)) as [[r f]|e];
        reflexivity. }
    rewrite processProduct_run in *.
    destruct (Resolver.getProductDetails w (url product) (maxMakersPerProduct cfg) b)
      as [[d|e] b1]; cbn [fst snd] in *.
    + match goal with
      | |- context [processProducts w t cfg date rest (S i) ?st ?acc' b1] =>
          destruct (IH (S i) st acc' b1) as (stats' & b' & groups & Hrun & Hg)
      end.
      exists stats', b', (recordsOfDetails cfg product d date :: groups).
      rewrite Hrun. cbn [concat]. rewrite app_assoc.
      split; [reflexivity|]. constructor; [|exact Hg]. exists b. symmetry. exact Hrec.
    + match goal with
      | |- context [processProducts w t cfg date rest (S i) ?st ?acc' b1] =>
          destruct (IH (S i) st acc' b1) as (stats' & b' & groups & Hrun & Hg)
      end.
      exists stats', b', ([errorRecord product date] :: groups).
      rewrite Hrun. cbn [concat]. rewrite app_assoc.
      split; [reflexivity|]. constructor; [|exact Hg]. exists b. symmetry. exact Hrec.
Qed.

Lemma groups_carry (w : Resolver.World) (cfg : Config) (date : string)
    (products : list Product) (groups : list (list OutputRecord)) :
  Forall named products ->
  Forall2 (fun product g => exists b0, g = recordsAt w cfg date product b0) products groups ->
  Forall (fun r => productName r <> "" /\ productUrl r <> "") (concat groups).
Proof.
  intros Hn Hg. induction Hg as [|product g products groups (b0 & ->) Hrest IH]; cbn.
  - constructor.
  - inversion Hn as [|? ? [Hname Hurl] Hn']; subst.
    apply Forall_app. split; [|exact (IH Hn')].
    destruct (recordsAt_carry w cfg date product b0) as [_ Hc].
    eapply Forall_impl; [|exact Hc]. intros r [E1 E2]. rewrite E1, E2. auto.
Qed.

Lemma Subseq_Forall {A : Type} (P : A -> Prop) (s l : list A) :
  Subseq s l -> Forall P l -> Forall P s.
Proof.
  induction 1 as [|x s l Hs IH|x s l Hs IH]; intro H; auto.
  - inversion H; auto.
  - inversion H; subst. constructor; auto.
Qed.


End RunFacts.

(* ================================================================== *)
(** * Part III: further properties of the code                         *)
(* ================================================================== *)

(** ** The rate limiter over a run *)

Module RateLimiterExtras.

Import RateLimiter.
Local Open Scope Z_scope.

(** One call moves the counter of fast requests by one, never below zero,
    counts the request and leaves the failures alone. *)
Lemma adaptiveDelay_counters (base : Q) (now after : Z) (r1 r2 : Q) (st : RequestStats) :
  let st' := snd (adaptiveDelay base now r1 r2 after st) in
  lastRequestTime st' = after /\
  totalRequests st' = totalRequests st + 1 /\
  failedRequests st' = failedRequests st /\
  (0 <= consecutiveRequests st ->
   0 <= consecutiveRequests st' /\
   consecutiveRequests st - 1 <= consecutiveRequests st' <= consecutiveRequests st + 1).
Proof.
  unfold adaptiveDelay, computeDelay.
  destruct (now - lastRequestTime st <? 1000); destruct (0 <? failedRequests st);
    simpl; repeat split; lia.
Qed.



End RateLimiterExtras.

(** ** What a Twitter handle never contains *)

Module HandlesExtras.

Import Js JsFacts Handles HandlesFacts.
Local Open Scope string_scope.

Lemma has_char_app_false (c : ascii) (s t : string) :
  has_char c (s ++ t) = false -> has_char c s = false /\ has_char c t = false.
Proof. rewrite has_char_app. apply orb_false_elim. Qed.

(** [extractTwitterHandle] returns a bare token: no slash, no query or
    fragment mark, no dot. *)
Theorem extractTwitterHandle_bare_token (url : string) :
  has_char "/" (extractTwitterHandle url) = false /\
  has_char "?" (extractTwitterHandle url) = false /\
  has_char "#" (extractTwitterHandle url) = false /\
  has_char "." (extractTwitterHandle url) = false.
Proof.
  destruct (stripQueryFragment_shape url) as (rest & _ & Hq & Hh & _).
  set (base := stripQueryFragment url) in *.
  assert (Hstripped : forall c, has_char c base = false ->
                                has_char c (stripTrailingSlash base) = false).
  { intros c Hc. destruct (stripTrailingSlash_shape base) as [E | [_ E]].
    - rewrite E in Hc. apply has_char_app_false in Hc. tauto.
    - rewrite E. exact Hc. }
  destruct (split_last "/" (stripTrailingSlash base)) as (pre & Hp & Hno & _).
  set (seg := at_last (split "/" (stripTrailingSlash base))) in *.
  assert (Hseg : forall c, has_char c base = false -> has_char c seg = false).
  { intros c Hc. apply Hstripped in Hc. rewrite Hp in Hc.
    apply has_char_app_false in Hc. tauto. }
  unfold extractTwitterHandle. destruct (negb (truthy url)); [repeat split; reflexivity|].
  fold base. fold seg. rewrite includes_char.
  destruct (truthy seg && negb (String.eqb seg "twitter.com")
            && negb (String.eqb seg "x.com") && negb (has_char "." seg)) eqn:E;
    [|repeat split; reflexivity].
  apply andb_prop in E as [_ Hdot]. apply negb_true_iff in Hdot.
  repeat split; auto.
Qed.

End HandlesExtras.

(** ** First non-empty value wins in the link scans *)

Module LinkScanFacts.

Import Js JsFacts Handles WebsiteContact PageScan.
Local Open Scope string_scope.
Local Open Scope list_scope.

Section Fields.

Variable origin : option string.

(** Each field of the scan follows its own rule over the usable links. *)
Lemma scan_field (field : ContactInfo -> string)
    (cond : string * string * string -> bool) (value : string * string * string -> string) :
  (forall acc link,
      field (scanLink origin acc link)
      = match usableLinks [link] with
        | t :: _ => if cond t && negb (truthy (field acc)) then value t else field acc
        | [] => field acc
        end) ->
  forall links acc,
    field (fold_left (scanLink origin) links acc)
    = if truthy (field acc) then field acc
      else firstTruthy (map value (filter cond (usableLinks links))).
Proof.
  intros Hstep links. induction links as [|link links IH]; intro acc.
  - simpl. destruct (field acc); reflexivity.
  - cbn [fold_left]. rewrite IH, Hstep.
    unfold usableLinks. cbn [flat_map].
    destruct (linkHref link) as [href|]; [|reflexivity].
    destruct (truthy href); [|reflexivity].
    cbn [app filter map]. destruct (cond _); cbn [andb map firstTruthy].
    + destruct (truthy (field acc)) eqn:Ea; cbn [negb]; [rewrite Ea; reflexivity|].
      destruct (truthy (value _)); reflexivity.
    + reflexivity.
Qed.

End Fields.

(** In the website extractor's link scan each field is decided by the first
    usable link that offers a non-empty value for it, and later links never
    overwrite it: the e-mail by the first [mailto:] link with an address,
    the Twitter handle by the first Twitter-looking link whose handle is not
    empty, the LinkedIn URL by the first LinkedIn-looking link, the contact
    page by the first contact-looking link that is absolute or rooted. *)
Theorem scanLinks_first_value_wins (origin : option string) (links : list Link) :
  let u := usableLinks links in
  let r := scanLinks origin links in
  email r = firstTruthy
              (map (fun t => first (split "?" (trim (dropChars 7 (hrefOf t)))))
                   (filter (fun t => startsWith (hrefOf t) "mailto:") u)) /\
  twitter r = firstTruthy
                (map (fun t => extractSocialHandle (hrefOf t) twitterDomains)
                     (filter (fun t => looksLikeTwitter (hrefOf t) (textOf t) (htmlOf t)) u)) /\
  linkedin r = firstTruthy
                 (map hrefOf
                      (filter (fun t => looksLikeLinkedin (hrefOf t) (textOf t) (htmlOf t)) u)) /\
  website r = firstTruthy
                (map (fun t => contactPageTarget origin (hrefOf t))
                     (filter (fun t => looksLikeContactPage (hrefOf t) (textOf t)) u)).
Proof.
  intros u r. unfold r, u, scanLinks.
  repeat split.
  - rewrite (scan_field origin email
               (fun t => startsWith (hrefOf t) "mailto:")
               (fun t => first (split "?" (trim (dropChars 7 (hrefOf t)))))); [reflexivity|].
    intros acc link. unfold scanLink, usableLinks. cbn [flat_map].
    destruct (linkHref link) as [href|]; [|reflexivity].
    destruct (truthy href); reflexivity.
  - rewrite (scan_field origin twitter
               (fun t => looksLikeTwitter (hrefOf t) (textOf t) (htmlOf t))
               (fun t => extractSocialHandle (hrefOf t) twitterDomains)); [reflexivity|].
    intros acc link. unfold scanLink, usableLinks. cbn [flat_map].
    destruct (linkHref link) as [href|]; [|reflexivity].
    destruct (truthy href); reflexivity.
  - rewrite (scan_field origin linkedin
               (fun t => looksLikeLinkedin (hrefOf t) (textOf t) (htmlOf t)) hrefOf);
      [reflexivity|].
    intros acc link. unfold scanLink, usableLinks. cbn [flat_map].
    destruct (linkHref link) as [href|]; [|reflexivity].
    destruct (truthy href); reflexivity.
  - rewrite (scan_field origin website
               (fun t => looksLikeContactPage (hrefOf t) (textOf t))
               (fun t => contactPageTarget origin (hrefOf t))); [reflexivity|].
    intros acc link. unfold scanLink, usableLinks. cbn [flat_map].
    destruct (linkHref link) as [href|]; [|reflexivity].
    destruct (truthy href) eqn:Eh; [|reflexivity].
    cbn [app negb website hrefOf textOf fst snd].
    destruct (looksLikeContactPage href (toLowerCase (linkText link))); [|reflexivity].
    cbn [andb]. destruct (truthy (website acc)) eqn:Ew; cbn [negb]; [reflexivity|].
    unfold contactPageTarget.
    destruct (startsWith href "http"); [reflexivity|].
    destruct (startsWith href "/"); [reflexivity|].
    cbn [orb]. apply truthy_false_iff. exact Ew.
Qed.

End LinkScanFacts.

(** ** Pages requested, navigations started, exceptions *)

Module EffortFacts.

Import Js Session SessionFacts Effort Resolver.
Local Open Scope string_scope.
Local Open Scope list_scope.
Local Open Scope act_scope.

Lemma within_weaken {A : Type} (p n p' n' : nat) (act : Act A) :
  within p n act -> p <= p' -> n <= n' -> within p' n' act.
Proof. intros H Hp Hn b. specialize (H b). lia. Qed.

Lemma within_ret {A : Type} (a : A) : within 0 0 (ret a).
Proof. intro b. cbn. lia. Qed.

Lemma within_throw {A : Type} (e : string) : within 0 0 (@throw A e).
Proof. intro b. cbn. lia. Qed.

Lemma within_evaluate {A : Type} (page : nat) (script : Script) (r : A) :
  within 0 0 (evaluate page script r).
Proof. intro b. cbn. lia. Qed.

Lemma within_select {A : Type} (selector : Selector) (r : A) : within 0 0 (select selector r).
Proof. intro b. cbn. lia. Qed.

Lemma within_closePage (page : nat) : within 0 0 (closePage page).
Proof. intro b. cbn. lia. Qed.

Lemma within_goto (f : Faults) (page : nat) (target : string) : within 0 1 (goto f page target).
Proof. intro b. unfold goto. destruct (gotoFails f (navigations b)); cbn; lia. Qed.

Lemma within_newPage (f : Faults) : within 1 0 (newPage f).
Proof. intro b. unfold newPage. destruct (newPageFails f (pagesRequested b)); cbn; lia. Qed.

Lemma within_bind {A B : Type} (p1 n1 p2 n2 : nat) (m : Act A) (k : A -> Act B) :
  within p1 n1 m -> (forall a, within p2 n2 (k a)) -> within (p1 + p2) (n1 + n2) (bind m k).
Proof.
  intros Hm Hk b. specialize (Hm b). rewrite bind_run.
  destruct (m b) as [[a|e] b1]; cbn [snd] in *; [|lia].
  specialize (Hk a b1). lia.
Qed.

Lemma within_tryCatch {A : Type} (p1 n1 p2 n2 : nat) (body : Act A)
    (handler : string -> Act A) :
  within p1 n1 body -> (forall e, within p2 n2 (handler e)) ->
  within (p1 + p2) (n1 + n2) (tryCatch body handler).
Proof.
  intros Hb Hh b. specialize (Hb b). unfold tryCatch.
  destruct (body b) as [[a|e] b1]; cbn [snd] in *; [lia|].
  specialize (Hh e b1). lia.
Qed.

Lemma within_tryFinally {A : Type} (p n : nat) (body : Act A) (page : nat) :
  within p n body -> within p n (tryFinally body (closePage page)).
Proof.
  intros Hb b. specialize (Hb b). unfold tryFinally, closePage.
  destruct (body b) as [out b1]. cbn in *. lia.
Qed.

Lemma within_if {A : Type} (p n : nat) (c : bool) (x y : Act A) :
  within p n x -> within p n y -> within p n (if c then x else y).
Proof. destruct c; auto. Qed.

(** [try { ... } catch { return fallback }] with a handler that returns. *)
Lemma neverThrows_tryCatch {A : Type} (body : Act A) (fallback : A) :
  neverThrows (tryCatch body (fun _ => ret fallback)).
Proof.
  intro b. unfold tryCatch, ret. destruct (body b) as [[a|e] b1]; cbn; eauto.
Qed.

Lemma neverThrows_bind {A B : Type} (m : Act A) (k : A -> Act B) :
  neverThrows m -> (forall a, neverThrows (k a)) -> neverThrows (bind m k).
Proof.
  intros Hm Hk b. rewrite bind_run. destruct (Hm b) as (a & Ha).
  destruct (m b) as [[a'|e] b1]; cbn [fst] in Ha; [|discriminate].
  apply Hk.
Qed.

Lemma within_seq {A B : Type} (p1 n1 p2 n2 p n : nat) (m : Act A) (k : A -> Act B) :
  within p1 n1 m -> (forall a, within p2 n2 (k a)) -> p1 + p2 <= p -> n1 + n2 <= n ->
  within p n (bind m k).
Proof.
  intros Hm Hk Hp Hn.
  eapply within_weaken; [|exact Hp | exact Hn].
  apply (@within_bind _ _ p1 n1 p2 n2); [exact Hm | exact Hk].
Qed.

Lemma within_catch_ret {A : Type} (p n : nat) (body : Act A) (fallback : A) :
  within p n body -> within p n (tryCatch body (fun _ => ret fallback)).
Proof.
  intro Hb. eapply within_weaken;
    [apply (@within_tryCatch _ p n 0 0); [exact Hb | intro; apply within_ret] | lia | lia].
Qed.

(** *** The operations *)

Lemma extractContactInfo_within (f : Faults) (profile : string -> Profile.ProfilePage)
    (makerUrl : string) :
  within 1 1 (Profile.extractContactInfo f profile makerUrl).
Proof.
  unfold Profile.extractContactInfo.
  apply (@within_bind _ _ 1 0 0 1); [apply within_newPage|]. intro page.
  apply within_tryFinally.
  apply (@within_tryCatch _ 0 1 0 0); [|intro; apply within_ret].
  apply (@within_bind _ _ 0 1 0 0); [apply within_goto|]. intros _. cbv zeta.
  apply (@within_bind _ _ 0 0 0 0); [apply within_select|]. intro links.
  apply within_if; [|apply within_ret].
  apply (@within_bind _ _ 0 0 0 0); [apply within_evaluate|]. intro. apply within_ret.
Qed.

Lemma navigateWithRetries_within (f : Faults) (attempts page : nat) (websiteUrl : string) :
  within 0 attempts (Website.navigateWithRetries f attempts page websiteUrl).
Proof.
  induction attempts as [|n IH]; cbn [Website.navigateWithRetries]; [apply within_ret|].
  apply (@within_tryCatch _ 0 1 0 n); [apply within_goto|]. intro e.
  destruct n; [apply within_throw | exact IH].
Qed.

Lemma visitContactPage_within (f : Faults) (page : nat) (websiteUrl : string)
    (v : Website.Visit) :
  within 0 2 (Website.visitContactPage f page websiteUrl v).
Proof.
  unfold Website.visitContactPage.
  apply within_if; [|eapply within_weaken; [apply within_ret | lia | lia]].
  apply (@within_tryCatch _ 0 2 0 0); [|intro; apply within_ret].
  apply (@within_bind _ _ 0 1 0 1); [apply within_goto|]. intros _.
  apply (@within_tryCatch _ 0 1 0 0); [|intro; apply within_ret].
  apply (@within_bind _ _ 0 1 0 0); [apply within_goto|]. intros _. apply within_ret.
Qed.

Lemma extractWebsiteContactInfo_within (f : Faults) (validUrl : string -> bool)
    (visit : nat -> Website.Visit) (websiteUrl : string) :
  within 1 5 (Website.extractWebsiteContactInfo f validUrl visit websiteUrl).
Proof.
  unfold Website.extractWebsiteContactInfo.
  apply within_if; [eapply within_weaken; [apply within_ret | lia | lia]|].
  apply (@within_bind _ _ 1 0 0 5); [apply within_newPage|]. intro page.
  apply within_tryFinally.
  apply (@within_tryCatch _ 0 5 0 0); [|intro; apply within_ret].
  apply (@within_bind _ _ 0 3 0 2); [apply navigateWithRetries_within|]. intros _.
  apply (@within_bind _ _ 0 0 0 2); [apply within_evaluate|]. intros _. cbv zeta.
  apply (@within_bind _ _ 0 2 0 0); [apply visitContactPage_within|]. intro.
  apply within_ret.
Qed.

Lemma contactInfoWithRetries_within (f : Faults) (validUrl : string -> bool)
    (visit : nat -> Website.Visit) (websiteUrl : string) (attempts : nat) :
  within attempts (5 * attempts)
    (Website.contactInfoWithRetries f validUrl visit websiteUrl attempts).
Proof.
  induction attempts as [|n IH]; cbn [Website.contactInfoWithRetries]; [apply within_ret|].
  replace (5 * S n) with (5 + 5 * n) by lia.
  apply (@within_bind _ _ 1 5 n (5 * n)).
  - apply (@within_tryCatch _ 1 5 0 0); [|intro; apply within_ret].
    apply (@within_bind _ _ 1 5 0 0); [apply extractWebsiteContactInfo_within|].
    intro. apply within_ret.
  - intros [info|].
    + apply within_if; [exact IH|]. eapply within_weaken; [apply within_ret | lia | lia].
    + destruct n; [apply within_ret | exact IH].
Qed.

Lemma contactInfoWithRetries_returns (f : Faults) (validUrl : string -> bool)
    (visit : nat -> Website.Visit) (websiteUrl : string) (attempts : nat) :
  neverThrows (Website.contactInfoWithRetries f validUrl visit websiteUrl attempts).
Proof.
  induction attempts as [|n IH]; cbn [Website.contactInfoWithRetries].
  - intro b. cbn. eauto.
  - apply neverThrows_bind; [apply neverThrows_tryCatch|].
    intros [info|].
    + destruct (WebsiteContact.email info); destruct (Website.allEmpty _ && _);
        try exact IH; intro b; cbn; eauto.
    + destruct n; [intro b; cbn; eauto | exact IH].
Qed.

Lemma processMakers_within (w : World) (todo : list Makers.Maker) :
  forall done, within (List.length todo) (List.length todo) (processMakers w todo done).
Proof.
  induction todo as [|maker rest IH]; intro done; cbn [processMakers List.length];
    [apply within_ret|].
  apply (@within_bind _ _ 1 1 (List.length rest) (List.length rest)).
  - apply (@within_tryCatch _ 1 1 0 0); [|intro; apply within_ret].
    apply (@within_bind _ _ 1 1 0 0); [apply extractContactInfo_within|].
    intro. apply within_ret.
  - intros [c|]; apply IH.
Qed.

Lemma processMakers_returns (w : World) (todo : list Makers.Maker) :
  forall done, neverThrows (processMakers w todo done).
Proof.
  induction todo as [|maker rest IH]; intro done; cbn [processMakers].
  - intro b. cbn. eauto.
  - apply neverThrows_bind; [apply neverThrows_tryCatch|]. intros [c|]; apply IH.
Qed.

Lemma followRedirectLink_within (w : World) (p : ProductPage.Page) :
  within 1 1 (followRedirectLink w p).
Proof.
  unfold followRedirectLink.
  apply (@within_bind _ _ 0 0 1 1); [apply within_select|]. intros [|redirectUrl rest].
  - eapply within_weaken; [apply within_ret | lia | lia].
  - apply (@within_tryCatch _ 1 1 0 0); [|intro; apply within_ret].
    apply (@within_bind _ _ 1 0 0 1); [apply within_newPage|]. intro page.
    apply (@within_bind _ _ 0 1 0 0); [apply within_goto|]. intros _. cbv zeta.
    apply (@within_bind _ _ 0 0 0 0); [apply within_closePage|]. intros _.
    apply within_ret.
Qed.

Lemma unlessFound_within (p n : nat) (u : string) (next : Act string) :
  within p n next -> within p n (unlessFound u next).
Proof.
  intro H. unfold unlessFound. apply within_if; [exact H|].
  eapply within_weaken; [apply within_ret | lia | lia].
Qed.

Lemma textPatternStrategy_within (page : nat) (p : ProductPage.Page) :
  within 0 0 (textPatternStrategy page p).
Proof.
  unfold textPatternStrategy.
  apply (@within_bind _ _ 0 0 0 0); [apply within_evaluate|]. intro u.
  repeat apply within_if; try apply within_ret.
  apply (@within_bind _ _ 0 0 0 0); [apply within_evaluate|]. intro real.
  apply within_if; apply within_ret.
Qed.

Lemma discoverWebsite_within (w : World) (page : nat) (p : ProductPage.Page) :
  within 1 1 (discoverWebsite w page p).
Proof.
  unfold discoverWebsite.
  apply (@within_bind _ _ 0 0 1 1); [apply within_evaluate|]. intro u1.
  apply (@within_bind _ _ 1 1 0 0);
    [apply unlessFound_within; apply followRedirectLink_within|]. intro u2.
  apply (@within_bind _ _ 0 0 0 0);
    [apply unlessFound_within; apply within_evaluate|]. intro u3.
  apply (@within_bind _ _ 0 0 0 0);
    [apply unlessFound_within; apply within_evaluate|]. intro u4.
  apply (@within_bind _ _ 0 0 0 0);
    [apply unlessFound_within; apply textPatternStrategy_within|]. intro u5.
  apply (@within_bind _ _ 0 0 0 0); [|intro; apply within_ret].
  apply unlessFound_within. unfold emailDomainStrategy.
  apply (@within_bind _ _ 0 0 0 0); [apply within_evaluate|]. intro. apply within_ret.
Qed.

End EffortFacts.

(** ** How the operations end *)

Module OutcomeFacts.

Import Js Session SessionFacts Effort EffortFacts Resolver.
Local Open Scope string_scope.
Local Open Scope list_scope.
Local Open Scope act_scope.

(** The pattern [page = await browser.newPage(); try { await page.goto(url);
    ... } catch { return fallback } finally { await page.close() }]: the
    call throws exactly when the page cannot be opened, and a navigation
    that fails gives the fallback. *)
Lemma guarded_page_run {A : Type} (f : Faults) (target : string) (fallback : A)
    (rest : nat -> Act A) (b : Browser) :
  let r := (page <- newPage f ;;
            tryFinally
              (tryCatch (goto f page target ;; rest page) (fun _ => ret fallback))
              (closePage page)) b in
  (newPageFails f (pagesRequested b) = true ->
   (exists e, fst r = Thrown e) /\ openPages (snd r) = openPages b /\
   navigations (snd r) = navigations b) /\
  (newPageFails f (pagesRequested b) = false -> exists a, fst r = Returned a) /\
  (newPageFails f (pagesRequested b) = false -> gotoFails f (navigations b) = true ->
   fst r = Returned fallback /\ navigations (snd r) = S (navigations b) /\
   pagesRequested (snd r) = S (pagesRequested b)).
Proof.
  cbv zeta. rewrite bind_run. unfold newPage.
  destruct (newPageFails f (pagesRequested b)) eqn:Enew.
  - repeat split; try discriminate. eexists. reflexivity.
  - split; [discriminate|]. unfold tryFinally, tryCatch, closePage. rewrite bind_run.
    unfold goto. cbn [navigations].
    destruct (gotoFails f (navigations b)) eqn:Egoto.
    + cbn. split; [eauto|]. intros _ _. repeat split.
    + split; [|discriminate]. intros _.
      match goal with
      | |- context [rest ?p ?b1] => destruct (rest p b1) as [[a|e] b2]
      end; cbn; eauto.
Qed.

(** [getProductDetails] throws exactly when its own page cannot be opened;
    every failure after that is absorbed, and a product page that does not
    load gives the empty details (no website, no makers, no contact) after a
    single navigation. *)
Theorem getProductDetails_fails_only_without_page (w : World) (productUrl : string)
    (cap : Z) (b : Browser) :
  let r := getProductDetails w productUrl cap b in
  (newPageFails (faults w) (pagesRequested b) = true ->
   (exists e, fst r = Thrown e) /\ openPages (snd r) = openPages b /\
   navigations (snd r) = navigations b) /\
  (newPageFails (faults w) (pagesRequested b) = false -> exists d, fst r = Returned d) /\
  (newPageFails (faults w) (pagesRequested b) = false ->
   gotoFails (faults w) (navigations b) = true ->
   fst r = Returned noDetails /\ navigations (snd r) = S (navigations b) /\
   pagesRequested (snd r) = S (pagesRequested b)).
Proof.
  unfold getProductDetails. apply guarded_page_run.
Qed.

End OutcomeFacts.

(** ** The cost of resolving one product *)

Module ProductEffort.

Import Js JsArray Session SessionFacts MakersFacts Effort EffortFacts Resolver.
Local Open Scope string_scope.
Local Open Scope list_scope.
Local Open Scope act_scope.

(** The website lookup of [getProductDetails] never throws, whatever fails
    underneath, and with [attempts] attempts it asks for at most [attempts]
    pages and starts at most five navigations per attempt (three tries for
    the site, one for its contact page, one back). *)
Theorem website_lookup_absorbs_failures (f : Faults) (validUrl : string -> bool)
    (visit : nat -> Website.Visit) (websiteUrl : string) (attempts : nat) (b : Browser) :
  let r := Website.contactInfoWithRetries f validUrl visit websiteUrl attempts b in
  (exists info, fst r = Returned info) /\
  pagesRequested (snd r) <= pagesRequested b + attempts /\
  navigations (snd r) <= navigations b + 5 * attempts.
Proof.
  cbv zeta. split; [apply contactInfoWithRetries_returns|].
  pose proof (contactInfoWithRetries_within f validUrl visit websiteUrl attempts b). lia.
Qed.

(** The maker loop never throws, asks for exactly one page per maker it is
    given, whether the profile loads or not, and starts at most one
    navigation per maker. *)
Theorem one_profile_page_per_maker (w : World) (todo done : list Makers.Maker)
    (b : Browser) :
  let r := processMakers w todo done b in
  (exists found, fst r = Returned found) /\
  pagesRequested (snd r) = pagesRequested b + List.length todo /\
  navigations (snd r) <= navigations b + List.length todo.
Proof.
  cbv zeta. split; [apply processMakers_returns|]. split.
  - revert done b. induction todo as [|maker rest IH]; intros done b;
      cbn [processMakers List.length]; [cbn; lia|].
    rewrite bind_run, attempt_run.
    assert (Hone : pagesRequested
                     (snd (Profile.extractContactInfo (faults w) (profile w)
                             (Makers.url maker) b))
                   = S (pagesRequested b)).
    { unfold Profile.extractContactInfo. rewrite bind_run. unfold newPage.
      destruct (newPageFails (faults w) (pagesRequested b)); [reflexivity|].
      unfold tryFinally, closePage.
      match goal with
      | |- context [tryCatch ?body ?h ?b1] =>
          pose proof (@within_tryCatch _ 0 1 0 0 body h) as Hw;
          destruct (tryCatch body h b1) as [out b2] eqn:E
      end.
      cbn. 
      assert (Hb : pagesRequested b2 = S (pagesRequested b)); [|exact Hb].
      match type of E with
      | tryCatch ?body ?h ?b1 = _ =>
          assert (Hin : within (0 + 0) (1 + 0) (tryCatch body h))
      end.
      { apply Hw; [|intro; apply within_ret].
        apply (@within_bind _ _ 0 1 0 0); [apply within_goto|]. intros _. cbv zeta.
        apply (@within_bind _ _ 0 0 0 0); [apply within_select|]. intro links.
        apply within_if; [|apply within_ret].
        apply (@within_bind _ _ 0 0 0 0); [apply within_evaluate|]. intro.
        apply within_ret. }
      match type of E with
      | tryCatch ?body ?h ?b1 = _ => specialize (Hin b1)
      end.
      rewrite E in Hin. cbn in Hin. lia. }
    destruct (Profile.extractContactInfo (faults w) (profile w) (Makers.url maker) b)
      as [[c|e] b1]; cbn [snd] in Hone; rewrite IH; lia.
  - pose proof (processMakers_within w todo done b). lia.
Qed.

(** With a cap that is a count, resolving one product asks the browser for
    at most [cap + 5] pages (the product page, the redirect page, three
    website attempts, one profile per maker) and starts at most [cap + 17]
    navigations. *)
Theorem getProductDetails_effort (w : World) (productUrl : string) (cap : Z) (b : Browser) :
  (0 <= cap)%Z ->
  let r := getProductDetails w productUrl cap b in
  pagesRequested (snd r) <= pagesRequested b + 5 + Z.to_nat cap /\
  navigations (snd r) <= navigations b + 17 + Z.to_nat cap.
Proof.
  intro Hcap. cbv zeta.
  assert (H : within (5 + Z.to_nat cap) (17 + Z.to_nat cap)
                (getProductDetails w productUrl cap)).
  { unfold getProductDetails.
    apply (@within_seq _ _ 1 0 (4 + Z.to_nat cap) (17 + Z.to_nat cap));
      [apply within_newPage| |lia|lia]. intro page.
    apply within_tryFinally. apply within_catch_ret.
    apply (@within_seq _ _ 0 1 (4 + Z.to_nat cap) (16 + Z.to_nat cap));
      [apply within_goto| |lia|lia]. intros _. cbv zeta.
    apply (@within_seq _ _ 1 1 (3 + Z.to_nat cap) (15 + Z.to_nat cap));
      [apply discoverWebsite_within| |lia|lia]. intro websiteUrl.
    apply (@within_seq _ _ 3 15 (Z.to_nat cap) (Z.to_nat cap)); [| |lia|lia].
    { apply within_if; [|eapply within_weaken; [apply within_ret | lia | lia]].
      apply within_catch_ret.
      apply (contactInfoWithRetries_within (faults w) (validUrl w) (websiteVisit w)
               websiteUrl 3). }
    intro contactInfo.
    apply (@within_seq _ _ 0 0 (Z.to_nat cap) (Z.to_nat cap));
      [apply within_select| |lia|lia].
    intro makerLinks.
    apply (@within_seq _ _ (Z.to_nat cap) (Z.to_nat cap) 0 0);
      [|intro; apply within_ret|lia|lia].
    apply within_if; [|eapply within_weaken; [apply within_ret | lia | lia]].
    eapply within_weaken; [apply processMakers_within| |];
      unfold Makers.makersToProcess;
      match goal with
      | |- List.length (slice0 cap ?l) <= _ => pose proof (@slice0_length _ cap l Hcap); lia
      end. }
  specialize (H b). lia.
Qed.

Lemma getProductDetails_effort_witness :
  (0 <= 3)%Z /\
  pagesRequested (snd (getProductDetails TwoMakers.world
                         (Listing.url TwoMakers.product) 3 initialBrowser)) <= 0 + 5 + 3 /\
  navigations (snd (getProductDetails TwoMakers.world
                      (Listing.url TwoMakers.product) 3 initialBrowser)) <= 0 + 17 + 3.
Proof.
  split; [lia|].
  apply (@getProductDetails_effort TwoMakers.world (Listing.url TwoMakers.product) 3
           initialBrowser).
  lia.
Defined.

End ProductEffort.

(** ** The maker profile *)

Module ProfileFacts.

Import Js JsFacts Handles Session SessionFacts Profile PageScan.
Local Open Scope string_scope.
Local Open Scope list_scope.
Local Open Scope act_scope.

(** The [href]s that pass [if (!href) return]. *)
Lemma scanSocialLink_field (field : ProfileContact -> string)
    (cond : string -> bool) (value : string -> string) :
  (forall acc href,
      truthy href = true ->
      field (scanSocialLink acc (Some href))
      = if cond href && negb (truthy (field acc)) then value href else field acc) ->
  forall hrefs acc,
    field (fold_left scanSocialLink hrefs acc)
    = if truthy (field acc) then field acc
      else firstTruthy
             (map value
                (filter cond
                   (flat_map (fun h => match h with
                                       | Some href => if truthy href then [href] else []
                                       | None => []
                                       end) hrefs))).
Proof.
  intros Hstep hrefs. induction hrefs as [|h hrefs IH]; intro acc.
  - simpl. destruct (field acc); reflexivity.
  - cbn [fold_left flat_map]. rewrite IH.
    destruct h as [href|]; [|reflexivity].
    destruct (truthy href) eqn:Eh; [|cbn [scanSocialLink]; rewrite Eh; reflexivity].
    rewrite (Hstep acc href Eh). cbn [app filter map].
    destruct (cond href); cbn [andb map firstTruthy]; [|reflexivity].
    destruct (truthy (field acc)) eqn:Ea; cbn [negb]; [rewrite Ea; reflexivity|].
    destruct (truthy (value href)); reflexivity.
Qed.

(** [extractContactInfo] on a maker profile.  It throws only when its page
    cannot be opened; a profile that does not load gives the empty contact.
    Otherwise the e-mail is the first non-empty of: the address of the first
    [mailto:] link that has one, the address found in the page text, the
    address found by the in-page script; the X handle is the first
    non-empty handle among the links to twitter.com or x.com, and the
    LinkedIn URL is the first link to linkedin.com. *)
Theorem extractContactInfo_sources_in_order (f : Faults) (profile : string -> ProfilePage)
    (makerUrl : string) (b : Browser) :
  let r := extractContactInfo f profile makerUrl b in
  let pp := profile makerUrl in
  let hrefs := flat_map (fun h => match h with
                                  | Some href => if truthy href then [href] else []
                                  | None => []
                                  end) (socialHrefs pp) in
  (newPageFails f (pagesRequested b) = true -> exists e, fst r = Thrown e) /\
  (newPageFails f (pagesRequested b) = false -> gotoFails f (navigations b) = true ->
   fst r = Returned noProfileContact) /\
  (newPageFails f (pagesRequested b) = false -> gotoFails f (navigations b) = false ->
   fst r = Returned
     {| email :=
          firstTruthy
            [ firstTruthy (map (fun h => first (split "?" (trim (dropChars 7 h))))
                             (filter (fun h => startsWith h "mailto:") hrefs));
              textEmail pp;
              scriptEmail pp ];
        xId :=
          firstTruthy (map extractTwitterHandle
                         (filter (fun h => includes h "twitter.com" || includes h "x.com")
                                 hrefs));
        linkedinUrl :=
          firstTruthy (filter (fun h => includes h "linkedin.com") hrefs) |}).
Proof.
  cbv zeta. unfold extractContactInfo. rewrite bind_run. unfold newPage.
  destruct (newPageFails f (pagesRequested b)) eqn:Enew.
  - split; [intros _; eexists; reflexivity|]. split; discriminate.
  - split; [discriminate|].
    unfold tryFinally, tryCatch, closePage. rewrite bind_run. unfold goto.
    cbn [navigations].
    destruct (gotoFails f (navigations b)) eqn:Egoto.
    + split; [reflexivity | discriminate].
    + split; [discriminate|]. intros _ _. cbv zeta.
      rewrite bind_run. unfold select at 1. cbn [logEvent].
      set (c := fold_left scanSocialLink (socialHrefs (profile makerUrl)) noProfileContact).
      assert (Hemail : email c = firstTruthy
                (map (fun h => first (split "?" (trim (dropChars 7 h))))
                   (filter (fun h => startsWith h "mailto:")
                      (flat_map (fun h => match h with
                                          | Some href => if truthy href then [href] else []
                                          | None => []
                                          end) (socialHrefs (profile makerUrl)))))).
      { unfold c. rewrite (scanSocialLink_field email (fun h => startsWith h "mailto:")
                             (fun h => first (split "?" (trim (dropChars 7 h))))).
        - reflexivity.
        - intros acc href Hh. cbn [scanSocialLink]. rewrite Hh. reflexivity. }
      assert (HxId : xId c = firstTruthy
                (map extractTwitterHandle
                   (filter (fun h => includes h "twitter.com" || includes h "x.com")
                      (flat_map (fun h => match h with
                                          | Some href => if truthy href then [href] else []
                                          | None => []
                                          end) (socialHrefs (profile makerUrl)))))).
      { unfold c. rewrite (scanSocialLink_field xId
                             (fun h => includes h "twitter.com" || includes h "x.com")
                             extractTwitterHandle).
        - reflexivity.
        - intros acc href Hh. cbn [scanSocialLink]. rewrite Hh. reflexivity. }
      assert (Hlinkedin : linkedinUrl c = firstTruthy
                (filter (fun h => includes h "linkedin.com")
                   (flat_map (fun h => match h with
                                       | Some href => if truthy href then [href] else []
                                       | None => []
                                       end) (socialHrefs (profile makerUrl))))).
      { unfold c. rewrite (scanSocialLink_field linkedinUrl
                             (fun h => includes h "linkedin.com") (fun h => h)).
        - rewrite map_id. reflexivity.
        - intros acc href Hh. cbn [scanSocialLink]. rewrite Hh. reflexivity. }
      rewrite <- Hemail, <- HxId, <- Hlinkedin. clearbody c. clear Hemail HxId Hlinkedin.
      destruct c as [e x l]. cbn [email xId linkedinUrl firstTruthy withEmail].
      destruct (truthy e) eqn:Ee; cbn [negb email]; [rewrite Ee; reflexivity|].
      apply truthy_false_iff in Ee. subst e.
      destruct (truthy (textEmail (profile makerUrl))) eqn:Et; cbn [negb email].
      * cbn [withEmail email xId linkedinUrl]. rewrite Et. reflexivity.
      * cbn [withEmail email xId linkedinUrl]. rewrite Et. cbn [negb].
        rewrite bind_run. unfold evaluate. cbn [logEvent].
        destruct (truthy (scriptEmail (profile makerUrl))) eqn:Es; cbn.
        -- reflexivity.
        -- apply truthy_false_iff in Et. rewrite Et. reflexivity.
Qed.

End ProfileFacts.

(** ** The website visit *)

Module WebsiteFacts.

Import Js JsFacts WebsiteContact Session SessionFacts Website.
Local Open Scope string_scope.
Local Open Scope list_scope.
Local Open Scope act_scope.

(** The session after a navigation has been started. *)
Lemma navigateWithRetries_step (f : Faults) (page : nat) (websiteUrl : string)
    (attempts : nat) (b : Browser) :
  navigateWithRetries f (S (S attempts)) page websiteUrl b
  = let b1 := {| openPages := openPages b;
                 pagesRequested := pagesRequested b;
                 navigations := S (navigations b);
                 events := events b ++ [EvGoto page websiteUrl] |} in
    if gotoFails f (navigations b)
    then navigateWithRetries f (S attempts) page websiteUrl b1
    else (Returned tt, b1).
Proof.
  change (navigateWithRetries f (S (S attempts)) page websiteUrl)
    with (tryCatch (goto f page websiteUrl)
            (fun _ => navigateWithRetries f (S attempts) page websiteUrl)).
  unfold tryCatch, goto. destruct (gotoFails f (navigations b)); reflexivity.
Qed.

Lemma navigateWithRetries_run (f : Faults) (page : nat) (websiteUrl : string)
    (attempts : nat) :
  forall b,
    let n := navigations b in
    let r := navigateWithRetries f (S attempts) page websiteUrl b in
    openPages (snd r) = openPages b /\ pagesRequested (snd r) = pagesRequested b /\
    ((exists i, i <= attempts /\ gotoFails f (n + i) = false /\
                (forall j, j < i -> gotoFails f (n + j) = true) /\
                fst r = Returned tt /\ navigations (snd r) = n + i + 1)
     \/ ((forall j, j <= attempts -> gotoFails f (n + j) = true) /\
         (exists e, fst r = Thrown e) /\ navigations (snd r) = n + attempts + 1)).
Proof.
  induction attempts as [|k IH]; intro b; cbv zeta.
  - cbn [navigateWithRetries]. unfold tryCatch, goto.
    destruct (gotoFails f (navigations b)) eqn:E; cbn.
    + repeat split. right. repeat split; [|eauto|lia].
      intros j Hj. replace j with 0 by lia. rewrite Nat.add_0_r. exact E.
    + repeat split. left. exists 0. rewrite Nat.add_0_r.
      repeat split; [lia | exact E | intros; lia | lia].
  - rewrite navigateWithRetries_step. cbv zeta.
    destruct (gotoFails f (navigations b)) eqn:E.
    + match goal with
      | |- context [navigateWithRetries f (S k) page websiteUrl ?b1] =>
          specialize (IH b1); cbv zeta in IH;
          set (r := navigateWithRetries f (S k) page websiteUrl b1) in *
      end.
      cbn [navigations openPages pagesRequested] in IH.
      destruct IH as (O & P & IH).
      split; [exact O|]. split; [exact P|].
      destruct IH as [(i & Hi & Hok & Hbefore & Hret & Hnav) | (Hall & Hthrown & Hnav)].
      * left. exists (S i). repeat split.
        -- lia.
        -- rewrite <- Hok. f_equal. lia.
        -- intros j Hj. destruct j as [|j]; [rewrite Nat.add_0_r; exact E|].
           rewrite <- (Hbefore j) by lia. f_equal. lia.
        -- exact Hret.
        -- rewrite Hnav. lia.
      * right. repeat split.
        -- intros j Hj. destruct j as [|j]; [rewrite Nat.add_0_r; exact E|].
           rewrite <- (Hall j) by lia. f_equal. lia.
        -- exact Hthrown.
        -- rewrite Hnav. lia.
    + cbn. repeat split. left. exists 0. rewrite Nat.add_0_r.
      repeat split; [lia | exact E | intros; lia | lia].
Qed.

(** The navigation loop of [extractWebsiteContactInfo] stops at the first
    navigation that succeeds and starts no further one; when all
    [attempts + 1] navigations fail it throws after exactly that many.  It
    opens and closes no page. *)
Theorem navigation_retries_stop_at_first_success (f : Faults) (page : nat)
    (websiteUrl : string) (attempts : nat) (b : Browser) :
  let n := navigations b in
  let r := navigateWithRetries f (S attempts) page websiteUrl b in
  openPages (snd r) = openPages b /\ pagesRequested (snd r) = pagesRequested b /\
  ((exists i, i <= attempts /\ gotoFails f (n + i) = false /\
              (forall j, j < i -> gotoFails f (n + j) = true) /\
              fst r = Returned tt /\ navigations (snd r) = n + i + 1)
   \/ ((forall j, j <= attempts -> gotoFails f (n + j) = true) /\
       (exists e, fst r = Thrown e) /\ navigations (snd r) = n + attempts + 1)).
Proof. apply navigateWithRetries_run. Qed.


End WebsiteFacts.

(** ** The listing *)

Module ListingFacts.

Import Js JsFacts Session SessionFacts Listing.
Local Open Scope string_scope.
Local Open Scope list_scope.
Local Open Scope act_scope.

Lemma seen_iff (u : string) (seenUrls : list string) :
  existsb (String.eqb u) seenUrls = true <-> In u seenUrls.
Proof.
  rewrite existsb_exists. split.
  - intros (x & Hin & E). apply String.eqb_eq in E. subst. exact Hin.
  - intro Hin. exists u. split; [exact Hin | apply String.eqb_refl].
Qed.

(** What the two loops keep true of [seenUrls] and [uniqueProducts]: no URL
    twice, every URL kept is marked as seen and is on one of the two paths. *)
Lemma addUnique_tracked (m1 m2 marker : string) (candidates : list Product) :
  marker = m1 \/ marker = m2 ->
  forall seenUrls uniqueProducts,
    NoDup (map url uniqueProducts) ->
    (forall p, In p uniqueProducts -> In (url p) seenUrls) ->
    Forall (fun p => includes (url p) m1 = true \/ includes (url p) m2 = true)
           uniqueProducts ->
    let result := snd (addUnique marker candidates seenUrls uniqueProducts) in
    NoDup (map url result) /\
    Forall (fun p => includes (url p) m1 = true \/ includes (url p) m2 = true) result.
Proof.
  intro Hm. induction candidates as [|product rest IH];
    intros seenUrls uniqueProducts Hnd Hseen Hmark; cbn [addUnique]; [split; assumption|].
  destruct (includes (url product) marker) eqn:Ei; cbn [andb]; [|apply IH; assumption].
  destruct (existsb (String.eqb (url product)) seenUrls) eqn:Es; cbn [negb];
    [apply IH; assumption|].
  assert (Hfresh : ~ In (url product) seenUrls).
  { intro Hin. apply seen_iff in Hin. congruence. }
  apply IH.
  - rewrite map_app. cbn [map].
    rewrite <- (rev_involutive (map url uniqueProducts ++ [url product])).
    apply NoDup_rev. rewrite rev_app_distr. cbn [rev app].
    constructor.
    + rewrite <- in_rev. intro Hin. apply in_map_iff in Hin as (q & Hq & Hin).
      apply Hfresh. rewrite <- Hq. apply Hseen. exact Hin.
    + apply NoDup_rev. exact Hnd.
  - intros p Hin. apply in_app_or in Hin as [Hin | [<- | []]].
    + right. apply Hseen. exact Hin.
    + left. reflexivity.
  - apply Forall_app. split; [exact Hmark|]. constructor; [|constructor].
    destruct Hm as [<- | <-]; auto.
Qed.

Lemma addUnique_seen (marker : string) (candidates : list Product) :
  forall seenUrls uniqueProducts,
    (forall p, In p uniqueProducts -> In (url p) seenUrls) ->
    forall p, In p (snd (addUnique marker candidates seenUrls uniqueProducts)) ->
              In (url p) (fst (addUnique marker candidates seenUrls uniqueProducts)).
Proof.
  induction candidates as [|product rest IH]; intros seenUrls uniqueProducts Hseen;
    cbn [addUnique]; [exact Hseen|].
  destruct (includes (url product) marker && _); [|apply IH; exact Hseen].
  apply IH. intros p Hin. apply in_app_or in Hin as [Hin | [<- | []]].
  - right. apply Hseen. exact Hin.
  - left. reflexivity.
Qed.

Lemma addUnique_extends (marker : string) (candidates : list Product) :
  forall seenUrls uniqueProducts,
  exists more, snd (addUnique marker candidates seenUrls uniqueProducts)
               = uniqueProducts ++ more.
Proof.
  induction candidates as [|product rest IH]; intros seenUrls uniqueProducts;
    cbn [addUnique].
  - exists []. rewrite app_nil_r. reflexivity.
  - destruct (includes (url product) marker && _).
    + destruct (IH (url product :: seenUrls) (uniqueProducts ++ [product])) as (more & ->).
      exists (product :: more). rewrite <- app_assoc. reflexivity.
    + apply IH.
Qed.

(** The products a listing page gives: no URL twice, every URL on a
    [/products/] or [/posts/] path, the products of the first pass first and
    in their order, and the in-page scan consulted only when the first pass
    gives fewer than twenty. *)
Theorem extractProducts_unique_urls (lp : ListingPage) :
  let firstPass := snd (addUnique "/products/" (collectProducts (anchors lp) []) [] []) in
  NoDup (map url (extractProducts lp)) /\
  Forall (fun p => includes (url p) "/products/" = true \/ includes (url p) "/posts/" = true)
         (extractProducts lp) /\
  (exists more, extractProducts lp = firstPass ++ more) /\
  (20 <= List.length firstPass -> extractProducts lp = firstPass).
Proof.
  cbv zeta. unfold extractProducts.
  pose proof (@addUnique_tracked "/products/" "/posts/" "/products/"
                (collectProducts (anchors lp) []) (or_introl eq_refl) [] []
                (NoDup_nil _) (fun p (H : In p []) => match H with end) (Forall_nil _)) as H1.
  pose proof (@addUnique_seen "/products/" (collectProducts (anchors lp) []) [] []
                (fun p (H : In p []) => match H with end)) as Hseen.
  cbv zeta in H1.
  destruct (addUnique "/products/" (collectProducts (anchors lp) []) [] [])
    as [seenUrls uniqueProducts].
  cbn [fst snd] in *. destruct H1 as (Hnd & Hmark).
  destruct (Nat.ltb_spec (List.length uniqueProducts) 20) as [Hlt | Hge].
  - pose proof (@addUnique_tracked "/products/" "/posts/" "/posts/"
                  (scanPostLinks (postLinks lp)) (or_intror eq_refl) seenUrls uniqueProducts
                  Hnd Hseen Hmark) as H2.
    cbv zeta in H2. destruct H2 as (Hnd2 & Hmark2).
    split; [exact Hnd2|]. split; [exact Hmark2|]. split; [apply addUnique_extends|].
    intro. lia.
  - split; [exact Hnd|]. split; [exact Hmark|]. split; [|reflexivity].
    exists []. rewrite app_nil_r. reflexivity.
Qed.

Lemma getProductsFromLeaderboard_run (f : Faults) (listing : string -> ListingPage)
    (targetUrl : string) (b : Browser) :
  let r := getProductsFromLeaderboard f listing targetUrl b in
  (newPageFails f (pagesRequested b) = true -> exists e, fst r = Thrown e) /\
  (newPageFails f (pagesRequested b) = false -> gotoFails f (navigations b) = true ->
   (exists e, fst r = Thrown e) /\
   In (EvClose (pagesRequested b)) (events (snd r))) /\
  (newPageFails f (pagesRequested b) = false -> gotoFails f (navigations b) = false ->
   fst r = Returned (extractProducts (listing targetUrl))).
Proof.
  cbv zeta. unfold getProductsFromLeaderboard, extractProducts.
  rewrite bind_run. unfold newPage.
  destruct (newPageFails f (pagesRequested b)) eqn:Enew.
  - split; [intros _; eexists; reflexivity|]. split; discriminate.
  - split; [discriminate|].
    unfold tryFinally, tryCatch, closePage. rewrite bind_run. unfold goto.
    cbn [navigations].
    destruct (gotoFails f (navigations b)) eqn:Egoto.
    + split; [|discriminate]. intros _ _. cbn. split; [eexists; reflexivity|].
      apply in_or_app. right. left. reflexivity.
    + split; [discriminate|]. intros _ _. cbv zeta.
      rewrite bind_run, CascadeFacts.evaluate_run.
      rewrite bind_run, CascadeFacts.select_run.
      destruct (addUnique "/products/" (collectProducts (anchors (listing targetUrl)) []) [] [])
        as [seenUrls uniqueProducts].
      destruct (List.length uniqueProducts <? 20)%nat.
      * rewrite bind_run, CascadeFacts.evaluate_run. reflexivity.
      * reflexivity.
Qed.

(** [getProductsFromLeaderboard] throws when its page cannot be opened and
    when the listing does not load (the error is thrown again, after the
    page is closed); otherwise it returns the products of the page. *)
Theorem getProductsFromLeaderboard_outcome (f : Faults) (listing : string -> ListingPage)
    (targetUrl : string) (b : Browser) :
  let r := getProductsFromLeaderboard f listing targetUrl b in
  (newPageFails f (pagesRequested b) = true -> exists e, fst r = Thrown e) /\
  (newPageFails f (pagesRequested b) = false -> gotoFails f (navigations b) = true ->
   (exists e, fst r = Thrown e) /\
   In (EvClose (pagesRequested b)) (events (snd r))) /\
  (newPageFails f (pagesRequested b) = false -> gotoFails f (navigations b) = false ->
   fst r = Returned (extractProducts (listing targetUrl))).
Proof. apply getProductsFromLeaderboard_run. Qed.

End ListingFacts.

(** ** The run *)

Module RunExtras.

Import Js JsArray Session SessionFacts Listing ListingFacts Run RunFacts.
Local Open Scope string_scope.
Local Open Scope list_scope.
Local Open Scope act_scope.

(** A run fails only at the listing: [scrapeProductHunt] throws when the
    listing page cannot be opened or does not load, returns early when the
    listing holds no product, and otherwise returns the records whatever
    happens while the products are resolved. *)
Theorem run_fails_only_at_listing (w : Resolver.World) (listing : string -> ListingPage)
    (t : Timing) (cfg : Config) (date : string) (startTime : Z) (b : Browser) :
  let r := scrapeProductHunt w listing t cfg date startTime b in
  let f := Resolver.faults w in
  (newPageFails f (pagesRequested b) = true -> exists e, fst r = Thrown e) /\
  (newPageFails f (pagesRequested b) = false -> gotoFails f (navigations b) = true ->
   exists e, fst r = Thrown e) /\
  (newPageFails f (pagesRequested b) = false -> gotoFails f (navigations b) = false ->
   (extractProducts (listing (targetUrl cfg)) = [] -> fst r = Returned None) /\
   (extractProducts (listing (targetUrl cfg)) <> [] ->
    exists records, fst r = Returned (Some records))).
Proof.
  cbv zeta. unfold scrapeProductHunt, tryCatch. rewrite bind_run.
  destruct (getProductsFromLeaderboard_run (Resolver.faults w) listing (targetUrl cfg) b)
    as (Hnew & Hgoto & Hok).
  destruct (getProductsFromLeaderboard (Resolver.faults w) listing (targetUrl cfg) b)
    as [[products|e] b1]; cbn [fst snd] in *.
  - split; [intro E; destruct (Hnew E); discriminate|].
    split; [intros E1 E2; destruct (Hgoto E1 E2) as ((? & ?) & _); discriminate|].
    intros E1 E2. specialize (Hok E1 E2). injection Hok as ->.
    split.
    + intros ->. reflexivity.
    + intro Hne. destruct (extractProducts (listing (targetUrl cfg))) as [|p ps] eqn:Ep;
        [contradiction|].
      cbn [List.length Nat.eqb]. rewrite bind_run.
      destruct (processProducts_groups w t cfg date (slice0 (maxProducts cfg) (p :: ps))
                  0 (RateLimiter.mkRequestStats startTime 0 0 0) [] b1)
        as (stats' & b' & groups & Hrun & _).
      rewrite Hrun. cbn. eauto.
  - split; [intros _; cbn; eauto|]. split; [intros _ _; cbn; eauto|].
    intros E1 E2. specialize (Hok E1 E2). discriminate.
Qed.

(** The counters the delay is computed from, over a run of the product
    loop: one request is counted per delay (one less than the products),
    one failure per product whose resolution throws and none otherwise, and
    the count of consecutive requests never becomes negative. *)
Theorem request_counters_over_a_run (w : Resolver.World) (t : Timing) (cfg : Config)
    (date : string) (products : list Product) (i : nat)
    (stats : RateLimiter.RequestStats) (acc : list OutputRecord) (b : Browser) :
  (0 <= RateLimiter.consecutiveRequests stats)%Z ->
  exists stats' records b',
    processProducts w t cfg date products i stats acc b = (Returned (stats', records), b') /\
    RateLimiter.totalRequests stats'
    = (RateLimiter.totalRequests stats + Z.of_nat (Nat.pred (List.length products)))%Z /\
    (RateLimiter.failedRequests stats <= RateLimiter.failedRequests stats'
     <= RateLimiter.failedRequests stats + Z.of_nat (List.length products))%Z /\
    (0 <= RateLimiter.consecutiveRequests stats')%Z.
Proof.
  revert i stats acc b.
  induction products as [|product rest IH]; intros i stats acc b Hc; cbn [processProducts].
  - exists stats, acc, b. cbn. repeat split; lia.
  - rewrite bind_run, processProduct_run.
    destruct (Resolver.getProductDetails w (url product) (maxMakersPerProduct cfg) b)
      as [[d|e] b1]; cbn [fst snd countFailure].
    + destruct rest as [|next rest'].
      * cbn [processProducts]. do 3 eexists. split; [reflexivity|]. cbn. repeat split; lia.
      * pose proof (RateLimiterExtras.adaptiveDelay_counters (delayBetweenRequests cfg)
                      (clockBefore t i) (clockAfter t i) (random1 t i) (random2 t i) stats)
          as Hd.
        cbv zeta in Hd. destruct Hd as (_ & Htot & Hfail & Hcons).
        specialize (Hcons Hc).
        match goal with
        | |- context [processProducts w t cfg date (next :: rest') (S i) ?st ?acc' b1] =>
            destruct (IH (S i) st acc' b1) as (stats' & records & b' & Hrun & H1 & H2 & H3);
            [lia|]
        end.
        exists stats', records, b'. split; [exact Hrun|].
        cbn [List.length Nat.pred] in *. repeat split; lia.
    + set (failed := RateLimiter.mkRequestStats (RateLimiter.lastRequestTime stats)
                       (RateLimiter.consecutiveRequests stats)
                       (RateLimiter.totalRequests stats)
                       (RateLimiter.failedRequests stats + 1)).
      destruct rest as [|next rest'].
      * cbn [processProducts]. do 3 eexists. split; [reflexivity|]. cbn. repeat split; lia.
      * pose proof (RateLimiterExtras.adaptiveDelay_counters (delayBetweenRequests cfg)
                      (clockBefore t i) (clockAfter t i) (random1 t i) (random2 t i) failed)
          as Hd.
        cbv zeta in Hd. destruct Hd as (_ & Htot & Hfail & Hcons).
        specialize (Hcons Hc).
        match goal with
        | |- context [processProducts w t cfg date (next :: rest') (S i) ?st ?acc' b1] =>
            destruct (IH (S i) st acc' b1) as (stats' & records & b' & Hrun & H1 & H2 & H3);
            [lia|]
        end.
        exists stats', records, b'. split; [exact Hrun|].
        cbn [List.length Nat.pred] in *. cbn in Htot, Hfail. repeat split; lia.
Qed.

Lemma request_counters_over_a_run_witness :
  (0 <= 0)%Z /\
  exists stats' records b',
    processProducts TwoMakers.world
      (mkTiming (fun _ => 0%Z) (fun _ => 0%Z) (fun _ => 0%Q) (fun _ => 0%Q))
      TwoMakers.config "2025-03-17" [TwoMakers.product; TwoMakers.product] 0
      (RateLimiter.mkRequestStats 0 0 0 0) [] initialBrowser
    = (Returned (stats', records), b') /\
    RateLimiter.totalRequests stats' = (0 + Z.of_nat (Nat.pred 2))%Z /\
    (0 <= RateLimiter.failedRequests stats' <= 0 + Z.of_nat 2)%Z /\
    (0 <= RateLimiter.consecutiveRequests stats')%Z.
Proof.
  split; [lia|].
  apply (@request_counters_over_a_run TwoMakers.world
           (mkTiming (fun _ => 0%Z) (fun _ => 0%Z) (fun _ => 0%Q) (fun _ => 0%Q))
           TwoMakers.config "2025-03-17" [TwoMakers.product; TwoMakers.product] 0
           (RateLimiter.mkRequestStats 0 0 0 0) [] initialBrowser).
  cbn. lia.
Defined.

End RunExtras.

(** ** The makers that are kept *)

Module MakersExtras.

Import Js JsFacts JsArray Makers MakersFacts.
Local Open Scope string_scope.
Local Open Scope list_scope.

Lemma startsWith_app (a s p : string) :
  startsWith (a ++ s) (a ++ p) = startsWith s p.
Proof.
  induction a as [|c a IH]; cbn; [reflexivity|]. rewrite Ascii.eqb_refl. exact IH.
Qed.

Lemma seen_In (processed : list string) (u : string) :
  seen processed u = true <-> In u processed.
Proof.
  unfold seen. rewrite existsb_exists. split.
  - intros (x & Hin & E). apply String.eqb_eq in E. subst. exact Hin.
  - intro Hin. exists u. split; [exact Hin | apply String.eqb_refl].
Qed.

Lemma NoDup_snoc {A : Type} (l : list A) (x : A) :
  NoDup l -> ~ In x l -> NoDup (l ++ [x]).
Proof.
  intros Hnd Hx. rewrite <- (rev_involutive (l ++ [x])).
  apply NoDup_rev. rewrite rev_app_distr. cbn [rev app].
  constructor; [rewrite <- in_rev; exact Hx | apply NoDup_rev; exact Hnd].
Qed.

Lemma partition_Permutation {A : Type} (f : A -> bool) (l : list A) :
  Permutation l (filter f l ++ filter (fun x => negb (f x)) l).
Proof.
  induction l as [|x l IH]; cbn; [constructor|].
  destruct (f x); cbn.
  - constructor. exact IH.
  - apply Permutation_cons_app. exact IH.
Qed.

Lemma Subseq_In {A : Type} (s l : list A) (x : A) : Subseq s l -> In x s -> In x l.
Proof.
  induction 1 as [|y s l Hs IH|y s l Hs IH]; intro Hin.
  - exact Hin.
  - right. auto.
  - destruct Hin as [-> | Hin]; [left; reflexivity | right; auto].
Qed.

Lemma Subseq_NoDup {A : Type} (s l : list A) : Subseq s l -> NoDup l -> NoDup s.
Proof.
  induction 1 as [|y s l Hs IH|y s l Hs IH]; intro Hnd.
  - exact Hnd.
  - inversion Hnd; auto.
  - inversion Hnd as [|? ? Hy Hl]; subst. constructor; [|auto].
    intro Hin. apply Hy. eapply Subseq_In; eassumption.
Qed.

Lemma Subseq_map_url (s l : list Maker) : Subseq s l -> Subseq (map url s) (map url l).
Proof.
  induction 1 as [|y s l Hs IH|y s l Hs IH]; cbn; [constructor | |].
  - apply Subseq_skip. exact IH.
  - apply Subseq_keep. exact IH.
Qed.

(** What the loop over the maker links keeps true of [processedMakerUrls]
    and [makers]. *)
Lemma collectMakers_invariant (cap : Z) (links : list MakerLink) :
  forall processed makers,
    NoDup (map url makers) ->
    (forall m, In m makers -> In (url m) processed) ->
    Forall (fun m => startsWith (url m) "https://www.producthunt.com/@" = true) makers ->
    (forall i m, nth_error makers i = Some m -> isMaker m = false -> (Z.of_nat i < cap)%Z) ->
    let result := collectMakers cap links processed makers in
    NoDup (map url result) /\
    Forall (fun m => startsWith (url m) "https://www.producthunt.com/@" = true) result /\
    (forall i m, nth_error result i = Some m -> isMaker m = false -> (Z.of_nat i < cap)%Z).
Proof.
  induction links as [|element rest IH]; intros processed makers Hnd Hseen Hurl Hcap;
    cbn [collectMakers]; [cbv zeta; auto|].
  destruct (linkHref element) as [makerUrl|]; [|apply IH; assumption].
  destruct (truthy makerUrl && startsWith makerUrl "/@") eqn:Eok; [|apply IH; assumption].
  apply andb_prop in Eok as [_ Hat].
  cbv zeta.
  destruct (seen processed ("https://www.producthunt.com" ++ makerUrl)) eqn:Eseen;
    [apply IH; assumption|].
  assert (Hfresh : ~ In ("https://www.producthunt.com" ++ makerUrl)%string processed).
  { intro Hin. apply seen_In in Hin. congruence. }
  destruct (badgeNearby element || (Z.of_nat (List.length makers) <? cap)%Z) eqn:Ekeep.
  - apply IH.
    + rewrite map_app. cbn [map newMaker url]. apply NoDup_snoc; [exact Hnd|].
      intro Hin. apply in_map_iff in Hin as (m & Hm & Hin).
      apply Hfresh. rewrite <- Hm. apply Hseen. exact Hin.
    + intros m Hin. apply in_app_or in Hin as [Hin | [<- | []]].
      * right. apply Hseen. exact Hin.
      * left. reflexivity.
    + apply Forall_app. split; [exact Hurl|]. constructor; [|constructor].
      cbn [newMaker url].
      change "https://www.producthunt.com/@"
        with ("https://www.producthunt.com" ++ "/@")%string.
      rewrite startsWith_app. exact Hat.
    + intros i m Hnth Hm.
      destruct (Nat.lt_ge_cases i (List.length makers)) as [Hlt | Hge].
      * rewrite nth_error_app1 in Hnth by exact Hlt. eauto.
      * rewrite nth_error_app2 in Hnth by exact Hge.
        destruct (i - List.length makers) as [|k] eqn:Ek;
          [|destruct k; discriminate].
        cbn in Hnth. injection Hnth as <-. cbn [newMaker isMaker] in Hm.
        rewrite Hm in Ekeep. cbn [orb] in Ekeep. apply Z.ltb_lt in Ekeep. lia.
  - apply IH; try assumption.
    intros m Hin. right. apply Hseen. exact Hin.
Qed.

(** No maker profile is visited twice for a product: the makers retained
    have pairwise different URLs, all of them profile URLs of the site. *)
Theorem no_profile_visited_twice (cap : Z) (links : list MakerLink) :
  NoDup (map url (makersToProcess cap links)) /\
  Forall (fun m => startsWith (url m) "https://www.producthunt.com/@" = true)
         (makersToProcess cap links).
Proof.
  destruct (@collectMakers_invariant cap links [] [] (NoDup_nil _)
              (fun m (H : In m []) => match H with end) (Forall_nil _))
    as (Hnd & Hurl & _).
  { intros i m Hnth. destruct i; discriminate. }
  unfold makersToProcess. rewrite sortBy_byConfirmation.
  set (collected := collectMakers cap links [] []) in *.
  assert (Hperm : Permutation collected
                    (filter isMaker collected ++ filter unconfirmed collected)).
  { apply partition_Permutation. }
  split.
  - eapply Subseq_NoDup; [apply Subseq_map_url; apply slice0_Subseq|].
    eapply Permutation_NoDup; [apply Permutation_map; exact Hperm | exact Hnd].
  - apply Forall_forall. intros m Hin.
    eapply Subseq_In in Hin; [|apply slice0_Subseq].
    eapply Permutation_in in Hin; [|apply Permutation_sym; exact Hperm].
    rewrite Forall_forall in Hurl. auto.
Qed.

(** A link without the Maker badge is collected only while fewer than
    [maxMakersPerProduct] makers have been collected: every unconfirmed
    maker sits below the cap in the collected array, so there are at most
    [cap] of them, and none at all when the cap is zero or negative. *)
Theorem unconfirmed_collected_below_cap (cap : Z) (links : list MakerLink) :
  let collected := collectMakers cap links [] [] in
  (forall i m, nth_error collected i = Some m -> isMaker m = false -> (Z.of_nat i < cap)%Z) /\
  ((cap <= 0)%Z -> forallb isMaker collected = true).
Proof.
  cbv zeta.
  destruct (@collectMakers_invariant cap links [] [] (NoDup_nil _)
              (fun m (H : In m []) => match H with end) (Forall_nil _))
    as (_ & _ & Hcap).
  { intros i m Hnth. destruct i; discriminate. }
  split; [exact Hcap|].
  intro Hle. apply forallb_forall. intros m Hin.
  apply In_nth_error in Hin as (i & Hnth).
  destruct (isMaker m) eqn:Em; [reflexivity|].
  specialize (Hcap i m Hnth Em). lia.
Qed.

End MakersExtras.

(** ** The cleanup of an e-mail match *)

Module EmailTextFacts.

Import Js JsFacts ProductPage EmailText.
Local Open Scope string_scope.
Local Open Scope list_scope.

(** *** Characters *)

Lemma lowerChar_word (c : ascii) : isWordChar (lowerChar c) = isWordChar c.
Proof. destruct c as [[] [] [] [] [] [] [] []]; reflexivity. Qed.

Lemma lowerChar_idem (c : ascii) : lowerChar (lowerChar c) = lowerChar c.
Proof. destruct c as [[] [] [] [] [] [] [] []]; reflexivity. Qed.

Lemma lowerLetter_word (c : ascii) : isLowerLetter c = true -> isWordChar c = true.
Proof. destruct c as [[] [] [] [] [] [] [] []]; cbv; intro H; congruence. Qed.

Lemma lowerLetter_fixed (c : ascii) : isLowerLetter c = true -> lowerChar c = c.
Proof. destruct c as [[] [] [] [] [] [] [] []]; cbv; intro H; congruence. Qed.

Lemma word_email (c : ascii) : isWordChar c = true -> isEmailChar c = true.
Proof. destruct c as [[] [] [] [] [] [] [] []]; cbv; intro H; congruence. Qed.

Lemma dot_email_not_word : isEmailChar "." = true /\ isWordChar "." = false.
Proof. split; reflexivity. Qed.

(** *** Strings *)

Lemma append_assoc (a b c : string) : ((a ++ b) ++ c)%string = (a ++ (b ++ c))%string.
Proof. induction a as [|x a IH]; cbn; [reflexivity | rewrite IH; reflexivity]. Qed.

Lemma append_nil_r (a : string) : (a ++ "")%string = a.
Proof. induction a as [|x a IH]; cbn; [reflexivity | rewrite IH; reflexivity]. Qed.

Lemma length_append (a b : string) :
  String.length (a ++ b) = String.length a + String.length b.
Proof. induction a as [|x a IH]; cbn; [reflexivity | rewrite IH; reflexivity]. Qed.

Lemma length_toLowerCase (a : string) : String.length (toLowerCase a) = String.length a.
Proof. induction a as [|x a IH]; cbn; [reflexivity | rewrite IH; reflexivity]. Qed.

Lemma takeChars_app (a b : string) : takeChars (String.length a) (a ++ b) = a.
Proof. induction a as [|x a IH]; cbn; [reflexivity | rewrite IH; reflexivity]. Qed.

Lemma takeChars_prefix (n : nat) (s : string) :
  exists rest, s = (takeChars n s ++ rest)%string.
Proof.
  revert s. induction n as [|n IH]; intro s; cbn.
  - exists s. reflexivity.
  - destruct s as [|c s]; [exists ""; reflexivity|].
    destruct (IH s) as (rest & E). exists rest. cbn. rewrite <- E. reflexivity.
Qed.

Lemma dropChars_app (a b : string) : dropChars (String.length a) (a ++ b) = b.
Proof. induction a as [|x a IH]; cbn; [reflexivity | exact IH]. Qed.

Lemma startsWith_prefix (a b : string) : startsWith (a ++ b) a = true.
Proof.
  induction a as [|x a IH]; cbn; [reflexivity|]. rewrite Ascii.eqb_refl. exact IH.
Qed.

Lemma wordAt_cons (n : nat) (c : ascii) (s : string) :
  wordAt (S n) (String c s) = wordAt n s.
Proof. reflexivity. Qed.

Lemma wordAt_app (w s : string) (i : nat) :
  wordAt (String.length w + i) (w ++ s) = wordAt i s.
Proof. induction w as [|c w IH]; cbn [String.length append Nat.add]; [reflexivity|]. exact IH. Qed.

(** *** One alternative at the head of a string *)

Lemma startsWithCI_wordAt (alt : string) :
  forallb isLowerLetter (list_ascii_of_string alt) = true ->
  forall (s : string) (i : nat),
    startsWithCI s alt = true -> i < String.length alt -> wordAt i s = true.
Proof.
  induction alt as [|x alt IH]; intros Hl s i Hs Hi; cbn in Hi; [lia|].
  cbn in Hl. apply andb_prop in Hl as [Hx Hl].
  destruct s as [|c s]; cbn in Hs; [discriminate|].
  apply andb_prop in Hs as [Hc Hs]. destruct i as [|i].
  - unfold wordAt. cbn. apply Ascii.eqb_eq in Hc.
    rewrite <- lowerChar_word, Hc, lowerChar_word. apply lowerLetter_word. exact Hx.
  - rewrite wordAt_cons. apply IH; [exact Hl | exact Hs | lia].
Qed.

(** After an alternative the boundary [\b] asks for a non-word character or
    the end of the string. *)
Lemma boundary_after_alt (alt s : string) :
  lowercaseWord alt = true -> startsWithCI s alt = true ->
  wordBoundaryAt (String.length alt) s = negb (wordAt (String.length alt) s).
Proof.
  unfold lowercaseWord. intros Hl Hs. apply andb_prop in Hl as [Hne Hl].
  destruct alt as [|x alt]; [discriminate|].
  unfold wordBoundaryAt. cbn [String.length].
  rewrite (@startsWithCI_wordAt (String x alt) Hl s (String.length alt) Hs)
    by (cbn; lia).
  reflexivity.
Qed.

Section Ending.

(** [w] is a word, and what follows it does not continue a word. *)
Variable rest : string.
Hypothesis rest_breaks : wordAt 0 rest = false.

Lemma alt_match_exact (alt : string) :
  forallb isLowerLetter (list_ascii_of_string alt) = true ->
  forall w : string,
    forallb isWordChar (list_ascii_of_string w) = true ->
    startsWithCI (w ++ rest) alt = true ->
    wordAt (String.length alt) (w ++ rest) = false ->
    takeChars (String.length alt) (w ++ rest) = w.
Proof.
  induction alt as [|x alt IH]; intros Hl w Hw Hs Hend.
  - destruct w as [|c w]; [reflexivity|].
    cbn in Hw. apply andb_prop in Hw as [Hc _].
    unfold wordAt in Hend. cbn in Hend. congruence.
  - cbn in Hl. apply andb_prop in Hl as [Hx Hl].
    destruct w as [|c w].
    + cbn [append] in *. destruct rest as [|c r]; cbn in Hs; [discriminate|].
      apply andb_prop in Hs as [Hc _]. apply Ascii.eqb_eq in Hc.
      unfold wordAt in rest_breaks. cbn in rest_breaks.
      rewrite <- lowerChar_word, Hc, lowerChar_word in rest_breaks.
      rewrite (lowerLetter_word _ Hx) in rest_breaks. discriminate.
    + cbn in Hw. apply andb_prop in Hw as [_ Hw].
      cbn [append] in *. cbn in Hs. apply andb_prop in Hs as [_ Hs].
      cbn [String.length] in *. rewrite wordAt_cons in Hend.
      cbn [takeChars]. rewrite (IH Hl w Hw Hs Hend). reflexivity.
Qed.

Lemma own_alt_matches (w : string) :
  lowercaseWord (toLowerCase w) = true ->
  startsWithCI (w ++ rest) (toLowerCase w) = true /\
  wordBoundaryAt (String.length (toLowerCase w)) (w ++ rest) = true.
Proof.
  intro Hl.
  assert (Hs : startsWithCI (w ++ rest) (toLowerCase w) = true).
  { clear Hl. induction w as [|c w IH]; cbn; [reflexivity|].
    rewrite lowerChar_idem, Ascii.eqb_refl. exact IH. }
  split; [exact Hs|].
  rewrite (boundary_after_alt _ _ Hl Hs), length_toLowerCase.
  rewrite <- (Nat.add_0_r (String.length w)), wordAt_app, rest_breaks. reflexivity.
Qed.

Lemma word_of_lowercase (w : string) :
  lowercaseWord (toLowerCase w) = true ->
  forallb isWordChar (list_ascii_of_string w) = true.
Proof.
  unfold lowercaseWord. intro H. apply andb_prop in H as [_ H].
  induction w as [|c w IH]; cbn in *; [reflexivity|].
  apply andb_prop in H as [Hc H]. rewrite (IH H), andb_true_r.
  rewrite <- lowerChar_word. apply lowerLetter_word. exact Hc.
Qed.

(** Whatever alternative matches at the head of [w ++ rest], it matches
    exactly [w]. *)
Lemma endingAt_exact (alts : list string) (w : string) :
  forallb lowercaseWord alts = true ->
  In (toLowerCase w) alts ->
  endingAt alts (w ++ rest) = Some w.
Proof.
  intros Hl Hin.
  assert (Hw : lowercaseWord (toLowerCase w) = true).
  { rewrite forallb_forall in Hl. apply Hl. exact Hin. }
  induction alts as [|alt alts IH]; [destruct Hin|].
  cbn in Hl. apply andb_prop in Hl as [Halt Hl]. cbn [endingAt].
  destruct (startsWithCI (w ++ rest) alt) eqn:Es; cbn [andb].
  - rewrite (boundary_after_alt _ _ Halt Es).
    destruct (wordAt (String.length alt) (w ++ rest)) eqn:Ew; cbn [negb].
    + destruct Hin as [-> | Hin]; [|exact (IH Hl Hin)].
      destruct (own_alt_matches w Hw) as [Hs Hb].
      rewrite (boundary_after_alt _ _ Hw Hs), Ew in Hb. discriminate.
    + f_equal. apply alt_match_exact; try assumption.
      * unfold lowercaseWord in Halt. apply andb_prop in Halt as [_ Halt]. exact Halt.
      * apply word_of_lowercase. exact Hw.
  - destruct Hin as [-> | Hin]; [|exact (IH Hl Hin)].
    destruct (own_alt_matches w Hw) as [Hs _]. congruence.
Qed.

End Ending.

(** *** The leftmost ending and the cut *)

Lemma domainEndingMatch_first_dot (alts : list string) (pre s : string) :
  has_char "." pre = false ->
  domainEndingMatch alts (pre ++ String "." s)
  = match endingAt alts s with
    | Some w => Some (String "." w)
    | None => domainEndingMatch alts s
    end.
Proof.
  induction pre as [|c pre IH]; intro Hpre; cbn [append domainEndingMatch].
  - reflexivity.
  - cbn in Hpre. apply orb_false_elim in Hpre as [Hc Hpre]. rewrite Hc. exact (IH Hpre).
Qed.

Lemma indexOf_cons (c : ascii) (s sub : string) :
  indexOf (String c s) sub
  = if startsWith (String c s) sub then 0%Z
    else let i := indexOf s sub in if (i <? 0)%Z then (-1)%Z else (i + 1)%Z.
Proof. reflexivity. Qed.

Lemma indexOf_first_dot (pre w rest : string) :
  has_char "." pre = false ->
  indexOf (pre ++ String "." (w ++ rest)) (String "." w) = Z.of_nat (String.length pre).
Proof.
  induction pre as [|c pre IH]; intro Hpre.
  - cbn [append String.length]. rewrite indexOf_cons.
    change (String "." (w ++ rest)) with (String "." w ++ rest)%string.
    rewrite startsWith_prefix. reflexivity.
  - cbn in Hpre. apply orb_false_elim in Hpre as [Hc Hpre].
    cbn [append String.length]. rewrite indexOf_cons.
    cbn [startsWith]. rewrite Ascii.eqb_sym, Hc. cbn [andb]. cbv zeta.
    rewrite (IH Hpre).
    destruct (Z.ltb_spec (Z.of_nat (String.length pre)) 0); lia.
Qed.

(** The cut: everything after the first dot-segment that is a listed ending
    goes, wherever that segment is. *)
Lemma cleanEmail_cut (alts : list string) (pre w rest : string) :
  forallb lowercaseWord alts = true ->
  In (toLowerCase w) alts ->
  has_char "." pre = false ->
  wordAt 0 rest = false ->
  cleanEmail alts (pre ++ String "." (w ++ rest)) = (pre ++ String "." w)%string.
Proof.
  intros Hl Hin Hpre Hrest. unfold cleanEmail.
  rewrite domainEndingMatch_first_dot by exact Hpre.
  rewrite (@endingAt_exact rest Hrest alts w Hl Hin).
  rewrite indexOf_first_dot by exact Hpre. unfold substring0.
  replace (Z.to_nat (Z.of_nat (String.length pre) + Z.of_nat (String.length (String "." w))))
    with (String.length (pre ++ String "." w)) by (rewrite length_append; lia).
  replace (pre ++ String "." (w ++ rest))%string with ((pre ++ String "." w) ++ rest)%string
    by (rewrite append_assoc; reflexivity).
  apply takeChars_app.
Qed.

(** *** Matching the match again changes nothing *)

Lemma takeEmailChars_all (s : string) :
  forallb isEmailChar (list_ascii_of_string (takeEmailChars s)) = true.
Proof.
  induction s as [|c s IH]; cbn; [reflexivity|].
  destruct (isEmailChar c) eqn:E; cbn; [rewrite E; exact IH | reflexivity].
Qed.

Lemma takeEmailChars_app (a b : string) :
  forallb isEmailChar (list_ascii_of_string a) = true ->
  takeEmailChars (a ++ b) = (a ++ takeEmailChars b)%string.
Proof.
  induction a as [|c a IH]; cbn; [reflexivity|]. intro H.
  apply andb_prop in H as [Hc H]. rewrite Hc, (IH H). reflexivity.
Qed.

Lemma takeEmailChars_idem (s : string) : takeEmailChars (takeEmailChars s) = takeEmailChars s.
Proof.
  rewrite <- (append_nil_r (takeEmailChars s)) at 1.
  rewrite takeEmailChars_app by apply takeEmailChars_all. cbn. apply append_nil_r.
Qed.

Lemma emailAt_again (s m : string) : emailAt s = Some m -> emailAt m = Some m.
Proof.
  unfold emailAt. cbv zeta.
  destruct (truthy (takeEmailChars s)) eqn:Et; [|discriminate].
  destruct (dropChars (String.length (takeEmailChars s)) s) as [|c rest]; [discriminate|].
  destruct (Ascii.eqb c "@" && dottedRun (takeEmailChars rest)) eqn:E; [|discriminate].
  intro H. injection H as <-.
  apply andb_prop in E as [Hc Hd]. 
  rewrite takeEmailChars_app by apply takeEmailChars_all.
  cbn [takeEmailChars isEmailChar]. 
  replace (isEmailChar "@") with false by reflexivity.
  rewrite append_nil_r, Et, dropChars_app.
  replace (Ascii.eqb "@" "@") with true by reflexivity.
  rewrite takeEmailChars_idem, Hd. reflexivity.
Qed.

Lemma firstEmailMatch_again (text m : string) :
  firstEmailMatch text = Some m -> firstEmailMatch m = Some m.
Proof.
  induction text as [|c text IH]; cbn [firstEmailMatch].
  - cbn. discriminate.
  - destruct (emailAt (String c text)) as [m'|] eqn:E.
    + intro H. injection H as ->. apply emailAt_again in E.
      destruct m as [|x m]; cbn [firstEmailMatch]; rewrite E; reflexivity.
    + exact IH.
Qed.

(** *** The second rule never applies *)

Lemma endingThenOther_found (alts : list string) (s : string) (other : ascii) :
  endingThenOther alts s = Some other ->
  exists alt, In alt alts /\ startsWithCI s alt = true /\
              wordAt (String.length alt) s = false.
Proof.
  induction alts as [|alt alts IH]; cbn [endingThenOther]; [discriminate|].
  destruct (startsWithCI s alt) eqn:Es.
  - destruct (String.get (String.length alt) s) as [c|] eqn:Eg.
    + destruct (isEmailChar c) eqn:Ec; cbn [negb].
      * intro H. destruct (IH H) as (a & Hin & Ha). exists a. split; [right|]; assumption.
      * intros _. exists alt. split; [left; reflexivity|]. split; [exact Es|].
        unfold wordAt. rewrite Eg. destruct (isWordChar c) eqn:Ew; [|reflexivity].
        rewrite (word_email _ Ew) in Ec. discriminate.
    + intro H. destruct (IH H) as (a & Hin & Ha). exists a. split; [right|]; assumption.
  - intro H. destruct (IH H) as (a & Hin & Ha). exists a. split; [right|]; assumption.
Qed.

Lemma endingAt_some (alts : list string) (s alt : string) :
  forallb lowercaseWord alts = true ->
  In alt alts -> startsWithCI s alt = true -> wordAt (String.length alt) s = false ->
  endingAt alts s <> None.
Proof.
  intros Hl Hin Hs Hw. induction alts as [|a alts IH]; [destruct Hin|].
  cbn in Hl. apply andb_prop in Hl as [Ha Hl]. cbn [endingAt].
  destruct (startsWithCI s a && wordBoundaryAt (String.length a) s) eqn:E; [discriminate|].
  destruct Hin as [-> | Hin]; [|exact (IH Hl Hin)].
  rewrite Hs, (boundary_after_alt _ _ Ha Hs), Hw in E. discriminate.
Qed.

Lemma second_rule_covered (alts : list string) (raw : string) :
  forallb lowercaseWord alts = true ->
  (forall alt, In alt commonEndings -> In alt alts) ->
  domainEndingMatch alts raw = None -> nonEmailCharMatch raw = None.
Proof.
  intros Hl Hsub. induction raw as [|c raw IH]; cbn [domainEndingMatch nonEmailCharMatch];
    [reflexivity|].
  destruct (Ascii.eqb c "."); [|exact IH].
  destruct (endingAt alts raw) eqn:Ee; [discriminate|].
  destruct (endingThenOther commonEndings raw) as [other|] eqn:Eo; [|exact IH].
  apply endingThenOther_found in Eo as (alt & Hin & Hs & Hw).
  exfalso. exact (@endingAt_some alts raw alt Hl (Hsub alt Hin) Hs Hw Ee).
Qed.

Lemma endings_lowercase :
  forallb lowercaseWord domainEndings = true /\ forallb lowercaseWord commonEndings = true /\
  (forall alt, In alt commonEndings -> In alt domainEndings).
Proof.
  split; [vm_compute; reflexivity|]. split; [vm_compute; reflexivity|].
  intros alt Hin. cbn in Hin.
  repeat (destruct Hin as [<- | Hin]; [cbn; tauto|]). destruct Hin.
Qed.

End EmailTextFacts.

Module EmailCleanup.

Import Js JsFacts ProductPage EmailText EmailTextFacts.
Local Open Scope string_scope.
Local Open Scope list_scope.



(** The second cleanup rule (a listed ending followed by a character that
    cannot be part of an address) never applies: wherever it would match,
    the first rule has matched already.  So an address with no listed
    ending at a word boundary is kept as it is, and in every case the
    result is the beginning of the address found. *)
Theorem second_cleanup_rule_unreachable (raw : string) :
  (domainEndingMatch domainEndings raw = None ->
   nonEmailCharMatch raw = None /\ cleanEmail domainEndings raw = raw) /\
  (domainEndingMatch commonEndings raw = None ->
   nonEmailCharMatch raw = None /\ cleanEmail commonEndings raw = raw) /\
  (exists rest, raw = (cleanEmail domainEndings raw ++ rest)%string) /\
  (exists rest, raw = (cleanEmail commonEndings raw ++ rest)%string).
Proof.
  destruct endings_lowercase as (Hlong & Hshort & Hsub).
  assert (Hprefix : forall alts, exists rest, raw = (cleanEmail alts raw ++ rest)%string).
  { intro alts. unfold cleanEmail, substring0.
    destruct (domainEndingMatch alts raw); [apply takeChars_prefix|].
    destruct (nonEmailCharMatch raw); [apply takeChars_prefix|].
    exists "". rewrite append_nil_r. reflexivity. }
  split; [|split; [|split; apply Hprefix]].
  - intro Hnone.
    pose proof (@second_rule_covered domainEndings raw Hlong Hsub Hnone) as H2.
    split; [exact H2|]. unfold cleanEmail. rewrite Hnone, H2. reflexivity.
  - intro Hnone.
    pose proof (@second_rule_covered commonEndings raw Hshort (fun alt H => H) Hnone) as H2.
    split; [exact H2|]. unfold cleanEmail. rewrite Hnone, H2. reflexivity.
Qed.

End EmailCleanup.

(** ** Dates and delays *)

Module UtilsFacts.

Import Js JsFacts EmailText EmailTextFacts Utils ResponseDelay.
Local Open Scope string_scope.
Local Open Scope list_scope.

Lemma digitsThenSlash_short (s digits rest : string) :
  digitsThenSlash s = Some (digits, rest) -> shortNumber digits = true.
Proof.
  unfold digitsThenSlash.
  destruct s as [|a [|b [|c s]]]; try discriminate.
  - destruct (isDigit a && Ascii.eqb b "/") eqn:E; [|discriminate].
    intro H. injection H as <- _. apply andb_prop in E as [Ha _]. exact Ha.
  - destruct (isDigit a && isDigit b && Ascii.eqb c "/") eqn:E.
    + intro H. injection H as <- _. apply andb_prop in E as [E _]. exact E.
    + destruct (isDigit a && Ascii.eqb b "/") eqn:E'; [|discriminate].
      intro H. injection H as <- _. apply andb_prop in E' as [Ha _]. exact Ha.
Qed.

Lemma padStart2_short (digits : string) :
  shortNumber digits = true ->
  exists a b, padStart2 digits = String a (String b "") /\
              isDigit a = true /\ isDigit b = true.
Proof.
  unfold shortNumber. destruct digits as [|a [|b [|c s]]]; cbn; try discriminate.
  - intro Ha. exists "0"%char, a. split; [reflexivity|]. split; [reflexivity | exact Ha].
  - intro H. apply andb_prop in H as [Ha Hb]. exists a, b.
    split; [reflexivity|]. split; assumption.
Qed.

Lemma dateAt_parts (s year month day : string) :
  dateAt s = Some (year, month, day) ->
  (exists y1 y2 y3 y4, year = String y1 (String y2 (String y3 (String y4 ""))) /\
                       isDigit y1 && isDigit y2 && isDigit y3 && isDigit y4 = true) /\
  shortNumber month = true /\ shortNumber day = true.
Proof.
  unfold dateAt. destruct (startsWith s "/leaderboard/daily/"); [|discriminate].
  cbv zeta. set (t := dropChars 19 s).
  generalize (takeChars 4 t). intro yr.
  destruct ((String.length yr =? 4)%nat
            && forallb isDigit (list_ascii_of_string yr)) eqn:Ey; [|discriminate].
  destruct (dropChars 4 t) as [|c u]; [discriminate|].
  destruct (Ascii.eqb c "/"); [|discriminate].
  destruct (digitsThenSlash u) as [[m u']|] eqn:Em; [|discriminate].
  destruct (digitsThenSlash u') as [[d u'']|] eqn:Ed; [|discriminate].
  destruct (startsWith u'' "all"); [|discriminate].
  intro H. injection H as <- <- <-.
  apply andb_prop in Ey as [Hlen Hdig]. apply Nat.eqb_eq in Hlen.
  split; [|split; eapply digitsThenSlash_short; eassumption].
  destruct yr as [|y1 [|y2 [|y3 [|y4 [|y5 r]]]]]; try discriminate.
  exists y1, y2, y3, y4. split; [reflexivity|].
  cbn in Hdig. rewrite andb_true_r in Hdig. rewrite <- !andb_assoc. exact Hdig.
Qed.

Lemma dateMatch_parts (url year month day : string) :
  dateMatch url = Some (year, month, day) ->
  exists s, dateAt s = Some (year, month, day).
Proof.
  induction url as [|c url IH]; cbn [dateMatch].
  - destruct (dateAt "") eqn:E; [|discriminate]. intro H. injection H as ->. eauto.
  - destruct (dateAt (String c url)) eqn:E.
    + intro H. injection H as ->. eauto.
    + exact IH.
Qed.

(** Whatever the URL, [extractDateFromUrl] gives the empty string or ten
    characters of the shape [dddd-dd-dd]. *)
Theorem extractDateFromUrl_shape (validUrl : string -> bool) (url : string) :
  extractDateFromUrl validUrl url = "" \/
  isIsoDate (extractDateFromUrl validUrl url) = true.
Proof.
  unfold extractDateFromUrl.
  destruct (negb (truthy url) || negb (validUrl url)); [left; reflexivity|].
  destruct (dateMatch url) as [[[year month] day]|] eqn:E; [|left; reflexivity].
  right. apply dateMatch_parts in E as (s & E).
  apply dateAt_parts in E as ((y1 & y2 & y3 & y4 & -> & Hy) & Hm & Hd).
  apply padStart2_short in Hm as (m1 & m2 & -> & Hm1 & Hm2).
  apply padStart2_short in Hd as (d1 & d2 & -> & Hd1 & Hd2).
  cbn. rewrite Hy, Hm1, Hm2, Hd1, Hd2. reflexivity.
Qed.

Lemma dateMatch_skip (c : ascii) (s : string) :
  startsWith (String c s) "/leaderboard/daily/" = false ->
  dateMatch (String c s) = dateMatch s.
Proof.
  intro H. cbn [dateMatch]. unfold dateAt. rewrite H. reflexivity.
Qed.

Lemma digitsThenSlash_number (digits rest : string) :
  shortNumber digits = true ->
  digitsThenSlash (digits ++ String "/" rest) = Some (digits, rest).
Proof.
  unfold shortNumber. destruct digits as [|a [|b [|c s]]]; cbn [list_ascii_of_string];
    try discriminate.
  - intro Ha. cbn [append]. unfold digitsThenSlash.
    replace (isDigit "/") with false by reflexivity.
    replace (Ascii.eqb "/" "/") with true by reflexivity.
    rewrite Ha. destruct rest; reflexivity.
  - intro H. apply andb_prop in H as [Ha Hb]. cbn [append]. unfold digitsThenSlash.
    replace (Ascii.eqb "/" "/") with true by reflexivity.
    rewrite Ha, Hb. reflexivity.
Qed.

Lemma dateAt_leaderboard (y1 y2 y3 y4 : ascii) (month day suffix : string) :
  isDigit y1 && (isDigit y2 && (isDigit y3 && isDigit y4)) = true ->
  shortNumber month = true ->
  shortNumber day = true ->
  dateAt ("/leaderboard/daily/"
          ++ String y1 (String y2 (String y3 (String y4
               (String "/" (month ++ String "/" (day ++ String "/" ("all" ++ suffix))))))))
  = Some (String y1 (String y2 (String y3 (String y4 ""))), month, day).
Proof.
  intros Hy Hm Hd. unfold dateAt.
  replace (startsWith _ "/leaderboard/daily/") with true by reflexivity.
  cbv zeta.
  change (dropChars 19 _)
    with (String y1 (String y2 (String y3 (String y4
            (String "/" (month ++ String "/" (day ++ String "/" ("all" ++ suffix)))))))).
  change (takeChars 4 _) with (String y1 (String y2 (String y3 (String y4 "")))).
  change (dropChars 4 _)
    with (String "/" (month ++ String "/" (day ++ String "/" ("all" ++ suffix)))).
  cbn [String.length Nat.eqb list_ascii_of_string forallb andb].
  rewrite andb_true_r, Hy.
  replace (Ascii.eqb "/" "/") with true by reflexivity.
  rewrite digitsThenSlash_number by exact Hm.
  rewrite digitsThenSlash_number by exact Hd.
  reflexivity.
Qed.

(** The date of a leaderboard URL: from
    [https://www.producthunt.com/leaderboard/daily/Y/M/D/all], whatever
    follows, the year as it is and month and day padded to two digits. *)
Theorem extractDateFromUrl_leaderboard (validUrl : string -> bool)
    (year month day suffix : string) :
  let url := ("https://www.producthunt.com/leaderboard/daily/" ++ year ++ "/" ++ month
              ++ "/" ++ day ++ "/all" ++ suffix)%string in
  validUrl url = true ->
  (String.length year =? 4)%nat && forallb isDigit (list_ascii_of_string year) = true ->
  shortNumber month = true ->
  shortNumber day = true ->
  extractDateFromUrl validUrl url
  = (year ++ "-" ++ padStart2 month ++ "-" ++ padStart2 day)%string.
Proof.
  cbv zeta. intros Hvalid Hyear Hmonth Hday.
  unfold extractDateFromUrl. rewrite Hvalid.
  apply andb_prop in Hyear as [Hlen Hdig]. apply Nat.eqb_eq in Hlen.
  destruct year as [|y1 [|y2 [|y3 [|y4 [|y5 r]]]]]; try discriminate.
  cbn in Hdig. rewrite andb_true_r in Hdig.
  change ("https://www.producthunt.com/leaderboard/daily/"
          ++ String y1 (String y2 (String y3 (String y4 ""))) ++ "/" ++ month ++ "/" ++ day
          ++ "/all" ++ suffix)%string
    with ("https://www.producthunt.com"
          ++ ("/leaderboard/daily/"
              ++ String y1 (String y2 (String y3 (String y4
                   (String "/" (month ++ String "/"
                                 (day ++ String "/" ("all" ++ suffix)))))))))%string.
  set (tail := ("/leaderboard/daily/"
                ++ String y1 (String y2 (String y3 (String y4
                     (String "/" (month ++ String "/"
                                   (day ++ String "/" ("all" ++ suffix))))))))%string).
  assert (Hmatch : dateMatch ("https://www.producthunt.com" ++ tail)
                   = Some (String y1 (String y2 (String y3 (String y4 ""))), month, day)).
  { cbn [append]. 
    do 27 (rewrite dateMatch_skip by reflexivity).
    unfold tail at 1. cbn [append].
    match goal with
    | |- dateMatch (String ?c ?s) = _ =>
        change (dateMatch (String c s))
          with (match dateAt (String c s) with
                | Some m => Some m
                | None => dateMatch s
                end)
    end.
    change (String "/" _) with tail at 1.
    unfold tail at 1. rewrite dateAt_leaderboard by assumption. reflexivity. }
  rewrite Hmatch. reflexivity.
Qed.

Lemma extractDateFromUrl_leaderboard_witness :
  extractDateFromUrl (fun _ => true)
    "https://www.producthunt.com/leaderboard/daily/2025/3/17/all?ref=home"
  = "2025-03-17".
Proof.
  apply (@extractDateFromUrl_leaderboard (fun _ => true) "2025" "3" "17" "?ref=home");
    reflexivity.
Defined.

(** *** Random delays *)

Local Open Scope Z_scope.

Lemma Qfloor_unit_scaled (random : Q) (n : Z) :
  RateLimiter.unitInterval random -> 0 < n ->
  0 <= Qfloor (random * inject_Z n) < n.
Proof.
  intros [H0 H1] Hn. split.
  - change 0 with (Qfloor 0). apply Qfloor_resp_le.
    apply Qmult_le_0_compat; [exact H0|].
    change 0%Q with (inject_Z 0). rewrite <- Zle_Qle. lia.
  - rewrite Zlt_Qlt. eapply Qle_lt_trans; [apply Qfloor_le|].
    rewrite <- (Qmult_1_l (inject_Z n)) at 2.
    apply Qmult_lt_compat_r; [|exact H1].
    change 0%Q with (inject_Z 0). rewrite <- Zlt_Qlt. exact Hn.
Qed.

Lemma randomDelay2_bounds (min max : Z) (random : Q) :
  RateLimiter.unitInterval random -> min <= max ->
  min <= randomDelay2 min max random <= max.
Proof.
  intros Hr Hle. unfold randomDelay2.
  pose proof (@Qfloor_unit_scaled random (max - min + 1) Hr). lia.
Qed.

Lemma randomDelay_bounds (baseDelay random : Q) :
  RateLimiter.unitInterval random -> (0 <= baseDelay)%Q ->
  Qfloor (baseDelay * (8 # 10)) <= randomDelay baseDelay random
  <= Qfloor (baseDelay * (12 # 10)).
Proof.
  intros Hr Hb. unfold randomDelay. apply randomDelay2_bounds; [exact Hr|].
  apply Qfloor_resp_le. apply Qmult_le_l_nonneg || idtac.
  setoid_replace (baseDelay * (8 # 10))%Q with ((8 # 10) * baseDelay)%Q by ring.
  setoid_replace (baseDelay * (12 # 10))%Q with ((12 # 10) * baseDelay)%Q by ring.
  apply Qmult_le_compat_r; [|exact Hb]. discriminate.
Qed.

(** [randomDelay(min, max)] stays within its two bounds, both included, and
    [randomDelay(base)] within 80% and 120% of a non-negative base, rounded
    down. *)
Theorem randomDelay_within_bounds (random : Q) :
  RateLimiter.unitInterval random ->
  (forall min max, min <= max -> min <= randomDelay2 min max random <= max) /\
  (forall baseDelay, (0 <= baseDelay)%Q ->
     Qfloor (baseDelay * (8 # 10)) <= randomDelay baseDelay random
     <= Qfloor (baseDelay * (12 # 10))).
Proof.
  intro Hr. split.
  - intros min max Hle. apply randomDelay2_bounds; assumption.
  - intros baseDelay Hb. apply randomDelay_bounds; assumption.
Qed.

Lemma randomDelay_within_bounds_witness :
  RateLimiter.unitInterval (99 # 100) /\
  800 <= randomDelay 1000 (99 # 100) <= 1200.
Proof.
  assert (H : RateLimiter.unitInterval (99 # 100)) by (split; [discriminate | reflexivity]).
  split; [exact H|].
  apply (proj2 (@randomDelay_within_bounds (99 # 100) H) 1000%Q).
  discriminate.
Defined.

(** The slower the last response, the longer the wait: for a non-negative
    base delay and any random draws, the delay after a response slower than
    5 s exceeds the delay after one between 2 s and 5 s, which exceeds the
    delay after a faster one. *)
Theorem slower_responses_wait_longer (baseDelay slow medium fast r1 r2 r3 : Q) :
  (0 <= baseDelay)%Q ->
  RateLimiter.unitInterval r1 -> RateLimiter.unitInterval r2 -> RateLimiter.unitInterval r3 ->
  (5000 < slow)%Q -> (2000 < medium)%Q -> (medium <= 5000)%Q -> (fast <= 2000)%Q ->
  (calculateAdaptiveDelay baseDelay medium r2 < calculateAdaptiveDelay baseDelay slow r1)%Q /\
  (calculateAdaptiveDelay baseDelay fast r3 < calculateAdaptiveDelay baseDelay medium r2)%Q.
Proof.
  intros Hb H1 H2 H3 Hslow Hmed Hmed' Hfast. unfold calculateAdaptiveDelay.
  assert (Es : Qle_bool slow 5000 = false).
  { destruct (Qle_bool slow 5000) eqn:E; [|reflexivity].
    apply Qle_bool_iff in E. exfalso. apply (Qlt_not_le _ _ Hslow E). }
  assert (Em : Qle_bool medium 5000 = true) by (apply Qle_bool_iff; exact Hmed').
  assert (Em' : Qle_bool medium 2000 = false).
  { destruct (Qle_bool medium 2000) eqn:E; [|reflexivity].
    apply Qle_bool_iff in E. exfalso. apply (Qlt_not_le _ _ Hmed E). }
  assert (Ef : Qle_bool fast 2000 = true) by (apply Qle_bool_iff; exact Hfast).
  assert (Ef' : Qle_bool fast 5000 = true).
  { apply Qle_bool_iff. eapply Qle_trans; [exact Hfast | discriminate]. }
  rewrite Es, Em, Em', Ef, Ef'. cbn [negb].
  pose proof (@randomDelay_bounds 1000%Q r1 H1 ltac:(discriminate)) as B1.
  pose proof (@randomDelay_bounds 500%Q r2 H2 ltac:(discriminate)) as B2.
  pose proof (@randomDelay_bounds 300%Q r3 H3 ltac:(discriminate)) as B3.
  change (Qfloor (1000 * (8 # 10))) with 800 in B1.
  change (Qfloor (500 * (8 # 10))) with 400 in B2.
  change (Qfloor (500 * (12 # 10))) with 600 in B2.
  change (Qfloor (300 * (12 # 10))) with 360 in B3.
  destruct B1 as [B1 _]. destruct B2 as [B2 B2']. destruct B3 as [_ B3].
  rewrite Zle_Qle in B1, B2, B2', B3.
  set (d1 := inject_Z (randomDelay 1000 r1)) in *.
  set (d2 := inject_Z (randomDelay 500 r2)) in *.
  set (d3 := inject_Z (randomDelay 300 r3)) in *.
  change (inject_Z 800) with 800%Q in B1. change (inject_Z 400) with 400%Q in B2.
  change (inject_Z 600) with 600%Q in B2'. change (inject_Z 360) with 360%Q in B3.
  split; lra.
Qed.

Lemma slower_responses_wait_longer_witness :
  (calculateAdaptiveDelay 2000 3000 (1 # 2) < calculateAdaptiveDelay 2000 6000 0)%Q /\
  (calculateAdaptiveDelay 2000 500 (99 # 100) < calculateAdaptiveDelay 2000 3000 (1 # 2))%Q.
Proof.
  apply (@slower_responses_wait_longer 2000 6000 3000 500 0 (1 # 2) (99 # 100));
    try (split; [discriminate | reflexivity]); try discriminate; reflexivity.
Defined.

End UtilsFacts.

(** ** The e-mail chosen on a website and the guard on its URL *)

Module PageScanFacts.

Import Js JsFacts EmailTextFacts WebsiteContact PageScan.
Local Open Scope string_scope.
Local Open Scope list_scope.

Lemma filter_head {A : Type} (f : A -> bool) (l : list A) (x : A) (rest : list A) :
  filter f l = x :: rest -> In x l /\ f x = true.
Proof.
  intro H. apply filter_In. rewrite H. left. reflexivity.
Qed.

Lemma filter_nil_none {A : Type} (f : A -> bool) (l : list A) :
  filter f l = [] -> existsb f l = false.
Proof.
  induction l as [|x l IH]; cbn; [reflexivity|].
  destruct (f x); [discriminate | exact IH].
Qed.

(** The e-mail chosen among those collected in the page is one of them; it
    is a business address (none of the free-mail names occurs in it)
    whenever one was collected, and a business address with one of the
    priority prefixes whenever one of those was collected; the address it
    replaces is kept only when nothing was collected. *)
Theorem chooseEmail_prefers_business (current : string) (jsEmails : list string) :
  let chosen := chooseEmail current jsEmails in
  (jsEmails = [] -> chosen = current) /\
  (jsEmails <> [] -> In chosen jsEmails) /\
  (existsb isBusinessEmail jsEmails = true -> isBusinessEmail chosen = true) /\
  (existsb (fun e => isBusinessEmail e && hasPriorityPrefix e) jsEmails = true ->
   isBusinessEmail chosen && hasPriorityPrefix chosen = true).
Proof.
  cbv zeta. unfold chooseEmail.
  destruct jsEmails as [|generic others]; [repeat split; try discriminate; contradiction|].
  set (jsEmails := generic :: others).
  destruct (filter isBusinessEmail jsEmails) as [|business bs] eqn:Eb.
  - pose proof (filter_nil_none _ _ Eb) as Hnone.
    split; [discriminate|]. split; [intros _; left; reflexivity|].
    split; [rewrite Hnone; discriminate|].
    intro H. apply existsb_exists in H as (e & Hin & He).
    apply andb_prop in He as [He _].
    assert (Hsome : existsb isBusinessEmail jsEmails = true).
    { apply existsb_exists. exists e. split; assumption. }
    congruence.
  - destruct (filter_head _ _ Eb) as [Hin Hbus].
    destruct (filter hasPriorityPrefix (business :: bs)) as [|priority ps] eqn:Ep.
    + split; [discriminate|]. split; [intros _; exact Hin|]. split; [intros _; exact Hbus|].
      intro H. apply existsb_exists in H as (e & Hine & He).
      apply andb_prop in He as [He1 He2].
      pose proof (filter_nil_none _ _ Ep) as Hnone.
      assert (Hsome : existsb hasPriorityPrefix (business :: bs) = true).
      { apply existsb_exists. exists e. split; [|exact He2].
        rewrite <- Eb. apply filter_In. split; assumption. }
      congruence.
    + destruct (filter_head _ _ Ep) as [Hinp Hprio].
      rewrite <- Eb in Hinp. apply filter_In in Hinp as [Hinp Hbusp].
      split; [discriminate|]. split; [intros _; exact Hinp|].
      split; [intros _; exact Hbusp|]. intros _. rewrite Hbusp, Hprio. reflexivity.
Qed.

Lemma toLowerCase_app (a b : string) :
  toLowerCase (a ++ b) = (toLowerCase a ++ toLowerCase b)%string.
Proof. induction a as [|c a IH]; cbn; [reflexivity | rewrite IH; reflexivity]. Qed.

Lemma includes_startsWith (s sub : string) : startsWith s sub = true -> includes s sub = true.
Proof. intro H. destruct s; cbn [includes]; rewrite H; reflexivity. Qed.

Lemma includes_middle (pre mid post : string) : includes (pre ++ mid ++ post) mid = true.
Proof.
  induction pre as [|c pre IH].
  - cbn [append]. apply includes_startsWith. apply startsWith_prefix.
  - cbn [append includes]. rewrite IH. apply orb_true_r.
Qed.

(** The guard on the [website] field returns the URL or the empty string;
    it keeps every URL that contains none of the six listed domains, and
    drops, unless the page gives evidence for the domain, every URL in
    which one of them occurs anywhere, in any letter case: as the host, in
    a longer host name, or in the path. *)
Theorem guardWebsite_drops_listed_domains (evidence : string -> Evidence) (website : string) :
  let result := guardWebsite evidence website in
  (result = website \/ result = "") /\
  (existsb (fun fp => includes (toLowerCase website) fp) falsePositives = false ->
   result = website) /\
  ((forall domain, isActualWebsite (evidence domain) = true) -> result = website) /\
  (forall pre mid post,
      website = (pre ++ mid ++ post)%string -> In (toLowerCase mid) falsePositives ->
      (forall domain, isActualWebsite (evidence domain) = false) -> result = "").
Proof.
  cbv zeta. unfold guardWebsite.
  destruct (truthy website) eqn:Et.
  - destruct (existsb (fun fp => includes (toLowerCase website) fp) falsePositives) eqn:Ef.
    + split; [destruct (negb _); auto|]. split; [discriminate|]. split.
      * intro Hev. rewrite Hev. reflexivity.
      * intros pre mid post _ _ Hev. rewrite Hev. reflexivity.
    + split; [auto|]. split; [reflexivity|]. split; [reflexivity|].
      intros pre mid post -> Hin _. exfalso.
      assert (Hsome : existsb (fun fp => includes (toLowerCase (pre ++ mid ++ post)) fp)
                        falsePositives = true).
      { apply existsb_exists. exists (toLowerCase mid). split; [exact Hin|].
        rewrite !toLowerCase_app. apply includes_middle. }
      congruence.
  - apply truthy_false_iff in Et. subst website.
    split; [auto|]. split; [reflexivity|]. split; [reflexivity|]. reflexivity.
Qed.

End PageScanFacts.

(** ** Instances *)

Module PageWitnesses.

Import Session Resolver.


Lemma scroll_loop_never_stable_witness :
  exists st : Scroll.ScrollState,
    Scroll.scrollToLoadAll Scroll.maxScrolls 0 (fun n => Z.of_nat n + 1)%Z = Some st /\
    Scroll.scrollCount st = Scroll.maxScrolls.
Proof.
  apply (@ScrollFacts.scroll_loop_never_stable 0 (fun n => Z.of_nat n + 1)%Z).
  intros [|n]; cbn [Scroll.heightBefore]; lia.
Defined.

End PageWitnesses.

(** ** What the scans of the product page can return *)

Module ScanFacts.

Import Js JsFacts JsArray ProductPage.
Local Open Scope string_scope.
Local Open Scope list_scope.

(** The head of a list sorted by [href] length with the stable sort: the
    first of its shortest elements. *)
Lemma sortBy_length_head (x : Element) (l : list Element) :
  exists before a after rest,
    x :: l = before ++ a :: after /\
    sortBy byHrefLength (x :: l) = a :: rest /\
    Forall (fun b => String.length (href a) < String.length (href b)) before /\
    Forall (fun b => String.length (href a) <= String.length (href b)) after.
Proof.
  revert x. induction l as [|y l IH]; intro x.
  - exists [], x, [], []. repeat split; constructor.
  - destruct (IH y) as (before & a & after & rest & Hl & Hsort & Hbefore & Hafter).
    cbn [sortBy] in *. rewrite Hsort. cbn [insertBy].
    unfold byHrefLength at 1.
    destruct (Z.ltb_spec 0 (Z.of_nat (String.length (href x))
                            - Z.of_nat (String.length (href a)))) as [Hlt | Hge].
    + exists (x :: before), a, after, (insertBy byHrefLength x rest).
      rewrite Hl. repeat split; [|exact Hafter].
      constructor; [lia | exact Hbefore].
    + exists [], x, (y :: l), (a :: rest). rewrite Hl.
      split; [reflexivity|]. split; [reflexivity|]. split; [constructor|].
      apply Forall_app. split.
      * eapply Forall_impl; [|exact Hbefore]. cbn. intros b Hb. lia.
      * constructor; [lia|]. eapply Forall_impl; [|exact Hafter]. cbn. intros b Hb. lia.
Qed.

(** The fourth approach returns the [href] of the shortest external link,
    and of the first one on the page among equally short ones; the empty
    string when the page has no external link. *)
Theorem externalLinkScan_shortest_link (p : Page) :
  let links := filter isExternalLink (elements p) in
  (links = [] -> externalLinkScan p = "") /\
  (links <> [] ->
   exists before a after,
     links = before ++ a :: after /\
     externalLinkScan p = href a /\
     Forall (fun b => String.length (href a) < String.length (href b)) before /\
     Forall (fun b => String.length (href a) <= String.length (href b)) after).
Proof.
  cbv zeta. unfold externalLinkScan.
  destruct (filter isExternalLink (elements p)) as [|x l].
  - split; [reflexivity | contradiction].
  - split; [discriminate|]. intros _.
    destruct (sortBy_length_head x l) as (before & a & after & rest & Hl & Hsort & Hb & Ha).
    exists before, a, after. rewrite Hsort. auto.
Qed.

Lemma firstHref_filter (f : Element -> bool) (l : list Element) :
  firstHref (filter f l) = "" \/
  exists e, In e l /\ f e = true /\ firstHref (filter f l) = href e.
Proof.
  destruct (filter f l) as [|e rest] eqn:E; [left; reflexivity|].
  right. exists e. assert (Hin : In e (filter f l)) by (rewrite E; left; reflexivity).
  apply filter_In in Hin as [Hin Hf]. auto.
Qed.

(** What the call-to-action scans, the redirect and the e-mail scan can
    give as the product website: the "visit" scan an [http] URL that is
    neither a Product Hunt redirect nor the Product Hunt calendar, the
    "get it" scan an [http] URL off producthunt.com altogether, the
    redirect a final URL off producthunt.com, and the e-mail scan
    [https://] followed by a domain in which no free-mail name occurs; or
    else the empty string. *)
Theorem website_candidates_are_filtered (p : Page) (finalUrl : string)
    (emails : list string) :
  (visitButtonScan p = "" \/
   (startsWith (visitButtonScan p) "http" = true /\
    includes (visitButtonScan p) "producthunt.com/r/" = false /\
    includes (visitButtonScan p) "lu.ma/producthunt" = false)) /\
  (getItButtonScan p = "" \/
   (startsWith (getItButtonScan p) "http" = true /\
    includes (getItButtonScan p) "producthunt.com" = false /\
    includes (getItButtonScan p) "lu.ma/producthunt" = false)) /\
  (acceptRedirectTarget finalUrl = "" \/
   (acceptRedirectTarget finalUrl = finalUrl /\
    includes finalUrl "producthunt.com" = false /\
    includes finalUrl "lu.ma/producthunt" = false)) /\
  (emailDomainResult emails = "" \/
   exists domain,
     emailDomainResult emails = ("https://" ++ domain)%string /\
     existsb (fun part => includes domain part) freeMailParts = false).
Proof.
  split; [|split; [|split]].
  - unfold visitButtonScan.
    destruct (firstHref_filter isVisitButton (elements p)) as [E | (e & _ & He & E)];
      [left; exact E|].
    right. rewrite E. unfold isVisitButton in He.
    repeat (apply andb_prop in He as [He ?]).
    repeat split; try assumption; apply negb_true_iff; assumption.
  - unfold getItButtonScan.
    destruct (firstHref_filter isGetItButton (elements p)) as [E | (e & _ & He & E)];
      [left; exact E|].
    right. rewrite E. unfold isGetItButton in He.
    repeat (apply andb_prop in He as [He ?]).
    repeat split; try assumption; apply negb_true_iff; assumption.
  - unfold acceptRedirectTarget.
    destruct (negb (includes finalUrl "producthunt.com")
              && negb (includes finalUrl "lu.ma/producthunt")) eqn:E; [|left; reflexivity].
    right. apply andb_prop in E as [E1 E2].
    repeat split; apply negb_true_iff; assumption.
  - unfold emailDomainResult.
    destruct (flat_map (fun e => keepDomain (emailDomain e)) emails) as [|d rest] eqn:E;
      [left; reflexivity|].
    right. exists d. split; [reflexivity|].
    assert (Hin : In d (flat_map (fun e => keepDomain (emailDomain e)) emails))
      by (rewrite E; left; reflexivity).
    apply in_flat_map in Hin as (e & _ & Hd). unfold keepDomain in Hd.
    destruct (emailDomain e) as [d'|]; [|destruct Hd].
    destruct (truthy d' && negb (existsb (fun part => includes d' part) freeMailParts))
      eqn:Ek; [|destruct Hd].
    destruct Hd as [<- | []]. apply andb_prop in Ek as [_ Ek].
    apply negb_true_iff. exact Ek.
Qed.

End ScanFacts.
